(** * Custom-Field-Propagator: the quadrature core of
      [trapezoid2D_integration_functions.py]

    A shallow embedding of the lens-plane and focal-region synthesizers, of
    the row rotations, the trapezoid weights and the polar-to-Cartesian
    resampler, followed by the properties proved about them.

    Conventions of the embedding.
    - Python floats and numpy [float64] values are real numbers ([R]) and
      numpy [complex128] values are pairs of reals: arithmetic is exact, there
      is no rounding, no NaN and no infinity.
    - Three operations of the source leave the reals, and the statements
      about runs that pass them exclude those operands: a division by a
      Python float that is zero raises [ZeroDivisionError] (the divisions by
      [Lambda], [L] and [wavelength]), whereas the division of [R] is total;
      [I0**0.5] is a complex root for a negative [I0], whereas [sqrt] is [0]
      there; and [cos_theta**0.5] is NaN where the cosine is negative, that
      is for a semi-aperture above [pi/2].
    - Python integers that count samples are [nat]; an index expression that
      may be negative is a [Z].
    - A two-dimensional numpy array is the list of its rows.  An array with
      no row carries no column count in this representation.
    - A Python exception is a value of [exn]; code that may raise returns a
      [result].  Code that prints, sleeps, draws, reports progress or calls
      the injected mask function runs in the monad [py], which also collects
      those events in order. *)

From Stdlib Require Import Reals Lra Lia ZArith.
From stdpp Require Import base list strings.

(** ** Python runtime *)

Inductive exn : Type :=
| ZeroDivisionError
| IndexError
| ValueError
| TypeError.

Inductive result (A : Type) : Type :=
| Ok (a : A)
| Raise (e : exn).
Arguments Ok {A} a.
Arguments Raise {A} e.

#[global] Instance result_ret : MRet result := λ A a, Ok a.
#[global] Instance result_bind : MBind result := λ A B f m,
  match m with
  | Ok a => f a
  | Raise e => Raise e
  end.

(** [for x in l: s = body(s, x)], stopping at the first exception. *)
Fixpoint for_each {A St : Type} (l : list A) (body : St → A → result St)
    (s : St) : result St :=
  match l with
  | [] => Ok s
  | x :: l' => s' ← body s x; for_each l' body s'
  end.

(** [range(n)] *)
Definition range (n : nat) : list nat := seq 0 n.

(** [enumerate(l)] *)
Definition enumerate {A : Type} (l : list A) : list (nat * A) := imap pair l.

(** The position an integer subscript [i] denotes in a sequence of length
    [n]: a negative subscript counts from the end, anything outside
    [-n, n) raises [IndexError]. *)
Definition py_index (n : nat) (i : Z) : result nat :=
  if decide (0 ≤ i < Z.of_nat n)%Z then Ok (Z.to_nat i)
  else if decide (- Z.of_nat n ≤ i < 0)%Z then Ok (Z.to_nat (i + Z.of_nat n))
  else Raise IndexError.

(** [l[i]] *)
Definition getitem {A : Type} (l : list A) (i : Z) : result A :=
  k ← py_index (length l) i;
  match l !! k with
  | Some x => Ok x
  | None => Raise IndexError
  end.

(** [l[i] = x] *)
Definition setitem {A : Type} (l : list A) (i : Z) (x : A) : result (list A) :=
  k ← py_index (length l) i;
  Ok (<[k:=x]> l).

(** ** Complex numbers *)

Definition C : Type := (R * R)%type.

Definition C0 : C := (0%R, 0%R).
Definition Ci : C := (0%R, 1%R).
Definition RtoC (x : R) : C := (x, 0%R).
Definition Cadd (z w : C) : C := ((z.1 + w.1)%R, (z.2 + w.2)%R).
Definition Cmul (z w : C) : C :=
  ((z.1 * w.1 - z.2 * w.2)%R, (z.1 * w.2 + z.2 * w.1)%R).
Definition Copp (z : C) : C := ((- z.1)%R, (- z.2)%R).
(** [z / x] for a real [x] *)
Definition Cdivr (z : C) (x : R) : C := ((z.1 / x)%R, (z.2 / x)%R).
(** [np.exp(z)] *)
Definition Cexp (z : C) : C :=
  ((exp z.1 * cos z.2)%R, (exp z.1 * sin z.2)%R).
(** [np.abs(z)] *)
Definition Cabs (z : C) : R := sqrt (z.1 * z.1 + z.2 * z.2).

(** ** numpy arrays *)

Abbreviation matrix A := (list (list A)).

(** [np.shape(m)] of a two-dimensional array *)
Definition shape {A : Type} (m : matrix A) : nat * nat :=
  (length m, length (default [] (head m))).

(** [np.zeros((a, b), dtype=complex)] *)
Definition zeros (a b : nat) : matrix C := replicate a (replicate b C0).

(** ** The angular-grid rotators

    Both synthesizers of the focal region define the same two closures. *)

(** [[
    def rotate_180º(matrix):
        a,b=np.shape(matrix)
        aux=np.zeros((a,b),dtype=complex)
        for i in range(a):
            aux[i-int(a/2),:]=matrix[i,:]
        return aux
    ]] *)
Definition rotate_180 (m : matrix C) : result (matrix C) :=
  let '(a, b) := shape m in
  let aux := zeros a b in
  for_each (range a) (λ aux i,
    row ← getitem m (Z.of_nat i);
    setitem aux (Z.of_nat i - Z.of_nat (a / 2)) row) aux.

(** [[
    def rotate_270º(matrix):
        a,b=np.shape(matrix)
        aux=np.zeros((a,b),dtype=complex)
        for i in range(a):
            aux[i-int(3*a/4),:]=matrix[i,:]
        return aux
    ]] *)
Definition rotate_270 (m : matrix C) : result (matrix C) :=
  let '(a, b) := shape m in
  let aux := zeros a b in
  for_each (range a) (λ aux i,
    row ← getitem m (Z.of_nat i);
    setitem aux (Z.of_nat i - Z.of_nat (3 * a / 4)) row) aux.

(** ** Observable events and the [py] monad *)

(** A Python value passed to the injected mask function. *)
Inductive pyarg : Type :=
| AFloat (x : R)
| AArray (m : matrix R).

Inductive event : Type :=
| Print (s : string)                 (* print(s) *)
| Sleep (ms : nat)                   (* time.sleep, in milliseconds *)
| Progress (desc : string) (i : nat) (* one step of a tqdm bar *)
| Call (args : list pyarg)           (* a call of the mask function *)
| Plot (title : string).             (* a matplotlib figure *)

Definition py (A : Type) : Type := (list event * result A)%type.

#[global] Instance py_ret : MRet py := λ A a, ([], Ok a).
#[global] Instance py_bind : MBind py := λ A B f m,
  match m.2 with
  | Ok a => (m.1 ++ (f a).1, (f a).2)
  | Raise e => (m.1, Raise e)
  end.

Definition lift {A : Type} (r : result A) : py A := ([], r).
Definition emit (e : event) : py unit := ([e], Ok ()).

(** [for x in l: s = body(s, x)] for a body with observable events. *)
Fixpoint for_each_py {A St : Type} (l : list A) (body : St → A → py St)
    (s : St) : py St :=
  match l with
  | [] => mret s
  | x :: l' => s' ← body s x; for_each_py l' body s'
  end.

(** [for x in tqdm(l, desc=desc)] *)
Definition for_each_tqdm {St : Type} (desc : string) (l : list nat)
    (body : St → nat → py St) (s : St) : py St :=
  for_each_py l (λ s i, _ ← emit (Progress desc i); body s i) s.

(** [x / n] for a Python float [x] and a Python integer [n] *)
Definition py_div (x : R) (n : nat) : result R :=
  if decide (n = 0) then Raise ZeroDivisionError else Ok (x / INR n)%R.

#[global] Instance Rlt_decision (x y : R) : Decision (x < y)%R := Rlt_dec x y.

(** ** numpy *)

(** [np.linspace(start, stop, num)]: [num] evenly spaced samples with both
    ends included; a single sample is [start]. *)
Definition linspace (start stop : R) (num : nat) : list R :=
  let step := ((stop - start) / INR (num - 1))%R in
  (λ i, (INR i * step + start)%R) <$> seq 0 num.

(** [np.meshgrid(xs, ys)]: both results have one row per element of [ys] and
    one column per element of [xs]. *)
Definition meshgrid (xs ys : list R) : matrix R * matrix R :=
  ((λ _, xs) <$> ys, (λ y, (λ _, y) <$> xs) <$> ys).

(** [np.vstack(v)] of a one-dimensional array: a column. *)
Definition vstack {A : Type} (v : list A) : matrix A := (λ x, [x]) <$> v.

(** A unary function applied to every cell. *)
Definition mmap {A B : Type} (f : A → B) (m : matrix A) : matrix B :=
  (λ row : list A, f <$> row) <$> m.

(** The common length of two broadcast dimensions. *)
Definition bdim (n m : nat) : result nat :=
  if decide (n = m) then Ok n
  else if decide (n = 1) then Ok m
  else if decide (m = 1) then Ok n
  else Raise ValueError.

(** A dimension of length one is repeated to the broadcast length. *)
Definition stretch {A : Type} (n : nat) (l : list A) : list A :=
  match l with
  | [x] => replicate n x
  | _ => l
  end.

(** A binary operator applied cell by cell to two arrays, with numpy's
    broadcasting; shapes that do not broadcast raise [ValueError]. *)
Definition ew2 {A B D : Type} (f : A → B → D) (a : matrix A) (b : matrix B)
  : result (matrix D) :=
  r ← bdim (shape a).1 (shape b).1;
  c ← bdim (shape a).2 (shape b).2;
  Ok (zip_with (zip_with f)
        (stretch r (stretch c <$> a)) (stretch r (stretch c <$> b))).

(** [np.sum(m)] *)
Definition Rsum (l : list R) : R := foldr Rplus 0%R l.
Definition Csum (m : matrix C) : C := foldr Cadd C0 (concat m).

(** [m[i, j]] and [m[i, j] = x] *)
Definition getitem2 {A : Type} (m : matrix A) (i j : Z) : result A :=
  row ← getitem m i; getitem row j.
Definition setitem2 {A : Type} (m : matrix A) (i j : Z) (x : A)
  : result (matrix A) :=
  row ← getitem m i; row' ← setitem row j x; setitem m i row'.

(** [np.argmin(l)]: the first position of the least element. *)
Fixpoint argmin_from (best_i : nat) (best : R) (i : nat) (l : list R) : nat :=
  match l with
  | [] => best_i
  | x :: l' =>
      if decide (x < best)%R then argmin_from i x (S i) l'
      else argmin_from best_i best (S i) l'
  end.
Definition argmin (l : list R) : result nat :=
  match l with
  | [] => Raise ValueError
  | x :: l' => Ok (argmin_from 0 x 1 l')
  end.

(** [np.arctan2(y, x)], the angle of the point [(x, y)] in [(-π, π]]. *)
Definition arctan2 (y x : R) : R :=
  if decide (0 < x)%R then atan (y / x)
  else if decide (x < 0)%R then
    if decide (y < 0)%R then (atan (y / x) - PI)%R else (atan (y / x) + PI)%R
  else if decide (0 < y)%R then (PI / 2)%R
  else if decide (y < 0)%R then (- PI / 2)%R
  else 0%R.

(** An array of [r] rows and [c] columns. *)
Definition has_shape {A : Type} (m : matrix A) (r c : nat) : Prop :=
  length m = r ∧ Forall (λ row, length row = c) m.

(** Arithmetic on complex scalars is written with the usual symbols. *)
Declare Scope C_scope.
Delimit Scope C_scope with C.
Bind Scope C_scope with C.
Infix "+" := Cadd : C_scope.
Infix "*" := Cmul : C_scope.
Infix "/" := Cdivr : C_scope.
Notation "- z" := (Copp z) : C_scope.
Coercion RtoC : R >-> C.

(** ** The quadrature weights

    Every synthesizer builds its two weight vectors with the same three
    lines, from a step computed just before:
    [[
    h_rho=h/N_rho
    weight_rho=np.zeros(N_rho)+h_rho
    weight_rho[0]=h_rho/2
    weight_rho[-1]=h_rho/2
    ]] *)
Definition trapezoid_vector (h : R) (N : nat) : result (list R) :=
  let weight := (λ z, (z + h)%R) <$> replicate N 0%R in
  weight ← setitem weight 0 (h / 2)%R;
  weight ← setitem weight (-1) (h / 2)%R;
  Ok weight.

(** [weight=weight_rho*np.vstack(weight_phi)] *)
Definition trapezoid_field (weight_rho weight_phi : list R)
  : result (matrix R) :=
  ew2 Rmult [weight_rho] (vstack weight_phi).

(** The weight vector of [N] samples over an interval of length [L]. *)
Definition quadrature_weights (L : R) (N : nat) : result (list R) :=
  h ← py_div L N; trapezoid_vector h N.

(** ** [plot_in_cartesian] *)

(** The body of the double loop, for the sample [x_values[i]], [y_values[j]]:
    [[
            rhop=(x**2+y**2)**0.5
            phip=np.arctan2(y,x)
            if phip<0:
                phip+=2*np.pi
            if rhop<xmax:
                id_rho = (np.abs(rhop_values - rhop)).argmin()
                id_phi = (np.abs(phip_values - phip)).argmin()
                Ex_cartesian[j,i]=Ex[id_phi,id_rho]
                Ey_cartesian[j,i]=Ey[id_phi,id_rho]
    ]] *)
Definition resample_cell (Ex Ey : matrix C) (xmax : R)
    (rhop_values phip_values : list R) (i : nat) (x : R) (j : nat) (y : R)
    (st : matrix C * matrix C) : result (matrix C * matrix C) :=
  let '(Ex_cartesian, Ey_cartesian) := st in
  let rhop := sqrt (x ^ 2 + y ^ 2) in
  let phip := arctan2 y x in
  let phip := if decide (phip < 0)%R then (phip + 2 * PI)%R else phip in
  if decide (rhop < xmax)%R then
    id_rho ← argmin ((λ v, Rabs (v - rhop)) <$> rhop_values);
    id_phi ← argmin ((λ v, Rabs (v - phip)) <$> phip_values);
    ex ← getitem2 Ex (Z.of_nat id_phi) (Z.of_nat id_rho);
    Ex_cartesian ← setitem2 Ex_cartesian (Z.of_nat j) (Z.of_nat i) ex;
    ey ← getitem2 Ey (Z.of_nat id_phi) (Z.of_nat id_rho);
    Ey_cartesian ← setitem2 Ey_cartesian (Z.of_nat j) (Z.of_nat i) ey;
    Ok (Ex_cartesian, Ey_cartesian)
  else Ok (Ex_cartesian, Ey_cartesian).

(** The passage from polar to Cartesian coordinates (source lines 45-68). *)
Definition resample (Ex Ey : matrix C) (xmax alpha focus : R)
  : result (matrix C * matrix C) :=
  let '(resolution_phi, resolution_theta) := shape Ex in
  let x_values := linspace (- xmax) xmax (2 * resolution_theta) in
  let y_values := linspace xmax (- xmax) (2 * resolution_theta) in
  let Ex_cartesian := zeros (2 * resolution_theta) (2 * resolution_theta) in
  let Ey_cartesian := zeros (2 * resolution_theta) (2 * resolution_theta) in
  let theta_values := linspace 0 alpha resolution_theta in
  let rhop_values := (λ t, sin t * focus)%R <$> theta_values in
  let phip_values := linspace 0 (2 * PI) resolution_phi in
  for_each (enumerate x_values) (λ st '(i, x),
    for_each (enumerate y_values) (λ st '(j, y),
      resample_cell Ex Ey xmax rhop_values phip_values i x j y st) st)
    (Ex_cartesian, Ey_cartesian).

(** The whole function: the resampling, the intensity and the two figures.
    Of the drawing only what can raise is kept: the row
    [I_cartesian[resolution_theta,:]] plotted along the axis. *)
Definition plot_in_cartesian (Ex Ey : matrix C) (xmax alpha focus : R)
    (figure_name : string) : py (matrix R * matrix C * matrix C) :=
  '(Ex_cartesian, Ey_cartesian) ← lift (resample Ex Ey xmax alpha focus);
  I_cartesian ← lift (ew2 Rplus (mmap (λ z, Cabs z ^ 2)%R Ex_cartesian)
                                (mmap (λ z, Cabs z ^ 2)%R Ey_cartesian));
  _ ← emit (Plot (figure_name +:+ ": Incident intensity"));
  _ ← lift (getitem I_cartesian (Z.of_nat (shape Ex).2));
  _ ← emit (Plot (figure_name +:+ ": Incident amplitude"));
  mret (I_cartesian, Ex_cartesian, Ey_cartesian).

(** A call of the injected mask function: the call is observable, and its
    outcome is whatever the function does with the arguments it receives (a
    function called with the wrong number of arguments raises). *)
Definition call {A : Type} (f : list pyarg → result A) (args : list pyarg)
  : py A :=
  ([Call args], f args).

(** Two arrays from one [np.meshgrid] combined cell by cell. *)
Definition mzip {A B D : Type} (f : A → B → D) (a : matrix A) (b : matrix B)
  : matrix D :=
  zip_with (zip_with f) a b.

(** ** [generate_incident_field] *)

Definition generate_incident_field (maskfunction : list pyarg → result C)
    (alpha focus : R) (resolution_phi resolution_theta : nat)
    (h psi delta radius I0 wavelength : R) : py (matrix C * matrix C) :=
  let k := (2 * PI / wavelength)%R in
  let gaussian := λ rho : R, exp (- (rho / radius) ^ 2) in
  let ex_lens := zeros resolution_phi resolution_theta in
  let ey_lens := zeros resolution_phi resolution_theta in
  let theta_values := linspace 0 alpha resolution_theta in
  let rhop_values := (λ t, sin t * focus)%R <$> theta_values in
  let phip_values := linspace 0 (2 * PI) resolution_phi in
  '(ex_lens, ey_lens) ←
    for_each_py (enumerate phip_values) (λ st '(i, phip),
      for_each_py (enumerate rhop_values) (λ '(ex_lens, ey_lens) '(j, rhop),
        phase ← call maskfunction
          [AFloat rhop; AFloat phip; AFloat radius; AFloat focus; AFloat k];
        ex_lens ← lift (setitem2 ex_lens (Z.of_nat i) (Z.of_nat j)
                          (gaussian rhop * phase)%C);
        ey_lens ← lift (setitem2 ey_lens (Z.of_nat i) (Z.of_nat j)
                          (gaussian rhop * phase)%C);
        mret (ex_lens, ey_lens)) st) (ex_lens, ey_lens);
  let ex_lens :=
    mmap (λ z, z * RtoC (cos (psi * PI / 180) * sqrt I0))%C ex_lens in
  let ey_lens :=
    mmap (λ z, z * (sin (psi * PI / 180) * Cexp (Ci * delta * PI / 180)
                    * sqrt I0))%C ey_lens in
  mret (ex_lens, ey_lens).

(** ** [custom_mask_objective_field] *)

Definition custom_mask_objective_field (psi delta : R)
    (resolution_theta resolution_phi N_rho N_phi : nat) (alpha : R)
    (mask_function : list pyarg → result (matrix C))
    (h L I0 Lambda radius : R) (fig_name : string)
  : py (matrix C * matrix C * matrix R * matrix C * matrix C) :=
  _ ← emit (Print "Calculating field at the objective:");
  _ ← emit (Sleep 200);
  let focus := (h / sin alpha)%R in
  let rho_values := linspace 0 h N_rho in
  let phi_values := linspace 0 (2 * PI) N_phi in
  let '(rho, phi) := meshgrid rho_values phi_values in
  h_rho ← lift (py_div h N_rho);
  h_phi ← lift (py_div (2 * PI) N_phi);
  weight_rho ← lift (trapezoid_vector h_rho N_rho);
  weight_phi ← lift (trapezoid_vector h_phi N_phi);
  weight ← lift (trapezoid_field weight_rho weight_phi);
  let theta_values := linspace 0 alpha resolution_theta in
  let rhop_values := (λ t, sin t * focus)%R <$> theta_values in
  let phip_values := linspace 0 (2 * PI) resolution_phi in
  let Ex := zeros resolution_phi resolution_theta in
  let kl := (PI / Lambda / L)%R in
  let k := (2 * PI / Lambda)%R in
  let amplitude :=
    mmap (λ r : R, r * Cexp (RtoC (- (r / radius) ^ 2)
                             + Ci * RtoC (k * L + kl * r ^ 2)))%C rho in
  mask ← call mask_function
    [AArray rho; AArray phi; AFloat radius; AFloat focus; AFloat k];
  prefactor ← lift (ew2 Cmul amplitude mask);
  prefactor ← lift (ew2 (λ (z : C) (w : R), z * w)%C prefactor weight);
  Ex ← for_each_tqdm "" (range resolution_phi) (λ Ex j,
    lift (phip ← getitem phip_values (Z.of_nat j);
          for_each (enumerate rhop_values) (λ Ex '(i, rhop),
            let phase :=
              mzip (λ r p : R,
                Cexp (Ci * k * RtoC (rhop ^ 2) / 2 / L)
                * Cexp (- Ci * kl
                        * RtoC (2 * r * rhop * cos (p - phip))))%C rho phi in
            integrand ← ew2 Cmul prefactor phase;
            setitem2 Ex (Z.of_nat j) (Z.of_nat i) (Csum integrand)) Ex)) Ex;
  let Ex := mmap (λ z, z * (- Ci / Lambda / L))%C Ex in
  let Ey := mmap (λ z, z * Cexp (Ci * PI / 180 * delta))%C Ex in
  let Ex := mmap (λ z, z * RtoC (cos (PI / 180 * psi) * sqrt I0))%C Ex in
  let Ey := mmap (λ z, z * RtoC (sin (PI / 180 * psi) * sqrt I0))%C Ey in
  '(I_cartesian, Ex_cartesian, Ey_cartesian) ←
    plot_in_cartesian Ex Ey h alpha focus fig_name;
  mret (Ex, Ey, I_cartesian, Ex_cartesian, Ey_cartesian).

(** ** [test_custom_mask_objective_field]

    The quick run: one twentieth of the angular samples.  Its last call,
    [plot_in_cartesian(Ex,Ey,h,alpha,focus)], leaves out the required
    parameter [figure_name] and raises [TypeError]. *)

Definition test_custom_mask_objective_field (psi delta : R)
    (resolution_theta resolution_phi N_rho N_phi : nat) (alpha : R)
    (mask_function : list pyarg → result (matrix C))
    (h L I0 Lambda radius : R)
  : py (matrix C * matrix C * matrix R * matrix C * matrix C) :=
  _ ← emit (Print "Calculating field at the objective:");
  _ ← emit (Sleep 200);
  let focus := (h / sin alpha)%R in
  let rho_values := linspace 0 h N_rho in
  let phi_values := linspace 0 (2 * PI) N_phi in
  let '(rho, phi) := meshgrid rho_values phi_values in
  h_rho ← lift (py_div h N_rho);
  h_phi ← lift (py_div (2 * PI) N_phi);
  weight_rho ← lift (trapezoid_vector h_rho N_rho);
  weight_phi ← lift (trapezoid_vector h_phi N_phi);
  weight ← lift (trapezoid_field weight_rho weight_phi);
  let resolution_phi := resolution_phi / 20 in
  let theta_values := linspace 0 alpha resolution_theta in
  let rhop_values := (λ t, sin t * focus)%R <$> theta_values in
  let phip_values := linspace 0 (PI / 20) resolution_phi in
  let Ex := zeros resolution_phi resolution_theta in
  let kl := (PI / Lambda / L)%R in
  let k := (2 * PI / Lambda)%R in
  let amplitude := mmap (λ r : R, r * exp (- (r / radius) ^ 2))%R rho in
  mask ← call mask_function [AArray rho; AArray phi];
  prefactor ← lift (ew2 (λ (x : R) (z : C), x * z)%C amplitude mask);
  prefactor ← lift (ew2 (λ (z : C) (w : R), z * w)%C prefactor weight);
  Ex ← for_each_tqdm "" (range resolution_phi) (λ Ex j,
    lift (phip ← getitem phip_values (Z.of_nat j);
          for_each (enumerate rhop_values) (λ Ex '(i, rhop),
            let phase :=
              mzip (λ r p : R,
                Cexp (Ci * k * RtoC (L + rhop ^ 2 / 2 / L))
                * Cexp (Ci * RtoC (kl * (r ^ 2
                                   - 2 * r * rhop * cos (p - phip)))))%C
                rho phi in
            integrand ← ew2 Cmul prefactor phase;
            setitem2 Ex (Z.of_nat j) (Z.of_nat i) (Csum integrand)) Ex)) Ex;
  let Ex := mmap (λ z, z * (- Ci / Lambda / L))%C Ex in
  let Ey := mmap (λ z, z * Cexp (Ci * PI / 180 * delta))%C Ex in
  let Ex := mmap (λ z, z * RtoC (cos (PI / 180 * psi) * sqrt I0))%C Ex in
  let Ey := mmap (λ z, z * RtoC (sin (PI / 180 * psi) * sqrt I0))%C Ey in
  '(I_cartesian, Ex_cartesian, Ey_cartesian) ←
    lift (A:=matrix R * matrix C * matrix C) (Raise TypeError);
  mret (Ex, Ey, I_cartesian, Ex_cartesian, Ey_cartesian).

(** ** The focal-region synthesizers *)

Definition mzip3 {A B D E : Type} (f : A → B → D → E)
    (a : matrix A) (b : matrix B) (d : matrix D) : matrix E :=
  mzip (λ (xy : A * B) z, f xy.1 xy.2 z) (mzip pair a b) d.

(** [prefactor*lens*weight_trapezoid], the product of a real array built
    from the angular grids, an incident field and the weight field. *)
Definition couple (prefactor : matrix R) (lens : matrix C) (weight : matrix R)
  : result (matrix C) :=
  a ← ew2 (λ (x : R) (z : C), x * z)%C prefactor lens;
  ew2 (λ (z : C) (w : R), z * w)%C a weight.

(** [np.sum(A*phase)] *)
Definition integrate (A phase : matrix C) : result C :=
  integrand ← ew2 Cmul A phase; Ok (Csum integrand).

(** The six coupling arrays [Axx, Axy, Axz, Ayx, Ayy, Ayz], written with the
    same lines in both synthesizers (source lines 322-340 and 450-468). *)
Definition coupling_arrays (ex_lens ey_lens : matrix C)
    (weight_trapezoid theta phi : matrix R)
  : result (matrix C * matrix C * matrix C * matrix C * matrix C * matrix C) :=
  let cos_theta := mmap cos theta in
  let cos_theta_sqrt := mmap sqrt cos_theta in
  let sin_theta := mmap sin theta in
  let cos_phi := mmap cos phi in
  let sin_phi := mmap sin phi in
  let sin_phi_square := mmap (λ s, s ^ 2)%R sin_phi in
  let prefactor_general := mzip Rmult cos_theta_sqrt sin_theta in
  let prefactor_x :=
    mzip3 (λ g c s2, g * (c + (1 - c) * s2))%R
      prefactor_general cos_theta sin_phi_square in
  let prefactor_y :=
    mzip (λ gc s, gc * s)%R
      (mzip3 (λ g c cp, g * (1 - c) * cp)%R prefactor_general cos_theta cos_phi)
      sin_phi in
  let prefactor_z :=
    mzip3 (λ g s c, g * s * c)%R prefactor_general sin_theta cos_phi in
  Axx ← couple prefactor_x ex_lens weight_trapezoid;
  Axy ← couple prefactor_y ex_lens weight_trapezoid;
  Axz ← couple prefactor_z ex_lens weight_trapezoid;
  Ayx ← couple prefactor_y ey_lens weight_trapezoid;
  Ayy ← couple (mmap Ropp prefactor_x) ey_lens weight_trapezoid;
  Ayz ← couple prefactor_z ey_lens weight_trapezoid;
  Ok (Axx, Axy, Axz, Ayx, Ayy, Ayz).

(** The three sums at one output point, from its polar coordinates and the
    axial wavenumber: the last six lines of every loop body of the two
    synthesizers.
    [[
    sin_theta_kr=sin_theta*kr
    phase_inc_x=np.exp(1j*(sin_theta_kr*np.cos(phi - phip) + cos_theta_kz))
    phase_inc_y=np.exp(1j*(-sin_theta_kr*np.sin(phi - phip) + cos_theta_kz))
    ex[j,i]=np.sum(Axx*phase_inc_x)+np.sum(Ayx*phase_inc_y)
    ey[j,i]=np.sum(Axy*phase_inc_x)+np.sum(Ayy*phase_inc_y)
    ez[j,i]=np.sum(Axz*phase_inc_x)+np.sum(Ayz*phase_inc_y)
    ]] *)
Definition point_field
    (A : matrix C * matrix C * matrix C * matrix C * matrix C * matrix C)
    (theta phi : matrix R) (kr phip kz : R) (i j : nat)
    (st : matrix C * matrix C * matrix C)
  : result (matrix C * matrix C * matrix C) :=
  let '(Axx, Axy, Axz, Ayx, Ayy, Ayz) := A in
  let '(ex, ey, ez) := st in
  let sin_theta_kr := mmap (λ t, sin t * kr)%R theta in
  let cos_theta_kz := mmap (λ t, cos t * kz)%R theta in
  let phase_inc_x :=
    mzip3 (λ s p c : R, Cexp (Ci * RtoC (s * cos (p - phip) + c)))%C
      sin_theta_kr phi cos_theta_kz in
  let phase_inc_y :=
    mzip3 (λ s p c : R, Cexp (Ci * RtoC (- s * sin (p - phip) + c)))%C
      sin_theta_kr phi cos_theta_kz in
  xx ← integrate Axx phase_inc_x; yx ← integrate Ayx phase_inc_y;
  ex ← setitem2 ex (Z.of_nat j) (Z.of_nat i) (xx + yx)%C;
  xy ← integrate Axy phase_inc_x; yy ← integrate Ayy phase_inc_y;
  ey ← setitem2 ey (Z.of_nat j) (Z.of_nat i) (xy + yy)%C;
  xz ← integrate Axz phase_inc_x; yz ← integrate Ayz phase_inc_y;
  ez ← setitem2 ez (Z.of_nat j) (Z.of_nat i) (xz + yz)%C;
  Ok (ex, ey, ez).

(** *** [custom_mask_focus_field] *)

Definition custom_mask_focus_field (ex_lens ey_lens : matrix C)
    (alpha h Lambda zp0 : R)
    (resolution_focus resolution_theta resolution_phi : nat) (FOV_focus : R)
    (countdown : bool) (x0 y0 : R) : py (matrix C * matrix C * matrix C) :=
  _ ← (if countdown then
         _ ← emit (Print "Calculating field at the focal plane:");
         emit (Sleep 500)
       else mret ());
  let Lambda := (Lambda * 10 ^ 6)%R in
  let focus := (h / sin alpha * 10 ^ 6)%R in
  ex_lens ← lift (rotate_180 ex_lens);
  ey_lens ← lift (rotate_270 ey_lens);
  h_theta ← lift (py_div alpha resolution_theta);
  h_phi ← lift (py_div (2 * PI) resolution_phi);
  weight_trapezoid_rho ← lift (trapezoid_vector h_theta resolution_theta);
  weight_trapezoid_phi ← lift (trapezoid_vector h_phi resolution_phi);
  weight_trapezoid ←
    lift (trapezoid_field weight_trapezoid_rho weight_trapezoid_phi);
  let xmax := (FOV_focus / 2)%R in
  let x_values := linspace (- xmax + x0) (xmax + x0) resolution_focus in
  let y_values := linspace (xmax + y0) (- xmax + y0) resolution_focus in
  let ex := zeros resolution_focus resolution_focus in
  let ey := ex in
  let ez := ex in
  let theta_values := linspace 0 alpha resolution_theta in
  let phi_values := linspace 0 (2 * PI) resolution_phi in
  let '(theta, phi) := meshgrid theta_values phi_values in
  let kz := (zp0 * 2 * PI / Lambda)%R in
  A ← lift (coupling_arrays ex_lens ey_lens weight_trapezoid theta phi);
  '(ex, ey, ez) ←
    (if countdown then
       for_each_tqdm "XY plane" (range resolution_focus) (λ st i,
         lift (x ← getitem x_values (Z.of_nat i);
               for_each (enumerate y_values) (λ st '(j, y),
                 let rhop := sqrt (x ^ 2 + y ^ 2) in
                 let phip := arctan2 y x in
                 let kr := (rhop * 2 * PI / Lambda)%R in
                 point_field A theta phi kr phip kz i j st) st)) (ex, ey, ez)
     else
       lift (for_each (enumerate x_values) (λ st '(i, x),
               for_each (enumerate y_values) (λ st '(j, y),
                 let rhop := sqrt (x ^ 2 + y ^ 2) in
                 let phip := arctan2 y x in
                 let kr := (rhop * 2 * PI / Lambda)%R in
                 point_field A theta phi kr phip kz i j st) st) (ex, ey, ez)));
  let ex := mmap (λ z, z * (- Ci * focus / Lambda))%C ex in
  let ey := mmap (λ z, z * (Ci * focus / Lambda))%C ey in
  let ez := mmap (λ z, z * (Ci * focus / Lambda))%C ez in
  mret (ex, ey, ez).

(** *** [custom_mask_focus_field_XZ_XY] *)

(** [[
    if int(resolution_z%2)==0:
        resolution_z+=1    #make the middle coordinate on Z be Z=0
    ]] *)
Definition axial_count (resolution_z : nat) : nat :=
  if decide (resolution_z mod 2 = 0) then resolution_z + 1 else resolution_z.

(** [z_values=np.linspace(z_FOV/2,-z_FOV/2,resolution_z)] *)
Definition axial_grid (z_FOV : R) (resolution_z : nat) : list R :=
  linspace (z_FOV / 2) (- z_FOV / 2) (axial_count resolution_z).

Definition plot_plane_message : string :=
  "Options for plot_plane are 'X' and 'Y' ".

Definition custom_mask_focus_field_XZ_XY (ex_lens ey_lens : matrix C)
    (alpha h Lambda z_FOV : R) (resolution_z : nat) (zp0 : R)
    (resolution_focus resolution_theta resolution_phi : nat) (FOV_focus : R)
    (x0 y0 : R) (plot_plane : string)
  : py (matrix C * matrix C * matrix C * matrix C * matrix C * matrix C) :=
  '(Ex_XY, Ey_XY, Ez_XY) ←
    custom_mask_focus_field ex_lens ey_lens alpha h Lambda zp0
      resolution_focus resolution_theta resolution_phi FOV_focus true x0 y0;
  let z_values := axial_grid z_FOV resolution_z in
  let resolution_z := axial_count resolution_z in
  let Lambda := (Lambda * 10 ^ 6)%R in
  let focus := (h / sin alpha * 10 ^ 6)%R in
  ex_lens ← lift (rotate_180 ex_lens);
  ey_lens ← lift (rotate_270 ey_lens);
  h_theta ← lift (py_div alpha resolution_theta);
  h_phi ← lift (py_div (2 * PI) resolution_phi);
  weight_trapezoid_rho ← lift (trapezoid_vector h_theta resolution_theta);
  weight_trapezoid_phi ← lift (trapezoid_vector h_phi resolution_phi);
  weight_trapezoid ←
    lift (trapezoid_field weight_trapezoid_rho weight_trapezoid_phi);
  let xmax := (FOV_focus * sqrt 2 / 2)%R in
  let x_values := linspace (- xmax + x0) (xmax + x0) resolution_focus in
  let Ex_XZ := zeros resolution_z resolution_focus in
  let Ey_XZ := Ex_XZ in
  let Ez_XZ := Ex_XZ in
  let theta_values := linspace 0 alpha resolution_theta in
  let phi_values := linspace 0 (2 * PI) resolution_phi in
  let '(theta, phi) := meshgrid theta_values phi_values in
  A ← lift (coupling_arrays ex_lens ey_lens weight_trapezoid theta phi);
  '(Ex_XZ, Ey_XZ, Ez_XZ) ←
    (if decide (plot_plane = "X") then
       for_each_tqdm "XZ plane" (range resolution_z) (λ st j,
         lift (zp0 ← getitem z_values (Z.of_nat j);
               for_each (enumerate x_values) (λ st '(i, x),
                 let rhop := Rabs x in
                 let phip := arctan2 0 x in
                 let kr := (rhop * 2 * PI / Lambda)%R in
                 let kz := (zp0 * 2 * PI / Lambda)%R in
                 point_field A theta phi kr phip kz i j st) st))
         (Ex_XZ, Ey_XZ, Ez_XZ)
     else if decide (plot_plane = "Y") then
       for_each_tqdm "YZ plane" (range resolution_z) (λ st j,
         lift (zp0 ← getitem z_values (Z.of_nat j);
               for_each (enumerate x_values) (λ st '(i, y),
                 let rhop := Rabs y in
                 let phip := arctan2 y 0 in
                 let kr := (rhop * 2 * PI / Lambda)%R in
                 let kz := (zp0 * 2 * PI / Lambda)%R in
                 point_field A theta phi kr phip kz i j st) st))
         (Ex_XZ, Ey_XZ, Ez_XZ)
     else
       _ ← emit (Print plot_plane_message);
       mret (Ex_XZ, Ey_XZ, Ez_XZ));
  let Ex_XZ := mmap (λ z, z * (- Ci * focus / Lambda))%C Ex_XZ in
  let Ey_XZ := mmap (λ z, z * (Ci * focus / Lambda))%C Ey_XZ in
  let Ez_XZ := mmap (λ z, z * (Ci * focus / Lambda))%C Ez_XZ in
  mret (Ex_XZ, Ey_XZ, Ez_XZ, Ex_XY, Ey_XY, Ez_XY).

(** ** Notions used by the statements *)

(** What the quadrature contract says of a weight vector [w] of [N] samples
    over an interval of length [L]: the step [L/N] inside, half of it at
    both ends. *)
Definition trapezoid_contract (L : R) (N : nat) (w : list R) : Prop :=
  length w = N
  ∧ w !! 0 = Some (L / INR N / 2)%R
  ∧ w !! (N - 1) = Some (L / INR N / 2)%R
  ∧ ∀ i, 0 < i < N - 1 → w !! i = Some (L / INR N)%R.

(** The outer product of two vectors, one row per element of [v]. *)
Definition outer_product (u v : list R) : matrix R :=
  (λ y, (λ x, x * y)%R <$> u) <$> v.

(** The cell [m[j, i]], if there is one. *)
Definition cell {A : Type} (m : matrix A) (j i : nat) : option A :=
  m !! j ≫= (.!! i).

(** [k] is a position of [grid] at the least distance from [v]: no sample
    of the grid has a smaller absolute difference to [v].  (Between samples
    at exactly the same distance [np.argmin] takes the first of the least
    computed differences, which rounding decides; the notion leaves it
    open.) *)
Definition nearest_index (grid : list R) (v : R) (k : nat) : Prop :=
  ∃ g, grid !! k = Some g
    ∧ ∀ k' g', grid !! k' = Some g' → (Rabs (g - v) <= Rabs (g' - v))%R.

(** [vx] and [vy] are the values the resampler gives to the Cartesian cell
    of the point [(x, y)] in its two arrays: inside the disc of radius
    [xmax] the polar samples of [Ex] and of [Ey] at one pair of indices,
    each at the least distance on its own axis; outside of it zero. *)
Definition polar_sample (Ex Ey : matrix C) (rhop_values phip_values : list R)
    (xmax x y : R) (vx vy : C) : Prop :=
  let rhop := sqrt (x ^ 2 + y ^ 2) in
  let phip := arctan2 y x in
  let phip := if decide (phip < 0)%R then (phip + 2 * PI)%R else phip in
  if decide (rhop < xmax)%R then
    ∃ id_rho id_phi,
      nearest_index rhop_values rhop id_rho
      ∧ nearest_index phip_values phip id_phi
      ∧ cell Ex id_phi id_rho = Some vx
      ∧ cell Ey id_phi id_rho = Some vy
  else vx = C0 ∧ vy = C0.

(** The state of the double loop of the resampler when it reaches the
    sample [(i, j)]: the cells of the samples already visited hold their
    polar sample, the others are still zero. *)
Definition resample_inv (Ex Ey : matrix C)
    (rhop_values phip_values x_values y_values : list R) (xmax : R)
    (i j : nat) (st : matrix C * matrix C) : Prop :=
  has_shape st.1 (length y_values) (length x_values)
  ∧ has_shape st.2 (length y_values) (length x_values)
  ∧ ∀ i' j' x' y',
      x_values !! i' = Some x' → y_values !! j' = Some y' →
      if decide (i' < i ∨ (i' = i ∧ j' < j)) then
        ∃ vx vy,
          cell st.1 j' i' = Some vx ∧ cell st.2 j' i' = Some vy
          ∧ polar_sample Ex Ey rhop_values phip_values xmax x' y' vx vy
      else cell st.1 j' i' = Some C0 ∧ cell st.2 j' i' = Some C0.

(** The argument lists of the calls of the mask function, in order. *)
Definition mask_calls (log : list event) : list (list pyarg) :=
  omap (λ e, match e with Call args => Some args | _ => None end) log.

(** A mask function declared with four positional parameters: called with
    any other number of arguments it raises [TypeError]. *)
Definition four_argument_mask (args : list pyarg) : result (matrix C) :=
  match args with
  | [_; _; _; _] => Ok [[RtoC 1]]
  | _ => Raise TypeError
  end.

(** The six coupling arrays have [r] rows and [c] columns. *)
Definition coupling_shape
    (A : matrix C * matrix C * matrix C * matrix C * matrix C * matrix C)
    (r c : nat) : Prop :=
  let '(Axx, Axy, Axz, Ayx, Ayy, Ayz) := A in
  has_shape Axx r c ∧ has_shape Axy r c ∧ has_shape Axz r c
  ∧ has_shape Ayx r c ∧ has_shape Ayy r c ∧ has_shape Ayz r c.

(** The three output arrays have [r] rows and [c] columns. *)
Definition field_shape (st : matrix C * matrix C * matrix C) (r c : nat)
  : Prop :=
  let '(ex, ey, ez) := st in
  has_shape ex r c ∧ has_shape ey r c ∧ has_shape ez r c.

(** The row of the input that a rotation by [off] of [a] rows leaves at row
    [j] of the output. *)
Definition source_row (a off j : nat) : nat :=
  if decide (j + off < a) then j + off else j + off - a.


(** [v] holds the three sums that one pass of the loops of the synthesizers
    computes at the output point of radial wavenumber [kr], angle [phip] and
    axial wavenumber [kz]: what [point_field] leaves in arrays of one
    cell. *)
Definition point_sums
    (A : matrix C * matrix C * matrix C * matrix C * matrix C * matrix C)
    (theta phi : matrix R) (kr phip kz : R) (v : C * C * C) : Prop :=
  point_field A theta phi kr phip kz 0 0 (zeros 1 1, zeros 1 1, zeros 1 1)
  = Ok ([[v.1.1]], [[v.1.2]], [[v.2]]).

(** The state of a double loop of the synthesizers when it reaches the pass
    of outer index [a] and inner index [b]: the three arrays keep their
    shape, and the cells written by the passes already made hold the values
    that [val] relates to the coordinates of the pass.  [place a b] is the
    cell, row first, that the pass [(a, b)] writes. *)
Definition field_inv (val : R → R → C * C * C → Prop)
    (place : nat → nat → nat * nat) (outer inner : list R) (rows cols : nat)
    (a b : nat) (st : matrix C * matrix C * matrix C) : Prop :=
  field_shape st rows cols
  ∧ ∀ a' b' x y,
      outer !! a' = Some x → inner !! b' = Some y →
      a' < a ∨ (a' = a ∧ b' < b) →
      ∃ v, val x y v
        ∧ cell st.1.1 (place a' b').1 (place a' b').2 = Some v.1.1
        ∧ cell st.1.2 (place a' b').1 (place a' b').2 = Some v.1.2
        ∧ cell st.2 (place a' b').1 (place a' b').2 = Some v.2.

(** The array of [r] rows and [c] columns whose cell [(i, j)] is [f i j]. *)
Definition tabulate {A : Type} (r c : nat) (f : nat → nat → A) : matrix A :=
  (λ i, f i <$> seq 0 c) <$> seq 0 r.

(** The element [l[i]] of a vector of reals and the cell [m[r, c]] of a
    complex array, zero out of range. *)
Definition sample (l : list R) (i : nat) : R := default 0%R (l !! i).
Definition entry (m : matrix C) (r c : nat) : C := default C0 (cell m r c).

(** The angular prefactors of the three field components at the polar angle
    [theta] and the azimuth [phi]: [prefactor_x], [prefactor_y] and
    [prefactor_z] of the source (lines 329-332). *)
Definition kernel_x (theta phi : R) : R :=
  (sqrt (cos theta) * sin theta
   * (cos theta + (1 - cos theta) * sin phi ^ 2))%R.
Definition kernel_y (theta phi : R) : R :=
  (sqrt (cos theta) * sin theta * (1 - cos theta) * cos phi * sin phi)%R.
Definition kernel_z (theta phi : R) : R :=
  (sqrt (cos theta) * sin theta * sin theta * cos phi)%R.

(** The phases of the X and of the Y incident component at the output point
    of radial wavenumber [kr], angle [phip] and axial wavenumber [kz]:
    [phase_inc_x] and [phase_inc_y] of the source (lines 352-353). *)
Definition phase_x (kr phip kz theta phi : R) : C :=
  Cexp (Ci * RtoC (sin theta * kr * cos (phi - phip) + cos theta * kz)).
Definition phase_y (kr phip kz theta phi : R) : C :=
  Cexp (Ci * RtoC (- (sin theta * kr) * sin (phi - phip) + cos theta * kz)).

(** [np.sum(prefactor*lens*weight_trapezoid*phase)] written out over the
    angular grid: one term for each azimuthal sample [r] and each polar
    sample [c], the weight of the term being the product of the two
    trapezoid weights. *)
Definition debye_sum (thetas phis w_theta w_phi : list R)
    (kernel : R → R → R) (lens : nat → nat → C) (phase : R → R → C) : C :=
  Csum (tabulate (length phis) (length thetas) (λ r c,
    (RtoC (kernel (sample thetas c) (sample phis r)) * lens r c
     * RtoC (sample w_theta c * sample w_phi r)
     * phase (sample thetas c) (sample phis r))%C)).

(** The three sums that the loops of the synthesizers leave at an output
    point (source lines 354-356): each adds the sum over the grid for the X
    incident component [ex], with its phase, and the sum for the Y incident
    component [ey], with the other phase. *)
Definition focal_sum_x (thetas phis w_theta w_phi : list R)
    (ex ey : nat → nat → C) (kr phip kz : R) : C :=
  (debye_sum thetas phis w_theta w_phi kernel_x ex (phase_x kr phip kz)
   + debye_sum thetas phis w_theta w_phi kernel_y ey (phase_y kr phip kz))%C.
Definition focal_sum_y (thetas phis w_theta w_phi : list R)
    (ex ey : nat → nat → C) (kr phip kz : R) : C :=
  (debye_sum thetas phis w_theta w_phi kernel_y ex (phase_x kr phip kz)
   + debye_sum thetas phis w_theta w_phi
       (λ theta phi, - kernel_x theta phi)%R ey (phase_y kr phip kz))%C.
Definition focal_sum_z (thetas phis w_theta w_phi : list R)
    (ex ey : nat → nat → C) (kr phip kz : R) : C :=
  (debye_sum thetas phis w_theta w_phi kernel_z ex (phase_x kr phip kz)
   + debye_sum thetas phis w_theta w_phi kernel_z ey (phase_y kr phip kz))%C.

(** * Properties *)

(** ** The runtime *)

Lemma py_index_nonneg (n : nat) (i : nat) :
  i < n → py_index n (Z.of_nat i) = Ok i.
Proof.
  intros Hi. unfold py_index.
  rewrite decide_True by lia. by rewrite Nat2Z.id.
Qed.

Lemma getitem_lookup {A : Type} (l : list A) (i : nat) (x : A) :
  l !! i = Some x → getitem l (Z.of_nat i) = Ok x.
Proof.
  intros Hx. unfold getitem.
  rewrite py_index_nonneg by eauto using lookup_lt_Some.
  simpl. by rewrite Hx.
Qed.

Lemma bind_Ok {A B : Type} (a : A) (f : A → result B) : Ok a ≫= f = f a.
Proof. done. Qed.

Lemma bind_Raise {A B : Type} (e : exn) (f : A → result B) :
  Raise e ≫= f = Raise e.
Proof. done. Qed.

Lemma setitem_nat {A : Type} (l : list A) (i : nat) (x : A) :
  i < length l → setitem l (Z.of_nat i) x = Ok (<[i:=x]> l).
Proof. intros Hi. unfold setitem. by rewrite py_index_nonneg. Qed.

Lemma setitem_last {A : Type} (l : list A) (x : A) :
  0 < length l → setitem l (-1) x = Ok (<[length l - 1:=x]> l).
Proof.
  intros Hl. unfold setitem, py_index.
  rewrite decide_False, decide_True by lia. simpl. do 2 f_equal. lia.
Qed.

(** A subscript [i - off] with [off ≤ n] and [i < n] always lands inside the
    sequence: below [off] it wraps around to the end. *)
Lemma py_index_shift (n off i : nat) :
  off ≤ n → i < n →
  py_index n (Z.of_nat i - Z.of_nat off) =
    Ok (if decide (i < off) then n + i - off else i - off).
Proof.
  intros Hoff Hi. unfold py_index.
  destruct (decide (i < off)) as [Hlt|Hge].
  - rewrite decide_False by lia. rewrite decide_True by lia. f_equal. lia.
  - rewrite decide_True by lia. f_equal. lia.
Qed.

(** ** The rotators are cyclic row rotations *)

Section rotation.
Implicit Types (m aux : matrix C) (off i j : nat).

Lemma source_row_rotate_nat_add a off j :
  off ≤ a → j < a → rotate_nat_add off j a = source_row a off j.
Proof.
  intros Hoff Hj. unfold rotate_nat_add, source_row.
  destruct (decide (j + off < a)) as [Hlt|Hge].
  - rewrite Z.mod_small by lia. lia.
  - replace (Z.of_nat off + Z.of_nat j)%Z
      with ((Z.of_nat off + Z.of_nat j - Z.of_nat a) + 1 * Z.of_nat a)%Z by lia.
    rewrite Z_mod_plus_full, Z.mod_small by lia. lia.
Qed.

(** The loop shared by the two rotators, started at iteration [n]. *)
Lemma scatter_loop m off :
  off ≤ length m →
  ∀ k n aux,
    n + k = length m → length aux = length m →
    ∃ aux',
      for_each (seq n k) (λ aux i,
        row ← getitem m (Z.of_nat i);
        setitem aux (Z.of_nat i - Z.of_nat off) row) aux = Ok aux'
      ∧ length aux' = length m
      ∧ ∀ j, j < length m →
          aux' !! j = if decide (n ≤ source_row (length m) off j)
                      then m !! source_row (length m) off j
                      else aux !! j.
Proof.
  intros Hoff. induction k as [|k IH]; intros n aux Hn Hlen.
  - exists aux. split_and!; [done..|]. intros j Hj.
    rewrite decide_False; [done|]. unfold source_row. case_decide; lia.
  - assert (n < length m) as Hlt by lia.
    destruct (lookup_lt_is_Some_2 m n Hlt) as [row Hrow].
    simpl. rewrite (getitem_lookup _ _ _ Hrow). simpl.
    unfold setitem. rewrite Hlen, py_index_shift by done. simpl.
    set (t := if decide (n < off) then length m + n - off else n - off).
    destruct (IH (S n) (<[t:=row]> aux)) as (aux' & Hrun & Hlen' & Hget);
      [lia|by rewrite length_insert|].
    exists aux'. split_and!; [done..|]. intros j Hj.
    rewrite (Hget j Hj). unfold source_row in *.
    destruct (decide (j = t)) as [->|Hne].
    + rewrite list_lookup_insert_eq by (subst t; case_decide; lia).
      subst t. repeat case_decide; try lia.
      all: rewrite <- Hrow; f_equal; lia.
    + rewrite list_lookup_insert_ne by done.
      subst t. repeat case_decide; try lia; done.
Qed.

Lemma scatter_rotate m off :
  off ≤ length m →
  for_each (range (length m)) (λ aux i,
    row ← getitem m (Z.of_nat i);
    setitem aux (Z.of_nat i - Z.of_nat off) row)
    (zeros (length m) (length (default [] (head m))))
  = Ok (rotate off m).
Proof.
  intros Hoff. unfold range.
  destruct (scatter_loop m off Hoff (length m) 0
              (zeros (length m) (length (default [] (head m)))))
    as (aux' & -> & Hlen & Hget); [done|apply length_replicate|].
  f_equal. apply list_eq_same_length with (length m);
    [by rewrite length_rotate|done|].
  intros j x y Hj Hx Hy.
  rewrite (Hget j Hj), decide_True in Hx by lia.
  rewrite lookup_rotate_r, source_row_rotate_nat_add in Hy by done.
  congruence.
Qed.

Lemma rotate_180_rotate m : rotate_180 m = Ok (rotate (length m / 2) m).
Proof.
  unfold rotate_180, shape. apply scatter_rotate.
  apply Nat.Div0.div_le_upper_bound. lia.
Qed.

Lemma rotate_270_rotate m : rotate_270 m = Ok (rotate (3 * length m / 4) m).
Proof.
  unfold rotate_270, shape. apply scatter_rotate.
  apply Nat.Div0.div_le_upper_bound. lia.
Qed.
End rotation.

Section rotation_algebra.
Context {A : Type}.
Implicit Types (l : list A) (n k : nat).

Lemma rotate_rotate l n k : rotate n (rotate k l) = rotate (n + k) l.
Proof.
  apply list_eq_same_length with (length l);
    [by rewrite length_rotate|by rewrite !length_rotate|].
  intros i x y Hi Hx Hy.
  rewrite lookup_rotate_r in Hx by (by rewrite length_rotate).
  rewrite length_rotate, lookup_rotate_r in Hx
    by (apply rotate_nat_add_lt; lia).
  rewrite lookup_rotate_r in Hy by done.
  assert (rotate_nat_add k (rotate_nat_add n i (length l)) (length l)
          = rotate_nat_add (n + k) i (length l)) as Heq.
  { unfold rotate_nat_add. rewrite Z2Nat.id by (apply Z.mod_pos; lia).
    rewrite Zplus_mod_idemp_r. do 2 f_equal. lia. }
  congruence.
Qed.

Lemma rotate_full l : rotate (length l) l = l.
Proof.
  unfold rotate. rewrite Nat.Div0.mod_same. simpl.
  by rewrite drop_0, app_nil_r.
Qed.
End rotation_algebra.

(** C7. Applying the 180° rotation twice returns the original matrix when the
    number of rows is even; when it is odd the two half-turns of
    [int(a/2)] rows add up to [a - 1] rows, and the result is the original
    matrix rotated by the one remaining row. *)
Theorem rotate_180_twice (m : matrix C) :
  rotate_180 m ≫= rotate_180 =
    Ok (if Nat.even (length m) then m else rotate (length m - 1) m).
Proof.
  rewrite rotate_180_rotate, bind_Ok.
  rewrite rotate_180_rotate, length_rotate, rotate_rotate. f_equal.
  destruct (Nat.even (length m)) eqn:Hpar.
  - apply Nat.even_spec in Hpar as [k Hk].
    replace (length m / 2 + length m / 2) with (length m);
      [apply rotate_full|].
    rewrite Hk, (Nat.mul_comm 2 k), Nat.div_mul by done. lia.
  - f_equal. apply (f_equal negb) in Hpar. rewrite Nat.negb_even in Hpar.
    apply Nat.odd_spec in Hpar as [k Hk]. rewrite Hk.
    replace (2 * k + 1) with (1 + k * 2) by lia.
    rewrite Nat.div_add by done.
    change (1 `div` 2) with 0. lia.
Qed.

Lemma has_shape_rotate {A : Type} (m : matrix A) (r c n : nat) :
  has_shape m r c → has_shape (rotate n m) r c.
Proof.
  intros [Hr Hc]. split; [by rewrite length_rotate|].
  apply Forall_forall. intros row Hrow.
  apply elem_of_rotate in Hrow. by eapply Forall_forall in Hc.
Qed.

Lemma rotate_lookup_back {A : Type} (l : list A) (n i : nat) :
  i < length l →
  rotate n l !! Z.to_nat ((Z.of_nat i - Z.of_nat n) `mod` Z.of_nat (length l))
  = l !! i.
Proof.
  intros Hi. rewrite <- (lookup_rotate_l l n i Hi). f_equal.
  unfold rotate_nat_sub. f_equal.
  replace (Z.of_nat (length l) + Z.of_nat i - Z.of_nat n)%Z
    with (Z.of_nat i - Z.of_nat n + 1 * Z.of_nat (length l))%Z by lia.
  by rewrite Z_mod_plus_full.
Qed.

(** C1, as the code has it.  Both rotators return a matrix of the shape of
    their input, and the row [i] of the input is the row
    [(i - offset) mod a] of the output, where [offset] is [int(a/2)] for the
    180° rotation and [int(3*a/4)] for the 270° rotation: the input row is
    the one written at the shifted position. *)
Theorem rotators_shift_rows (m : matrix C) (a b i : nat) :
  has_shape m a b → i < a →
  ∃ r180 r270,
    rotate_180 m = Ok r180 ∧ rotate_270 m = Ok r270
    ∧ has_shape r180 a b ∧ has_shape r270 a b
    ∧ r180 !! Z.to_nat ((Z.of_nat i - Z.of_nat (a / 2)) `mod` Z.of_nat a)
      = m !! i
    ∧ r270 !! Z.to_nat ((Z.of_nat i - Z.of_nat (3 * a / 4)) `mod` Z.of_nat a)
      = m !! i.
Proof.
  intros Hm Hi. pose proof Hm as [Ha _]. subst a.
  exists (rotate (length m / 2) m), (rotate (3 * length m / 4) m).
  split_and!; auto using rotate_180_rotate, rotate_270_rotate,
    has_shape_rotate, rotate_lookup_back.
Qed.

Lemma rotators_shift_rows_witness :
  ∃ r180 r270,
    rotate_180 [[RtoC 1]; [RtoC 2]; [RtoC 3]; [RtoC 4]] = Ok r180
    ∧ rotate_270 [[RtoC 1]; [RtoC 2]; [RtoC 3]; [RtoC 4]] = Ok r270
    ∧ has_shape r180 4 1 ∧ has_shape r270 4 1
    ∧ r180 !! 2 = Some [RtoC 1]
    ∧ r270 !! 1 = Some [RtoC 1].
Proof.
  apply (rotators_shift_rows [[RtoC 1]; [RtoC 2]; [RtoC 3]; [RtoC 4]] 4 1 0).
  - split; [reflexivity|]. repeat constructor.
  - lia.
Defined.

(** C1, as the claim words it, fails for the 270° rotation of four rows:
    the claim puts input row [(0 - 3) mod 4 = 1] at output row 0, the code
    puts input row 3 there. *)
Lemma rotate_270_counterexample :
  rotate_270 [[RtoC 1]; [RtoC 2]; [RtoC 3]; [RtoC 4]]
  = Ok [[RtoC 4]; [RtoC 1]; [RtoC 2]; [RtoC 3]]
  ∧ ¬ (∀ i, i < 4 →
         [[RtoC 4]; [RtoC 1]; [RtoC 2]; [RtoC 3]] !! i
         = [[RtoC 1]; [RtoC 2]; [RtoC 3]; [RtoC 4]]
             !! Z.to_nat ((Z.of_nat i - Z.of_nat (3 * 4 / 4)) `mod` 4)).
Proof.
  split.
  - by rewrite rotate_270_rotate.
  - intros H. specialize (H 0 ltac:(lia)). simpl in H.
    injection H as H. lra.
Qed.

(** ** The quadrature weights *)

Lemma Rsum_app (l k : list R) : Rsum (l ++ k) = (Rsum l + Rsum k)%R.
Proof.
  induction l as [|x l IH]; simpl; [lra|].
  unfold Rsum in *. simpl. rewrite IH. lra.
Qed.

Lemma Rsum_replicate (n : nat) (x : R) : Rsum (replicate n x) = (INR n * x)%R.
Proof.
  induction n as [|n IH]; [simpl; unfold Rsum; simpl; lra|].
  rewrite S_INR. unfold Rsum in *. simpl. rewrite IH. lra.
Qed.

(** With at least two samples the three lines build the vector
    [h/2, h, ..., h, h/2]. *)
Lemma trapezoid_vector_list (h : R) (n : nat) :
  trapezoid_vector h (S (S n)) = Ok ((h / 2)%R :: replicate n h ++ [(h / 2)%R]).
Proof.
  unfold trapezoid_vector. rewrite fmap_replicate, Rplus_0_l.
  rewrite (setitem_nat _ 0) by (rewrite length_replicate; lia).
  rewrite bind_Ok, setitem_last by (rewrite length_insert, length_replicate; lia).
  rewrite bind_Ok, length_insert, length_replicate. do 2 f_equal. simpl.
  f_equal. change (h :: replicate n h) with (replicate (S n) h).
  rewrite replicate_S_end.
  rewrite insert_app_r_alt by (rewrite length_replicate; lia).
  by rewrite length_replicate, Nat.sub_diag.
Qed.

(** With one sample both assignments hit the same cell. *)
Lemma trapezoid_vector_one (h : R) : trapezoid_vector h 1 = Ok [(h / 2)%R].
Proof. done. Qed.

(** Without any sample the first assignment is out of range. *)
Lemma trapezoid_vector_none (h : R) : trapezoid_vector h 0 = Raise IndexError.
Proof. done. Qed.

Lemma quadrature_weights_list (L : R) (n : nat) :
  quadrature_weights L (S (S n)) =
    Ok ((L / INR (S (S n)) / 2)%R
        :: replicate n (L / INR (S (S n)))%R ++ [(L / INR (S (S n)) / 2)%R]).
Proof.
  unfold quadrature_weights, py_div. rewrite decide_False by lia.
  rewrite bind_Ok. apply trapezoid_vector_list.
Qed.

(** ** Shapes and broadcasting *)

Section shapes.
Context {A B D : Type}.
Implicit Types (f : A → B → D).

Lemma stretch_same {E : Type} (n : nat) (l : list E) :
  length l = n → stretch n l = l.
Proof. intros <-. by destruct l as [|x [|y l]]. Qed.

Lemma stretch_rows {E : Type} (c : nat) (m : matrix E) :
  Forall (λ row, length row = c) m → stretch c <$> m = m.
Proof.
  induction 1 as [|row m Hrow _ IH]; [done|].
  rewrite fmap_cons, IH. f_equal. by apply stretch_same.
Qed.

Lemma shape_has_shape {E : Type} (m : matrix E) (r c : nat) :
  has_shape m r c → 0 < r → shape m = (r, c).
Proof.
  intros [Hr Hc] Hpos. unfold shape. rewrite Hr. f_equal.
  destruct Hc as [|row m Hrow _]; simpl in *; [lia|done].
Qed.

Lemma bdim_same (n : nat) : bdim n n = Ok n.
Proof. unfold bdim. by rewrite decide_True. Qed.

(** Two arrays of one shape are combined cell by cell. *)
Lemma ew2_same_shape f (a : matrix A) (b : matrix B) (r c : nat) :
  has_shape a r c → has_shape b r c → ew2 f a b = Ok (mzip f a b).
Proof.
  intros Ha Hb. destruct (decide (r = 0)) as [->|Hr].
  - destruct Ha as [Ha _], Hb as [Hb _].
    apply nil_length_inv in Ha, Hb. by subst.
  - unfold ew2. rewrite (shape_has_shape a r c), (shape_has_shape b r c)
      by (done || lia).
    simpl. rewrite !bdim_same, !bind_Ok.
    destruct Ha as [Ha Ha'], Hb as [Hb Hb'].
    rewrite !stretch_rows, !stretch_same by done. done.
Qed.

Lemma has_shape_mzip f (a : matrix A) (b : matrix B) (r c : nat) :
  has_shape a r c → has_shape b r c → has_shape (mzip f a b) r c.
Proof.
  intros [Ha Ha'] [Hb Hb']. split.
  - unfold mzip. rewrite length_zip_with. lia.
  - unfold mzip. clear Ha Hb. revert b Hb'.
    induction Ha' as [|x a Hx _ IH]; intros b Hb'; [by destruct b|].
    destruct Hb' as [|y b Hy Hb']; [done|]. simpl. constructor; [|by apply IH].
    rewrite length_zip_with. lia.
Qed.

Lemma has_shape_mmap (g : A → B) (a : matrix A) (r c : nat) :
  has_shape a r c → has_shape (mmap g a) r c.
Proof.
  intros [Ha Ha']. split; [by unfold mmap; rewrite length_fmap|].
  unfold mmap. apply Forall_fmap. eapply Forall_impl; [done|].
  intros row Hrow. simpl. by rewrite length_fmap.
Qed.
End shapes.

Lemma has_shape_zeros (a b : nat) : has_shape (zeros a b) a b.
Proof.
  split; [apply length_replicate|].
  apply Forall_replicate. apply length_replicate.
Qed.

Lemma has_shape_meshgrid (xs ys : list R) :
  has_shape (meshgrid xs ys).1 (length ys) (length xs)
  ∧ has_shape (meshgrid xs ys).2 (length ys) (length xs).
Proof.
  unfold meshgrid; simpl. split; (split; [by rewrite length_fmap|]).
  - apply Forall_fmap, Forall_true. done.
  - apply Forall_fmap, Forall_true. intros y. simpl. by rewrite length_fmap.
Qed.

Lemma length_linspace (start stop : R) (num : nat) :
  length (linspace start stop num) = num.
Proof. unfold linspace. by rewrite length_fmap, length_seq. Qed.

(** The weight field is the outer product of its two vectors. *)
Lemma trapezoid_field_outer (u v : list R) :
  v ≠ [] → trapezoid_field u v = Ok (outer_product u v).
Proof.
  intros Hv. unfold trapezoid_field, ew2.
  assert (shape (vstack v) = (length v, 1)) as ->.
  { unfold shape, vstack. rewrite length_fmap. by destruct v. }
  change (shape [u]) with (1, length u). cbn [fst snd].
  assert (bdim 1 (length v) = Ok (length v)) as ->.
  { unfold bdim. repeat case_decide; congruence. }
  assert (bdim (length u) 1 = Ok (length u)) as ->.
  { unfold bdim. repeat case_decide; congruence. }
  rewrite !bind_Ok. f_equal.
  rewrite fmap_cons, fmap_nil, (stretch_same (length u) u) by done.
  change (stretch (length v) [u]) with (replicate (length v) u).
  rewrite (stretch_same (length v)) by (unfold vstack; by rewrite !length_fmap).
  unfold vstack, outer_product. rewrite <- list_fmap_compose.
  clear Hv. induction v as [|y v IH]; [done|].
  simpl. f_equal; [|done].
  clear. induction u as [|x u IH]; [done|]. simpl. by f_equal.
Qed.

Lemma outer_product_lookup (u v : list R) (r c : nat) (x y : R) :
  v !! r = Some y → u !! c = Some x →
  outer_product u v !! r ≫= (.!! c) = Some (x * y)%R.
Proof.
  intros Hy Hx. unfold outer_product.
  rewrite list_lookup_fmap, Hy. simpl. by rewrite list_lookup_fmap, Hx.
Qed.

Lemma trapezoid_contract_list (L : R) (n : nat) :
  trapezoid_contract L (S (S n))
    ((L / INR (S (S n)) / 2)%R
     :: replicate n (L / INR (S (S n)))%R ++ [(L / INR (S (S n)) / 2)%R]).
Proof.
  split_and!.
  - simpl. rewrite length_app, length_replicate. simpl. lia.
  - done.
  - replace (S (S n) - 1) with (S n) by lia. simpl.
    rewrite lookup_app_r by (rewrite length_replicate; lia).
    by rewrite length_replicate, Nat.sub_diag.
  - intros [|i] Hi; [lia|]. simpl.
    rewrite lookup_app_l by (rewrite length_replicate; lia).
    apply lookup_replicate_2. lia.
Qed.

(** C5. For sample counts of at least two the weight vector over an interval
    of length [L] has [N] entries, the step [L/N] at every interior index and
    half the step at both ends; and the weight field of a double integration
    is the outer product of the two vectors. *)
Theorem quadrature_contract (L1 L2 : R) (N1 N2 : nat) :
  2 ≤ N1 → 2 ≤ N2 →
  ∃ w1 w2,
    quadrature_weights L1 N1 = Ok w1 ∧ quadrature_weights L2 N2 = Ok w2
    ∧ trapezoid_contract L1 N1 w1 ∧ trapezoid_contract L2 N2 w2
    ∧ trapezoid_field w1 w2 = Ok (outer_product w1 w2).
Proof.
  intros H1 H2.
  destruct N1 as [|[|n1]]; [lia..|]. destruct N2 as [|[|n2]]; [lia..|].
  eexists _, _. split_and!.
  - apply quadrature_weights_list.
  - apply quadrature_weights_list.
  - apply trapezoid_contract_list.
  - apply trapezoid_contract_list.
  - by apply trapezoid_field_outer.
Qed.

Lemma quadrature_contract_witness :
  ∃ w1 w2,
    quadrature_weights 1 2 = Ok w1 ∧ quadrature_weights (2 * PI) 3 = Ok w2
    ∧ trapezoid_contract 1 2 w1 ∧ trapezoid_contract (2 * PI) 3 w2
    ∧ trapezoid_field w1 w2 = Ok (outer_product w1 w2).
Proof. apply (quadrature_contract 1 (2 * PI) 2 3); lia. Defined.

(** C2, on the code.  With the step [L/N] and the two half steps, the [N]
    weights add up to [L*(N-1)/N], which is not the length [L] of the
    interval. *)
Theorem quadrature_weights_sum (L : R) (N : nat) :
  2 ≤ N → L ≠ 0%R →
  ∃ w,
    quadrature_weights L N = Ok w
    ∧ Rsum w = (L * (INR N - 1) / INR N)%R
    ∧ Rsum w ≠ L.
Proof.
  intros HN HL. destruct N as [|[|n]]; [lia..|].
  eexists. split; [apply quadrature_weights_list|].
  assert (Rsum ((L / INR (S (S n)) / 2)%R :: replicate n (L / INR (S (S n)))%R
                  ++ [(L / INR (S (S n)) / 2)%R])
          = (L * (INR (S (S n)) - 1) / INR (S (S n)))%R) as Hsum.
  { change (Rsum (?x :: ?l)) with (x + Rsum l)%R.
    rewrite Rsum_app, Rsum_replicate.
    change (Rsum [?x]) with (x + 0)%R.
    rewrite !S_INR. pose proof (pos_INR n). field. lra. }
  split; [done|]. rewrite Hsum.
  rewrite !S_INR. pose proof (pos_INR n) as Hn. intros Heq.
  apply HL. apply (Rmult_eq_compat_r (INR n + 1 + 1)) in Heq.
  field_simplify in Heq; [|lra]. lra.
Qed.

Lemma quadrature_weights_sum_witness :
  ∃ w,
    quadrature_weights 1 2 = Ok w
    ∧ Rsum w = (1 * (INR 2 - 1) / INR 2)%R
    ∧ Rsum w ≠ 1%R.
Proof. apply (quadrature_weights_sum 1 2); [lia|lra]. Defined.

(** ** Events do not influence results *)

(** The result of a computation with events is the result of the same
    computation with the events forgotten. *)
Lemma py_bind_result {A B : Type} (m : py A) (f : A → py B) :
  (m ≫= f).2 = m.2 ≫= (λ a, (f a).2).
Proof. destruct m as [log [a|e]]; done. Qed.

Lemma py_bind_result_ext {A B : Type} (m1 m2 : py A) (f g : A → py B) :
  m1.2 = m2.2 → (∀ a, (f a).2 = (g a).2) → (m1 ≫= f).2 = (m2 ≫= g).2.
Proof.
  intros Hm Hfg. rewrite !py_bind_result, Hm.
  destruct m2.2 as [a|e]; simpl; [apply Hfg|done].
Qed.

(** One step of a computation whose result is being determined. *)
Ltac py_step :=
  rewrite ?py_bind_result; cbn [lift emit call snd fst];
  rewrite ?bind_Ok; cbv beta iota.

Lemma for_each_ext {A St : Type} (l : list A)
    (body1 body2 : St → A → result St) (s : St) :
  (∀ s x, body1 s x = body2 s x) →
  for_each l body1 s = for_each l body2 s.
Proof.
  intros Hb. revert s. induction l as [|x l IH]; intros s; [done|].
  simpl. rewrite Hb. destruct (body2 s x); simpl; [apply IH|done].
Qed.

Lemma for_each_py_result {A St : Type} (l : list A) (body : St → A → py St)
    (s : St) :
  (for_each_py l body s).2 = for_each l (λ s x, (body s x).2) s.
Proof.
  revert s. induction l as [|x l IH]; intros s; [done|].
  cbn [for_each_py for_each]. rewrite py_bind_result.
  destruct (body s x).2 as [s'|e]; simpl; [apply IH|done].
Qed.

Lemma for_each_tqdm_result {St : Type} (desc : string) (l : list nat)
    (body : St → nat → py St) (s : St) :
  (for_each_tqdm desc l body s).2 = for_each l (λ s i, (body s i).2) s.
Proof.
  unfold for_each_tqdm. rewrite for_each_py_result.
  apply for_each_ext. intros s' i. by rewrite py_bind_result.
Qed.

(** ** Loops over indices and loops over [enumerate] *)

Section loops.
Context {A St : Type}.
Implicit Types (l full : list A) (s : St).

Lemma for_each_index_enumerate full (body : St → nat → A → result St) :
  ∀ l k s,
    (∀ i x, l !! i = Some x → full !! (k + i) = Some x) →
    for_each (seq k (length l))
      (λ s i, x ← getitem full (Z.of_nat i); body s i x) s
    = for_each (imap (λ i x, (k + i, x)) l) (λ s '(i, x), body s i x) s.
Proof.
  induction l as [|x l IH]; intros k s Hfull; [done|].
  simpl. rewrite (getitem_lookup full k x), bind_Ok
    by (rewrite <- (Nat.add_0_r k); by apply Hfull).
  rewrite Nat.add_0_r. destruct (body s k x) as [s'|e]; simpl; [|done].
  rewrite IH
    by (intros i y Hy; replace (S k + i) with (k + S i) by lia;
        by apply Hfull).
  f_equal. apply imap_ext. intros i y _. simpl. f_equal. lia.
Qed.

(** [for i in range(len(l)): x = l[i]; ...] runs as
    [for i, x in enumerate(l): ...]. *)
Lemma for_each_range_enumerate l (body : St → nat → A → result St) s :
  for_each (range (length l))
    (λ s i, x ← getitem l (Z.of_nat i); body s i x) s
  = for_each (enumerate l) (λ s '(i, x), body s i x) s.
Proof. by apply for_each_index_enumerate. Qed.
End loops.

(** ** The single-plane focal synthesizer *)

(** C4. The three arrays returned by [custom_mask_focus_field] (or the
    exception raised) are the same with and without the countdown: the
    progress bar and the message only add events. *)
Theorem countdown_is_observational (ex_lens ey_lens : matrix C)
    (alpha h Lambda zp0 : R)
    (resolution_focus resolution_theta resolution_phi : nat) (FOV_focus : R)
    (x0 y0 : R) :
  (custom_mask_focus_field ex_lens ey_lens alpha h Lambda zp0 resolution_focus
     resolution_theta resolution_phi FOV_focus true x0 y0).2
  = (custom_mask_focus_field ex_lens ey_lens alpha h Lambda zp0
       resolution_focus resolution_theta resolution_phi FOV_focus false x0 y0).2.
Proof.
  unfold custom_mask_focus_field.
  apply py_bind_result_ext; [done|intros []].
  cbv beta iota zeta delta [meshgrid].
  do 8 (apply py_bind_result_ext; [done|intros ?]).
  apply py_bind_result_ext; [|by intros [[ex ey] ez]].
  rewrite for_each_tqdm_result. cbn [lift snd].
  rewrite <- (length_linspace (- (FOV_focus / 2) + x0) (FOV_focus / 2 + x0)
                resolution_focus) at 1.
  apply (for_each_range_enumerate _ (λ st i x,
    for_each (enumerate (linspace (FOV_focus / 2 + y0) (- (FOV_focus / 2) + y0)
                                  resolution_focus))
      (λ st '(j, y), point_field _ _ _ _ _ _ i j st) st)).
Qed.

(** ** The axial grid *)

Lemma linspace_lookup (start stop : R) (num i : nat) :
  i < num →
  linspace start stop num !! i
  = Some (INR i * ((stop - start) / INR (num - 1)) + start)%R.
Proof.
  intros Hi. unfold linspace.
  by rewrite list_lookup_fmap, lookup_seq_lt.
Qed.

Lemma axial_count_parity (resolution_z : nat) :
  axial_count resolution_z
  = if Nat.even resolution_z then resolution_z + 1 else resolution_z.
Proof.
  unfold axial_count. destruct (Nat.even resolution_z) eqn:Hpar.
  - apply Nat.even_spec in Hpar as [k ->].
    rewrite decide_True; [done|].
    by rewrite Nat.mul_comm, Nat.Div0.mod_mul.
  - apply (f_equal negb) in Hpar. rewrite Nat.negb_even in Hpar.
    apply Nat.odd_spec in Hpar as [k ->].
    rewrite decide_False; [done|].
    rewrite Nat.add_comm, Nat.mul_comm, Nat.Div0.mod_add. done.
Qed.

Lemma axial_count_odd (resolution_z : nat) : Nat.Odd (axial_count resolution_z).
Proof.
  rewrite axial_count_parity. destruct (Nat.even resolution_z) eqn:Hpar.
  - apply Nat.even_spec in Hpar as [k ->]. by exists k.
  - apply Nat.odd_spec. by rewrite <- Nat.negb_even, Hpar.
Qed.

(** C8, as the code has it.  The number of axial samples is odd for every
    request: an even request is raised by one, an odd one is kept, and the
    axial grid has that many samples.  With a request of at least two the
    grid has a middle position [m], with [m] samples before it and [m]
    after it, and the sample there is [start + m*step] for the step
    [(stop - start)/(2*m)] of [np.linspace], half the way from [z_FOV/2] to
    [-z_FOV/2]. *)
Theorem axial_grid_samples_focus (z_FOV : R) (resolution_z : nat) :
  Nat.Odd (axial_count resolution_z)
  ∧ axial_count resolution_z
    = (if Nat.even resolution_z then resolution_z + 1 else resolution_z)
  ∧ length (axial_grid z_FOV resolution_z) = axial_count resolution_z
  ∧ (2 ≤ resolution_z →
     ∃ m, 1 ≤ m
       ∧ axial_count resolution_z = m + 1 + m
       ∧ axial_grid z_FOV resolution_z !! m
         = Some (INR m * ((- z_FOV / 2 - z_FOV / 2) / INR (2 * m))
                 + z_FOV / 2)%R).
Proof.
  split_and!; [apply axial_count_odd|apply axial_count_parity
              |apply length_linspace|].
  intros Hge. destruct (axial_count_odd resolution_z) as [m Hm].
  assert (2 ≤ axial_count resolution_z) as Hn
    by (unfold axial_count; case_decide; lia).
  exists m. split_and!; [lia..|].
  unfold axial_grid. rewrite Hm.
  rewrite linspace_lookup by lia.
  by replace (2 * m + 1 - 1) with (2 * m) by lia.
Qed.

Lemma axial_grid_samples_focus_witness :
  ∃ m, 1 ≤ m
    ∧ axial_count 4 = m + 1 + m
    ∧ axial_grid 2 4 !! m
      = Some (INR m * ((- 2 / 2 - 2 / 2) / INR (2 * m)) + 2 / 2)%R.
Proof.
  apply (proj2 (proj2 (proj2 (axial_grid_samples_focus 2 4)))). lia.
Defined.

(** C8, as the claim words it, fails: with a request of one sample (or of
    none) the count is odd, and the only sample is the upper end [z_FOV/2]
    of the axial range, so the focal plane [z = 0] is not sampled. *)
Lemma axial_grid_counterexample :
  Nat.Odd (axial_count 1) ∧ Nat.Odd (axial_count 0)
  ∧ axial_grid 2 1 = axial_grid 2 0
  ∧ ∀ j, axial_grid 2 1 !! j ≠ Some 0%R.
Proof.
  split_and!; [by exists 0..|done|].
  intros [|j]; [|done]. intros [= Heq]. simpl in Heq. lra.
Qed.

(** A single axial sample sits at the upper end of the axial range, not on
    the focal plane. *)
Lemma axial_grid_single (z_FOV : R) :
  axial_grid z_FOV 1 = [(INR 0 * ((- z_FOV / 2 - z_FOV / 2) / INR 0) + z_FOV / 2)%R]
  ∧ (z_FOV ≠ 0%R → axial_grid z_FOV 1 !! 0 ≠ Some 0%R).
Proof.
  split; [done|]. intros Hz [=Heq]. simpl in Heq. lra.
Qed.

(** The middle sample of the theorem is zero in the arithmetic of [R];
    floating-point rounding may leave a residue of the size of one unit in
    the last place of [z_FOV]. *)
Lemma middle_step_exact (z : R) (m : nat) :
  1 ≤ m → (INR m * ((- z / 2 - z / 2) / INR (2 * m)) + z / 2)%R = 0%R.
Proof.
  intros Hm. rewrite mult_INR. simpl (INR 2).
  assert (INR m ≠ 0%R) by (apply not_0_INR; lia).
  field. done.
Qed.

(** ** Cells of two-dimensional arrays *)

Section cells.
Context {A : Type}.
Implicit Types (m : matrix A) (v : A).

Lemma getitem2_cell m (j i : nat) v :
  cell m j i = Some v → getitem2 m (Z.of_nat j) (Z.of_nat i) = Ok v.
Proof.
  unfold cell, getitem2. intros Hc.
  destruct (m !! j) as [row|] eqn:Hrow; [|done]. simpl in Hc.
  rewrite (getitem_lookup _ _ _ Hrow), bind_Ok.
  by apply getitem_lookup.
Qed.

Lemma cell_is_Some m (r c j i : nat) :
  has_shape m r c → j < r → i < c → is_Some (cell m j i).
Proof.
  intros [Hr Hc] Hj Hi. unfold cell.
  destruct (lookup_lt_is_Some_2 m j) as [row Hrow]; [lia|].
  rewrite Hrow. simpl. apply lookup_lt_is_Some_2.
  eapply Forall_lookup_1 in Hc; [|done]. simpl in Hc. lia.
Qed.

(** An assignment inside the array keeps the shape and changes one cell. *)
Lemma setitem2_inside m (r c j i : nat) v :
  has_shape m r c → j < r → i < c →
  ∃ m', setitem2 m (Z.of_nat j) (Z.of_nat i) v = Ok m'
    ∧ has_shape m' r c
    ∧ ∀ j' i', cell m' j' i'
               = if decide (j' = j ∧ i' = i) then Some v else cell m j' i'.
Proof.
  intros [Hr Hc] Hj Hi.
  destruct (lookup_lt_is_Some_2 m j) as [row Hrow]; [lia|].
  assert (length row = c) as Hlen
    by (eapply Forall_lookup_1 in Hc; [|done]; done).
  exists (<[j:=<[i:=v]> row]> m). split_and!.
  - unfold setitem2. rewrite (getitem_lookup _ _ _ Hrow), bind_Ok.
    rewrite setitem_nat, bind_Ok by lia. apply setitem_nat. lia.
  - split; [by rewrite length_insert|].
    apply Forall_insert; [done|]. by rewrite length_insert.
  - intros j' i'. unfold cell.
    destruct (decide (j' = j)) as [->|Hne].
    + rewrite list_lookup_insert_eq by lia. simpl. rewrite Hrow. simpl.
      destruct (decide (i' = i)) as [->|Hne'].
      * rewrite list_lookup_insert_eq by lia. by rewrite decide_True.
      * rewrite list_lookup_insert_ne by done. by rewrite decide_False by tauto.
    + rewrite list_lookup_insert_ne by done. by rewrite decide_False by tauto.
Qed.
End cells.

Lemma cell_zeros (a b j i : nat) : j < a → i < b → cell (zeros a b) j i = Some C0.
Proof.
  intros Hj Hi. unfold cell, zeros.
  rewrite lookup_replicate_2 by done. simpl. by apply lookup_replicate_2.
Qed.

(** ** [np.argmin] *)

Lemma argmin_from_spec (L : list R) :
  ∀ l pre bi b,
    L = pre ++ l → pre !! bi = Some b →
    (∀ k y, pre !! k = Some y → (b <= y)%R ∧ (k < bi → (b < y)%R)) →
    ∃ v, L !! argmin_from bi b (length pre) l = Some v
      ∧ ∀ k y, L !! k = Some y →
          (v <= y)%R ∧ (k < argmin_from bi b (length pre) l → (v < y)%R).
Proof.
  induction l as [|x l IH]; intros pre bi b -> Hb Hmin.
  - simpl. rewrite app_nil_r. eauto.
  - pose proof (lookup_lt_Some _ _ _ Hb) as Hbi. simpl.
    replace (S (length pre)) with (length (pre ++ [x]))
      by (rewrite length_app; simpl; lia).
    destruct (decide (x < b)%R) as [Hlt|Hge].
    + apply IH.
      * by rewrite <- app_assoc.
      * by rewrite lookup_app_r, Nat.sub_diag.
      * intros k y Hy. apply lookup_app_Some in Hy as [Hy|[Hk Hy]].
        -- destruct (Hmin k y Hy). pose proof (lookup_lt_Some _ _ _ Hy).
           split; [lra|]. intros _. lra.
        -- apply list_lookup_singleton_Some in Hy as [_ <-].
           split; [lra|lia].
    + apply IH.
      * by rewrite <- app_assoc.
      * by rewrite lookup_app_l.
      * intros k y Hy. apply lookup_app_Some in Hy as [Hy|[Hk Hy]];
          [by apply Hmin|].
        apply list_lookup_singleton_Some in Hy as [_ <-].
        split; [lra|lia].
Qed.

(** On a non-empty array [np.argmin] returns the first position of the least
    element. *)
Lemma argmin_spec (l : list R) :
  l ≠ [] →
  ∃ k v, argmin l = Ok k ∧ l !! k = Some v
    ∧ ∀ k' y, l !! k' = Some y → (v <= y)%R ∧ (k' < k → (v < y)%R).
Proof.
  destruct l as [|x l]; [done|]. intros _.
  destruct (argmin_from_spec (x :: l) l [x] 0 x) as (v & Hv & Hmin); [done..| |].
  - intros k y Hy. apply list_lookup_singleton_Some in Hy as [-> <-].
    split; [lra|lia].
  - exists (argmin_from 0 x 1 l), v. split_and!; done.
Qed.

(** The position chosen on one polar axis. *)
Lemma argmin_nearest (grid : list R) (v : R) :
  grid ≠ [] →
  ∃ k, argmin ((λ g, Rabs (g - v)) <$> grid) = Ok k ∧ nearest_index grid v k.
Proof.
  intros Hgrid.
  destruct (argmin_spec ((λ g, Rabs (g - v)) <$> grid)) as (k & d & Hk & Hd & Hmin).
  { by destruct grid. }
  exists k. split; [done|].
  rewrite list_lookup_fmap in Hd.
  destruct (grid !! k) as [g|] eqn:Hg; [|done]. injection Hd as <-.
  exists g. split; [done|]. intros k' g' Hg'.
  eapply proj1, (Hmin k' (Rabs (g' - v))). by rewrite list_lookup_fmap, Hg'.
Qed.

(** ** Loop invariants *)

Lemma for_each_app {A St : Type} (l k : list A) (body : St → A → result St)
    (s : St) :
  for_each (l ++ k) body s = for_each l body s ≫= for_each k body.
Proof.
  revert s. induction l as [|x l IH]; intros s; [done|].
  simpl. destruct (body s x); simpl; [apply IH|done].
Qed.

(** A loop over [enumerate(l)] whose body never raises under the invariant
    [P] runs to the end and establishes [P] at the length of [l]. *)
Lemma for_each_enumerate_inv {A St : Type} (P : nat → St → Prop) (l : list A)
    (body : St → nat * A → result St) (s : St) :
  P 0 s →
  (∀ i x s, l !! i = Some x → P i s → ∃ s', body s (i, x) = Ok s' ∧ P (S i) s') →
  ∃ s', for_each (enumerate l) body s = Ok s' ∧ P (length l) s'.
Proof.
  intros H0. induction l as [|x l IH] using rev_ind; intros Hstep.
  - by exists s.
  - destruct IH as (s1 & Hrun & H1).
    { intros i y s' Hy. apply Hstep. by apply lookup_app_l_Some. }
    destruct (Hstep (length l) x s1) as (s2 & Hbody & H2); [|done|].
    { by rewrite lookup_app_r, Nat.sub_diag. }
    exists s2. unfold enumerate in *. rewrite imap_app, for_each_app, Hrun.
    rewrite bind_Ok, length_app. simpl. rewrite Nat.add_0_r, Hbody.
    split; [done|]. by rewrite Nat.add_1_r.
Qed.

(** ** The polar-to-Cartesian resampler *)

Section resampler.
Variables (Ex Ey : matrix C) (rp rt : nat).
Variables (rhop_values phip_values x_values y_values : list R) (xmax : R).
Hypothesis HEx : has_shape Ex rp rt.
Hypothesis HEy : has_shape Ey rp rt.
Hypothesis Hrhos : length rhop_values = rt.
Hypothesis Hphis : length phip_values = rp.
Hypothesis Hrp : 1 ≤ rp.
Hypothesis Hrt : 1 ≤ rt.

Local Abbreviation inv :=
  (resample_inv Ex Ey rhop_values phip_values x_values y_values xmax).

Lemma nearest_index_lt (grid : list R) (v : R) (k : nat) :
  nearest_index grid v k → k < length grid.
Proof. intros (g & Hg & _). by eapply lookup_lt_Some. Qed.

(** One pass through the body of the double loop. *)
Lemma resample_cell_step (i j : nat) (x y : R) (st : matrix C * matrix C) :
  x_values !! i = Some x → y_values !! j = Some y → inv i j st →
  ∃ st',
    resample_cell Ex Ey xmax rhop_values phip_values i x j y st = Ok st'
    ∧ inv i (S j) st'.
Proof.
  intros Hx Hy (Hs1 & Hs2 & Hcells). destruct st as [Exc Eyc]. simpl in *.
  pose proof (lookup_lt_Some _ _ _ Hx) as Hi.
  pose proof (lookup_lt_Some _ _ _ Hy) as Hj.
  pose proof (Hcells i j x y Hx Hy) as Hij.
  rewrite decide_False in Hij by lia. destruct Hij as [Hzx Hzy].
  unfold resample_cell. cbv zeta.
  set (rhop := sqrt _).
  set (phip := if decide (arctan2 y x < 0)%R
               then (arctan2 y x + 2 * PI)%R else arctan2 y x).
  destruct (decide (rhop < xmax)%R) as [Hin|Hout].
  - destruct (argmin_nearest rhop_values rhop) as (id_rho & -> & Hrho).
    { intros ->. simpl in *. lia. }
    destruct (argmin_nearest phip_values phip) as (id_phi & -> & Hphi).
    { intros ->. simpl in *. lia. }
    pose proof (nearest_index_lt _ _ _ Hrho) as Hid_rho.
    pose proof (nearest_index_lt _ _ _ Hphi) as Hid_phi.
    destruct (cell_is_Some Ex rp rt id_phi id_rho) as [ex Hex]; [done|lia..|].
    destruct (cell_is_Some Ey rp rt id_phi id_rho) as [ey Hey]; [done|lia..|].
    destruct (setitem2_inside Exc _ _ j i ex Hs1) as (Exc' & HExc & Hs1' & Hc1);
      [done..|].
    destruct (setitem2_inside Eyc _ _ j i ey Hs2) as (Eyc' & HEyc & Hs2' & Hc2);
      [done..|].
    exists (Exc', Eyc'). split.
    { rewrite !bind_Ok, (getitem2_cell _ _ _ _ Hex), bind_Ok, HExc, bind_Ok.
      by rewrite (getitem2_cell _ _ _ _ Hey), bind_Ok, HEyc. }
    split_and!; [done..|]. intros i' j' x' y' Hx' Hy'. simpl.
    rewrite Hc1, Hc2. specialize (Hcells i' j' x' y' Hx' Hy').
    destruct (decide (j' = j ∧ i' = i)) as [[-> ->]|Hne].
    + rewrite decide_True by lia. exists ex, ey.
      assert (x' = x) as -> by congruence.
      assert (y' = y) as -> by congruence.
      split_and!; [done..|].
      unfold polar_sample. fold rhop phip.
      rewrite decide_True by done. by exists id_rho, id_phi.
    + destruct (decide (i' < i ∨ i' = i ∧ j' < j)).
      * by rewrite decide_True by lia.
      * by rewrite decide_False by lia.
  - exists (Exc, Eyc). split; [done|].
    split_and!; [done..|]. intros i' j' x' y' Hx' Hy'. simpl.
    specialize (Hcells i' j' x' y' Hx' Hy').
    destruct (decide (j' = j ∧ i' = i)) as [[-> ->]|Hne].
    + rewrite decide_True by lia. exists C0, C0.
      assert (x' = x) as -> by congruence.
      assert (y' = y) as -> by congruence.
      split_and!; [done..|].
      unfold polar_sample. fold rhop phip. by rewrite decide_False.
    + destruct (decide (i' < i ∨ i' = i ∧ j' < j)).
      * by rewrite decide_True by lia.
      * by rewrite decide_False by lia.
Qed.

(** The double loop visits every sample. *)
Lemma resample_loops :
  ∃ st',
    for_each (enumerate x_values) (λ st '(i, x),
      for_each (enumerate y_values) (λ st '(j, y),
        resample_cell Ex Ey xmax rhop_values phip_values i x j y st) st)
      (zeros (length y_values) (length x_values),
       zeros (length y_values) (length x_values))
    = Ok st'
    ∧ inv (length x_values) 0 st'.
Proof.
  apply (for_each_enumerate_inv (λ i st, inv i 0 st)).
  - split_and!; [apply has_shape_zeros..|].
    intros i' j' x' y' Hx' Hy'. rewrite decide_False by lia. simpl.
    pose proof (lookup_lt_Some _ _ _ Hx'). pose proof (lookup_lt_Some _ _ _ Hy').
    by rewrite !cell_zeros.
  - intros i x st Hx Hinv.
    destruct (for_each_enumerate_inv (λ j st, inv i j st) y_values
                (λ st '(j, y),
                   resample_cell Ex Ey xmax rhop_values phip_values i x j y st)
                st Hinv) as (st' & Hrun & Hinv').
    { intros j y st0 Hy Hst0. by apply resample_cell_step. }
    exists st'. split; [done|].
    destruct Hinv' as (Hs1 & Hs2 & Hcells). split_and!; [done..|].
    intros i' j' x' y' Hx' Hy'. specialize (Hcells i' j' x' y' Hx' Hy').
    pose proof (lookup_lt_Some _ _ _ Hy').
    destruct (decide (i' < S i ∨ i' = S i ∧ j' < 0)).
    + by rewrite decide_True in Hcells by lia.
    + by rewrite decide_False in Hcells by lia.
Qed.
End resampler.

(** The resampler runs to the end on every polar field with at least one
    angular sample, and leaves the double loop with every sample visited. *)
Lemma resample_returns (Ex Ey : matrix C) (rp rt : nat) (xmax alpha focus : R) :
  has_shape Ex rp rt → has_shape Ey rp rt → 1 ≤ rp →
  ∃ st,
    resample Ex Ey xmax alpha focus = Ok st
    ∧ resample_inv Ex Ey ((λ t, sin t * focus)%R <$> linspace 0 alpha rt)
        (linspace 0 (2 * PI) rp) (linspace (- xmax) xmax (2 * rt))
        (linspace xmax (- xmax) (2 * rt)) xmax (2 * rt) 0 st.
Proof.
  intros HEx HEy Hrp.
  assert (shape Ex = (rp, rt)) as Hshape by (apply shape_has_shape; [done|lia]).
  unfold resample. rewrite Hshape.
  destruct (decide (rt = 0)) as [->|Hrt].
  - exists ([], []). split; [done|]. split_and!; [by split..|].
    intros i j x y Hx. done.
  - destruct (resample_loops Ex Ey rp rt
                ((λ t, sin t * focus)%R <$> linspace 0 alpha rt)
                (linspace 0 (2 * PI) rp)
                (linspace (- xmax) xmax (2 * rt))
                (linspace xmax (- xmax) (2 * rt)) xmax)
      as (st & Hrun & Hinv);
      [done|done|by rewrite length_fmap, length_linspace
      |apply length_linspace|done|lia|].
    rewrite !length_linspace in *. by exists st.
Qed.

(** After the resampling, the intensity and the figures need one radial
    sample at least: the plot along the axis reads the row [resolution_theta]
    of the intensity. *)
Lemma plot_in_cartesian_returns (Ex Ey Exc Eyc : matrix C) (rp rt : nat)
    (xmax alpha focus : R) (figure_name : string) :
  has_shape Ex rp rt → 1 ≤ rp → 1 ≤ rt →
  resample Ex Ey xmax alpha focus = Ok (Exc, Eyc) →
  has_shape Exc (2 * rt) (2 * rt) → has_shape Eyc (2 * rt) (2 * rt) →
  ∃ I_cartesian,
    (plot_in_cartesian Ex Ey xmax alpha focus figure_name).2
    = Ok (I_cartesian, Exc, Eyc).
Proof.
  intros HEx Hrp Hrt Hres Hs1 Hs2.
  assert (shape Ex = (rp, rt)) as Hshape by (apply shape_has_shape; [done|lia]).
  unfold plot_in_cartesian. rewrite Hshape, Hres.
  py_step. py_step.
  rewrite (ew2_same_shape _ _ _ (2 * rt) (2 * rt))
    by (by apply has_shape_mmap).
  set (I_cartesian := mzip Rplus _ _).
  assert (has_shape I_cartesian (2 * rt) (2 * rt)) as [HI _]
    by (apply has_shape_mzip; by apply has_shape_mmap).
  destruct (lookup_lt_is_Some_2 I_cartesian rt) as [row Hrow]; [lia|].
  exists I_cartesian. py_step. py_step.
  rewrite (getitem_lookup _ _ _ Hrow). py_step. by py_step.
Qed.

(** C6. On a polar field of [rp ≥ 1] angular and [rt] radial samples the
    resampler fills a square grid of side [2*rt].  The cell of the Cartesian
    sample [(x, y)] holds, when the radius of the point is strictly below
    [xmax], the polar sample at a radial index and an angular index that
    are each at the least absolute difference on their own axis, the same
    pair of indices for both arrays; otherwise it is zero.  The arrays
    returned by [plot_in_cartesian] are these. *)
Theorem resample_nearest_on_each_axis (Ex Ey : matrix C) (rp rt : nat)
    (xmax alpha focus : R) (figure_name : string) :
  has_shape Ex rp rt → has_shape Ey rp rt → 1 ≤ rp →
  ∃ Ex_cartesian Ey_cartesian,
    resample Ex Ey xmax alpha focus = Ok (Ex_cartesian, Ey_cartesian)
    ∧ has_shape Ex_cartesian (2 * rt) (2 * rt)
    ∧ has_shape Ey_cartesian (2 * rt) (2 * rt)
    ∧ (∀ i j x y,
         linspace (- xmax) xmax (2 * rt) !! i = Some x →
         linspace xmax (- xmax) (2 * rt) !! j = Some y →
         ∃ vx vy,
           cell Ex_cartesian j i = Some vx ∧ cell Ey_cartesian j i = Some vy
           ∧ polar_sample Ex Ey
               ((λ t, sin t * focus)%R <$> linspace 0 alpha rt)
               (linspace 0 (2 * PI) rp) xmax x y vx vy)
    ∧ (1 ≤ rt →
       ∃ I_cartesian,
         (plot_in_cartesian Ex Ey xmax alpha focus figure_name).2
         = Ok (I_cartesian, Ex_cartesian, Ey_cartesian)).
Proof.
  intros HEx HEy Hrp.
  destruct (resample_returns Ex Ey rp rt xmax alpha focus HEx HEy Hrp)
    as ([Exc Eyc] & Hres & Hs1 & Hs2 & Hcells).
  rewrite !length_linspace in *. simpl in Hs1, Hs2.
  exists Exc, Eyc. split_and!; [done..| |].
  - intros i j x y Hx Hy. specialize (Hcells i j x y Hx Hy).
    pose proof (lookup_lt_Some _ _ _ Hx) as Hi.
    rewrite length_linspace in Hi. by rewrite decide_True in Hcells by lia.
  - intros Hrt. by eapply plot_in_cartesian_returns.
Qed.

Lemma resample_nearest_on_each_axis_witness :
  ∃ Ex_cartesian Ey_cartesian,
    resample [[RtoC 1; RtoC 2]; [RtoC 3; RtoC 4]]
      [[RtoC 5; RtoC 6]; [RtoC 7; RtoC 8]] 1 (PI / 2) 1
    = Ok (Ex_cartesian, Ey_cartesian)
    ∧ has_shape Ex_cartesian (2 * 2) (2 * 2)
    ∧ has_shape Ey_cartesian (2 * 2) (2 * 2)
    ∧ (∀ i j x y,
         linspace (- 1) 1 (2 * 2) !! i = Some x →
         linspace 1 (- 1) (2 * 2) !! j = Some y →
         ∃ vx vy,
           cell Ex_cartesian j i = Some vx ∧ cell Ey_cartesian j i = Some vy
           ∧ polar_sample [[RtoC 1; RtoC 2]; [RtoC 3; RtoC 4]]
               [[RtoC 5; RtoC 6]; [RtoC 7; RtoC 8]]
               ((λ t, sin t * 1)%R <$> linspace 0 (PI / 2) 2)
               (linspace 0 (2 * PI) 2) 1 x y vx vy)
    ∧ (1 ≤ 2 →
       ∃ I_cartesian,
         (plot_in_cartesian [[RtoC 1; RtoC 2]; [RtoC 3; RtoC 4]]
            [[RtoC 5; RtoC 6]; [RtoC 7; RtoC 8]] 1 (PI / 2) 1 "lens").2
         = Ok (I_cartesian, Ex_cartesian, Ey_cartesian)).
Proof.
  apply (resample_nearest_on_each_axis [[RtoC 1; RtoC 2]; [RtoC 3; RtoC 4]]
           [[RtoC 5; RtoC 6]; [RtoC 7; RtoC 8]] 2 2 1 (PI / 2) 1 "lens").
  - split; [reflexivity|]. repeat constructor.
  - split; [reflexivity|]. repeat constructor.
  - lia.
Defined.

(** ** The trapezoid vectors and the weight field *)

Lemma trapezoid_vector_returns (h : R) (N : nat) :
  1 ≤ N → ∃ w, trapezoid_vector h N = Ok w ∧ length w = N.
Proof.
  intros HN. destruct N as [|[|n]]; [lia| |].
  - by exists [(h / 2)%R].
  - rewrite trapezoid_vector_list. eexists. split; [done|].
    simpl. rewrite length_app, length_replicate. simpl. lia.
Qed.

Lemma has_shape_outer_product (u v : list R) :
  has_shape (outer_product u v) (length v) (length u).
Proof.
  unfold outer_product. split; [by rewrite length_fmap|].
  apply Forall_fmap, Forall_true. intros y. simpl. by rewrite length_fmap.
Qed.

(** ** The calls of the mask function *)

Lemma mask_calls_app (l k : list event) :
  mask_calls (l ++ k) = mask_calls l ++ mask_calls k.
Proof. apply omap_app. Qed.

Lemma mask_calls_bind {A B : Type} (m : py A) (f : A → py B) :
  mask_calls (m ≫= f).1
  = mask_calls m.1 ++ match m.2 with
                      | Ok a => mask_calls (f a).1
                      | Raise _ => []
                      end.
Proof.
  destruct m as [log [a|e]]; simpl.
  - apply mask_calls_app.
  - by rewrite app_nil_r.
Qed.

Lemma mask_calls_bind_nil {A B : Type} (m : py A) (f : A → py B) :
  mask_calls m.1 = [] → (∀ a, mask_calls (f a).1 = []) →
  mask_calls (m ≫= f).1 = [].
Proof.
  intros Hm Hf. rewrite mask_calls_bind, Hm. destruct m.2; [apply Hf|done].
Qed.

Lemma for_each_py_no_calls {A St : Type} (l : list A) (body : St → A → py St)
    (s : St) :
  (∀ s x, mask_calls (body s x).1 = []) →
  mask_calls (for_each_py l body s).1 = [].
Proof.
  intros Hbody. revert s. induction l as [|x l IH]; intros s; [done|].
  cbn [for_each_py]. by apply mask_calls_bind_nil.
Qed.

Lemma for_each_tqdm_no_calls {St : Type} (desc : string) (l : list nat)
    (body : St → nat → py St) (s : St) :
  (∀ s i, mask_calls (body s i).1 = []) →
  mask_calls (for_each_tqdm desc l body s).1 = [].
Proof.
  intros Hbody. apply for_each_py_no_calls. intros s' i.
  by apply mask_calls_bind_nil.
Qed.

(** The quick run never returns: whatever happens before, its last call
    raises. *)
Lemma py_bind_raises {A B : Type} (m : py A) (f : A → py B) :
  (∀ a, ∃ e, (f a).2 = Raise e) → ∃ e, (m ≫= f).2 = Raise e.
Proof.
  intros Hf. rewrite py_bind_result. destruct m.2 as [a|e]; [apply Hf|eauto].
Qed.

Lemma test_custom_mask_objective_field_raises (psi delta : R)
    (resolution_theta resolution_phi N_rho N_phi : nat) (alpha : R)
    (mask_function : list pyarg → result (matrix C))
    (h L I0 Lambda radius : R) :
  ∃ e,
    (test_custom_mask_objective_field psi delta resolution_theta
       resolution_phi N_rho N_phi alpha mask_function h L I0 Lambda radius).2
    = Raise e.
Proof.
  unfold test_custom_mask_objective_field.
  cbv beta iota zeta delta [meshgrid].
  do 11 (apply py_bind_raises; intros ?).
  by exists TypeError.
Qed.

(** C9, as the code has it.  On the quick-test path, with nonzero [Lambda]
    and [L] and at least one node on each axis of the integration grid, the
    mask function is called once, with two arguments: the array of pupil radii and the array
    of pupil angles of the integration grid. *)
Theorem quick_test_calls_mask_with_two_arguments (psi delta : R)
    (resolution_theta resolution_phi N_rho N_phi : nat) (alpha : R)
    (mask_function : list pyarg → result (matrix C))
    (h L I0 Lambda radius : R) :
  Lambda ≠ 0%R → L ≠ 0%R →
  1 ≤ N_rho → 1 ≤ N_phi →
  mask_calls
    (test_custom_mask_objective_field psi delta resolution_theta
       resolution_phi N_rho N_phi alpha mask_function h L I0 Lambda radius).1
  = [[AArray (meshgrid (linspace 0 h N_rho) (linspace 0 (2 * PI) N_phi)).1;
      AArray (meshgrid (linspace 0 h N_rho) (linspace 0 (2 * PI) N_phi)).2]].
Proof.
  intros _ _ Hnr Hnp. unfold test_custom_mask_objective_field.
  cbv beta iota zeta delta [meshgrid]. cbn [fst snd].
  do 2 (rewrite mask_calls_bind; cbn [emit fst snd]; simpl (mask_calls [_])).
  unfold py_div. rewrite !decide_False by lia.
  do 2 (rewrite mask_calls_bind; cbn [lift fst snd]; simpl (mask_calls [])).
  destruct (trapezoid_vector_returns (h / INR N_rho) N_rho Hnr) as (wr & -> & Hwr).
  rewrite mask_calls_bind; cbn [lift fst snd]; simpl (mask_calls []).
  destruct (trapezoid_vector_returns (2 * PI / INR N_phi) N_phi Hnp)
    as (wp & -> & Hwp).
  rewrite mask_calls_bind; cbn [lift fst snd]; simpl (mask_calls []).
  rewrite trapezoid_field_outer by (intros ->; simpl in *; lia).
  rewrite mask_calls_bind; cbn [lift fst snd]; simpl (mask_calls []).
  rewrite mask_calls_bind; cbn [call fst snd]; simpl (mask_calls [_]).
  simpl app. f_equal.
  destruct (mask_function _) as [mask|e]; [|done].
  do 2 (apply mask_calls_bind_nil; [done|intros ?]).
  apply mask_calls_bind_nil; [|intros ?].
  - by apply for_each_tqdm_no_calls.
  - done.
Qed.

Lemma quick_test_calls_mask_with_two_arguments_witness :
  mask_calls
    (test_custom_mask_objective_field 0 0 1 20 1 1 1 four_argument_mask
       1 1 1 1 1).1
  = [[AArray (meshgrid (linspace 0 1 1) (linspace 0 (2 * PI) 1)).1;
      AArray (meshgrid (linspace 0 1 1) (linspace 0 (2 * PI) 1)).2]].
Proof.
  apply (quick_test_calls_mask_with_two_arguments 0 0 1 20 1 1 1
           four_argument_mask 1 1 1 1 1); (lia || lra).
Defined.

(** C9, as the claim words it, fails: a mask function of four parameters is
    called with two arguments on the quick-test path, and the run stops at
    that call with [TypeError]. *)
Lemma quick_test_counterexample :
  ∃ rho phi,
    test_custom_mask_objective_field 0 0 1 20 1 1 1 four_argument_mask
      1 1 1 1 1
    = ([Print "Calculating field at the objective:"; Sleep 200;
        Call [AArray rho; AArray phi]],
       Raise TypeError).
Proof. eexists _, _. reflexivity. Qed.

(** ** The focal-region synthesizers return *)

Lemma has_shape_mzip3 {A B D E : Type} (f : A → B → D → E)
    (a : matrix A) (b : matrix B) (d : matrix D) (r c : nat) :
  has_shape a r c → has_shape b r c → has_shape d r c →
  has_shape (mzip3 f a b d) r c.
Proof. intros. unfold mzip3. by repeat apply has_shape_mzip. Qed.

Lemma couple_returns (prefactor : matrix R) (lens : matrix C)
    (weight : matrix R) (r c : nat) :
  has_shape prefactor r c → has_shape lens r c → has_shape weight r c →
  ∃ a, couple prefactor lens weight = Ok a ∧ has_shape a r c.
Proof.
  intros Hp Hl Hw. unfold couple.
  rewrite (ew2_same_shape _ _ _ r c), bind_Ok by done.
  rewrite (ew2_same_shape _ _ _ r c) by (done || by apply has_shape_mzip).
  eexists. split; [done|]. by repeat apply has_shape_mzip.
Qed.

Lemma coupling_arrays_returns (ex_lens ey_lens : matrix C)
    (weight theta phi : matrix R) (r c : nat) :
  has_shape ex_lens r c → has_shape ey_lens r c → has_shape weight r c →
  has_shape theta r c → has_shape phi r c →
  ∃ A, coupling_arrays ex_lens ey_lens weight theta phi = Ok A
    ∧ coupling_shape A r c.
Proof.
  intros Hex Hey Hw Ht Hp. unfold coupling_arrays. cbv zeta.
  set (px := mzip3 _ _ _ _). set (py := mzip _ (mzip3 _ _ _ _) _).
  set (pz := mzip3 _ _ _ _).
  assert (has_shape (mzip Rmult (mmap sqrt (mmap cos theta)) (mmap sin theta))
            r c) as Hg by (apply has_shape_mzip; by repeat apply has_shape_mmap).
  assert (has_shape px r c) as Hpx
    by (apply has_shape_mzip3; [done|by repeat apply has_shape_mmap..]).
  assert (has_shape py r c) as Hpy.
  { apply has_shape_mzip; [|by apply has_shape_mmap].
    apply has_shape_mzip3; [done|by repeat apply has_shape_mmap..]. }
  assert (has_shape pz r c) as Hpz
    by (apply has_shape_mzip3; [done|by repeat apply has_shape_mmap..]).
  repeat match goal with
  | |- context [couple ?p ?l ?w] =>
      let a := fresh "A" in
      destruct (couple_returns p l w r c) as (a & -> & ?);
        [done || by apply has_shape_mmap|done|done|]; rewrite bind_Ok
  end.
  eexists. split; [done|]. by split_and!.
Qed.

Lemma integrate_returns (A phase : matrix C) (r c : nat) :
  has_shape A r c → has_shape phase r c → ∃ z, integrate A phase = Ok z.
Proof.
  intros HA Hp. unfold integrate.
  rewrite (ew2_same_shape _ _ _ r c) by done. by eexists.
Qed.

Lemma point_field_returns
    (A : matrix C * matrix C * matrix C * matrix C * matrix C * matrix C)
    (theta phi : matrix R) (kr phip kz : R) (i j r c rows cols : nat)
    (st : matrix C * matrix C * matrix C) :
  coupling_shape A r c → has_shape theta r c → has_shape phi r c →
  field_shape st rows cols → j < rows → i < cols →
  ∃ st', point_field A theta phi kr phip kz i j st = Ok st'
    ∧ field_shape st' rows cols.
Proof.
  intros HA Ht Hp Hst Hj Hi.
  destruct A as [[[[[Axx Axy] Axz] Ayx] Ayy] Ayz], st as [[ex ey] ez].
  destruct HA as (? & ? & ? & ? & ? & ?), Hst as (Hex & Hey & Hez).
  unfold point_field. cbv zeta.
  set (phx := mzip3 _ _ _ _). set (phy := mzip3 _ _ _ _).
  assert (has_shape phx r c) as Hphx
    by (apply has_shape_mzip3; (done || by apply has_shape_mmap)).
  assert (has_shape phy r c) as Hphy
    by (apply has_shape_mzip3; (done || by apply has_shape_mmap)).
  repeat match goal with
  | |- context [integrate ?a ?p] =>
      destruct (integrate_returns a p r c) as [? ->]; [done..|];
      rewrite ?bind_Ok
  end.
  repeat match goal with
  | |- context [setitem2 ?m (Z.of_nat j) (Z.of_nat i) ?v] =>
      destruct (setitem2_inside m rows cols j i v) as (? & -> & ? & _);
        [done..|]; rewrite ?bind_Ok
  end.
  by eexists.
Qed.

Lemma has_shape_meshgrid_linspace (a b : R) (c d : R) (n m : nat) :
  has_shape ((λ _ : R, linspace a b n) <$> linspace c d m) m n
  ∧ has_shape ((λ y : R, (λ _ : R, y) <$> linspace a b n) <$> linspace c d m) m n.
Proof.
  pose proof (has_shape_meshgrid (linspace a b n) (linspace c d m)) as H.
  by rewrite !length_linspace in H.
Qed.

(** On incident fields of the shape of the angular grids, with at least one
    sample on each angular axis, the single-plane synthesizer returns three
    square arrays. *)
Lemma custom_mask_focus_field_returns (ex_lens ey_lens : matrix C)
    (alpha h Lambda zp0 : R)
    (resolution_focus resolution_theta resolution_phi : nat) (FOV_focus : R)
    (x0 y0 : R) :
  has_shape ex_lens resolution_phi resolution_theta →
  has_shape ey_lens resolution_phi resolution_theta →
  1 ≤ resolution_theta → 1 ≤ resolution_phi →
  ∃ out,
    (custom_mask_focus_field ex_lens ey_lens alpha h Lambda zp0
       resolution_focus resolution_theta resolution_phi FOV_focus true x0 y0).2
    = Ok out
    ∧ field_shape out resolution_focus resolution_focus.
Proof.
  intros Hex Hey Hrt Hrp. unfold custom_mask_focus_field.
  cbv beta iota zeta delta [meshgrid].
  destruct (has_shape_meshgrid_linspace 0 alpha 0 (2 * PI)
              resolution_theta resolution_phi) as [Htheta Hphi].
  py_step. py_step. rewrite rotate_180_rotate. py_step.
  rewrite rotate_270_rotate. py_step.
  unfold py_div. rewrite !decide_False by lia. do 2 py_step.
  destruct (trapezoid_vector_returns (alpha / INR resolution_theta)
              resolution_theta Hrt) as (wr & -> & Hwr).
  py_step.
  destruct (trapezoid_vector_returns (2 * PI / INR resolution_phi)
              resolution_phi Hrp) as (wp & -> & Hwp).
  py_step. rewrite trapezoid_field_outer by (intros ->; simpl in *; lia).
  py_step.
  pose proof (has_shape_outer_product wr wp) as Hweight.
  rewrite Hwr, Hwp in Hweight.
  destruct (coupling_arrays_returns
              (rotate (length ex_lens / 2) ex_lens)
              (rotate (3 * length ey_lens / 4) ey_lens)
              (outer_product wr wp) _ _ _ _
              (has_shape_rotate _ _ _ _ Hex) (has_shape_rotate _ _ _ _ Hey)
              Hweight Htheta Hphi) as (A & -> & HA).
  py_step. rewrite py_bind_result, for_each_tqdm_result. cbn [lift snd].
  set (x_values := linspace (- (FOV_focus / 2) + x0) (FOV_focus / 2 + x0)
                     resolution_focus).
  set (y_values := linspace (FOV_focus / 2 + y0) (- (FOV_focus / 2) + y0)
                     resolution_focus).
  assert (length x_values = resolution_focus) as Hxs by apply length_linspace.
  assert (length y_values = resolution_focus) as Hys by apply length_linspace.
  replace (range resolution_focus) with (range (length x_values))
    by (by rewrite Hxs).
  rewrite (for_each_range_enumerate x_values (λ st i x,
    for_each (enumerate y_values) (λ st '(j, y),
      point_field A _ _ _ _ _ i j st) st)).
  edestruct (for_each_enumerate_inv
               (λ (_ : nat) (st : matrix C * matrix C * matrix C),
                  field_shape st resolution_focus resolution_focus)
               x_values) as ([[ex ey] ez] & -> & Hout).
  - split_and!; apply has_shape_zeros.
  - intros i x st Hx Hst. cbv beta iota.
    apply (for_each_enumerate_inv
             (λ (_ : nat) (st : matrix C * matrix C * matrix C),
                field_shape st resolution_focus resolution_focus)); [done|].
    intros j y st' Hy Hst'. cbv beta iota.
    apply lookup_lt_Some in Hx, Hy.
    eapply point_field_returns; [done..|lia|lia].
  - py_step. eexists. split; [done|].
    destruct Hout as (? & ? & ?). split_and!; by apply has_shape_mmap.
Qed.

Lemma py_bind_lift_Ok {A B : Type} (a : A) (f : A → py B) :
  lift (Ok a) ≫= f = f a.
Proof. unfold mbind, py_bind, lift. simpl. by destruct (f a). Qed.

(** Scaling an array of zeros leaves it as it is. *)
Lemma mmap_scale_zeros (c : C) (a b : nat) :
  mmap (λ z, z * c)%C (zeros a b) = zeros a b.
Proof.
  unfold mmap, zeros. rewrite fmap_replicate. f_equal.
  rewrite fmap_replicate. f_equal.
  unfold Cmul, C0. simpl. f_equal; ring.
Qed.




(** * Further properties of the code

    The statements below about runs that pass a division by [Lambda], [L]
    or [wavelength] take the divisor nonzero, those about [I0**0.5] take
    [I0] nonnegative, and those about the values of the focal field take the
    semi-aperture in [(0, pi/2]]. *)

(** ** More on the rotators *)

Lemma rotate_mod {A : Type} (n : nat) (l : list A) :
  rotate n l = rotate (n mod length l) l.
Proof. unfold rotate. by rewrite Nat.Div0.mod_mod. Qed.

Lemma rotate_Permutation {A : Type} (n : nat) (l : list A) : rotate n l ≡ₚ l.
Proof.
  unfold rotate. rewrite (comm (++)). by rewrite take_drop.
Qed.

Lemma rotate_multiple {A : Type} (n c : nat) (l : list A) :
  n = c * length l → rotate n l = l.
Proof.
  intros ->. unfold rotate. rewrite Nat.Div0.mod_mul. simpl.
  by rewrite drop_0, app_nil_r.
Qed.

(** X1. Both rotators return on every matrix, and what they return is a
    rearrangement of the rows of the input: no row is lost, none is
    duplicated, none is left at zero. *)
Theorem rotators_permute_rows (m : matrix C) :
  ∃ r180 r270,
    rotate_180 m = Ok r180 ∧ rotate_270 m = Ok r270
    ∧ r180 ≡ₚ m ∧ r270 ≡ₚ m.
Proof.
  exists (rotate (length m / 2) m), (rotate (3 * length m / 4) m).
  split_and!; auto using rotate_180_rotate, rotate_270_rotate,
    rotate_Permutation.
Qed.

(** X2. When the number of rows is a multiple of four, the 270° rotation
    applied twice is the 180° rotation, and applied four times it gives the
    matrix back. *)
Theorem rotate_270_composes (m : matrix C) (k : nat) :
  length m = 4 * k →
  rotate_270 m ≫= rotate_270 = rotate_180 m
  ∧ ((rotate_270 m ≫= rotate_270) ≫= rotate_270) ≫= rotate_270 = Ok m.
Proof.
  intros Hlen.
  assert (3 * length m / 4 = 3 * k) as H34
    by (rewrite Hlen; replace (3 * (4 * k)) with (3 * k * 4) by lia;
        by rewrite Nat.div_mul).
  assert (length m / 2 = 2 * k) as H12
    by (rewrite Hlen; replace (4 * k) with (2 * k * 2) by lia;
        by rewrite Nat.div_mul).
  assert (rotate_270 m ≫= rotate_270 = Ok (rotate (2 * k) m)) as Htwice.
  { rewrite rotate_270_rotate, bind_Ok, rotate_270_rotate.
    rewrite length_rotate, rotate_rotate, H34. f_equal.
    rewrite rotate_mod, Hlen. f_equal.
    replace (3 * k + 3 * k) with (2 * k + 1 * (4 * k)) by lia.
    rewrite Nat.Div0.mod_add. destruct k; [done|].
    apply Nat.mod_small. lia. }
  split.
  - by rewrite Htwice, rotate_180_rotate, H12.
  - rewrite Htwice, bind_Ok, rotate_270_rotate, bind_Ok, rotate_270_rotate.
    rewrite !length_rotate, !rotate_rotate, H34. f_equal.
    apply (rotate_multiple _ 2). lia.
Qed.

Lemma rotate_270_composes_witness :
  rotate_270 [[RtoC 1]; [RtoC 2]; [RtoC 3]; [RtoC 4]] ≫= rotate_270
  = rotate_180 [[RtoC 1]; [RtoC 2]; [RtoC 3]; [RtoC 4]]
  ∧ ((rotate_270 [[RtoC 1]; [RtoC 2]; [RtoC 3]; [RtoC 4]] ≫= rotate_270)
       ≫= rotate_270) ≫= rotate_270
    = Ok [[RtoC 1]; [RtoC 2]; [RtoC 3]; [RtoC 4]].
Proof.
  apply (rotate_270_composes [[RtoC 1]; [RtoC 2]; [RtoC 3]; [RtoC 4]] 1).
  reflexivity.
Defined.

(** ** [generate_incident_field], cell by cell *)

Lemma cell_mmap {A B : Type} (f : A → B) (m : matrix A) (i j : nat) :
  cell (mmap f m) i j = f <$> cell m i j.
Proof.
  unfold cell, mmap. rewrite list_lookup_fmap.
  destruct (m !! i) as [row|]; [|done]. simpl. apply list_lookup_fmap.
Qed.




(** A loop whose every pass returns under the invariant [P] makes the calls
    of its passes, in order. *)
Lemma for_each_py_calls {A St : Type} (P : St → Prop)
    (c : A → list (list pyarg)) (l : list A) (body : St → A → py St) (s : St)
    (calls : list (list pyarg)) :
  P s →
  (∀ s x, x ∈ l → P s →
     ∃ s', (body s x).2 = Ok s' ∧ P s' ∧ mask_calls (body s x).1 = c x) →
  calls = concat (c <$> l) →
  ∃ s', (for_each_py l body s).2 = Ok s' ∧ P s'
    ∧ mask_calls (for_each_py l body s).1 = calls.
Proof.
  intros Hs Hbody ->. revert s Hs.
  induction l as [|x l IH]; intros s Hs; [by eauto|].
  destruct (Hbody s x) as (s1 & Hrun & Hs1 & Hcalls); [left|done|].
  destruct (IH (λ s' y Hy, Hbody s' y (list_elem_of_further _ _ _ Hy)) s1 Hs1)
    as (s2 & Hrun2 & Hs2 & Hrest).
  cbn [for_each_py]. rewrite mask_calls_bind, py_bind_result, Hrun, Hcalls.
  rewrite bind_Ok, Hrest. eauto.
Qed.

Lemma fmap_enumerate_snd {A B : Type} (g : A → B) (l : list A) :
  (λ x : nat * A, g x.2) <$> enumerate l = g <$> l.
Proof. unfold enumerate. rewrite fmap_imap. apply imap_const. Qed.

Lemma concat_singletons_enumerate {A B : Type} (f : A → B) (l : list A) :
  concat ((λ x : nat * A, [f x.2]) <$> enumerate l) = f <$> l.
Proof.
  unfold enumerate. rewrite fmap_imap.
  rewrite (imap_const (λ x, [f x])).
  induction l as [|x l IH]; [done|]. simpl. by f_equal.
Qed.

(** X4. With a nonzero wavelength and a mask function that accepts its five
    arguments at every sample, [generate_incident_field] calls it once per sample, angle by
    angle and radius by radius within an angle, each time with the five
    numbers [rhop, phip, radius, focus, k] where [k = 2π/wavelength]. *)
Theorem generate_incident_field_calls
    (maskfunction : list pyarg → result C) (alpha focus : R)
    (resolution_phi resolution_theta : nat)
    (h psi delta radius I0 wavelength : R) :
  wavelength ≠ 0%R →
  (∀ rhop phip,
     ∃ z, maskfunction [AFloat rhop; AFloat phip; AFloat radius; AFloat focus;
                        AFloat (2 * PI / wavelength)%R] = Ok z) →
  mask_calls
    (generate_incident_field maskfunction alpha focus resolution_phi
       resolution_theta h psi delta radius I0 wavelength).1
  = concat
      ((λ phip,
          (λ theta, [AFloat (sin theta * focus)%R; AFloat phip; AFloat radius;
                     AFloat focus; AFloat (2 * PI / wavelength)%R])
          <$> linspace 0 alpha resolution_theta)
       <$> linspace 0 (2 * PI) resolution_phi).
Proof.
  intros _ Hmask. unfold generate_incident_field. cbv beta zeta.
  set (rhop_values := (λ t, sin t * focus)%R <$> linspace 0 alpha resolution_theta).
  set (phip_values := linspace 0 (2 * PI) resolution_phi).
  assert (length rhop_values = resolution_theta) as Hrhos
    by (unfold rhop_values; by rewrite length_fmap, length_linspace).
  assert (length phip_values = resolution_phi) as Hphis
    by apply length_linspace.
  set (P := λ st : matrix C * matrix C,
         has_shape st.1 resolution_phi resolution_theta
         ∧ has_shape st.2 resolution_phi resolution_theta).
  set (args := λ phip rhop : R,
         [AFloat rhop; AFloat phip; AFloat radius; AFloat focus;
          AFloat (2 * PI / wavelength)%R]).
  rewrite mask_calls_bind.
  edestruct (for_each_py_calls P
               (λ x : nat * R, args x.2 <$> rhop_values)
               (enumerate phip_values)) as ([ex ey] & Hrun & _ & Hcalls);
    [| |reflexivity|rewrite Hcalls, Hrun].
  - split; apply has_shape_zeros.
  - intros st [i phip] Hin Hst. cbv beta iota.
    apply elem_of_lookup_imap in Hin as (i' & phip' & [= <- <-] & Hphip).
    apply lookup_lt_Some in Hphip.
    apply (for_each_py_calls P (λ x : nat * R, [args phip x.2])); [done| |].
    + intros [ex ey] [j rhop] Hin [Hex Hey]. cbv beta iota.
      apply elem_of_lookup_imap in Hin as (j' & rhop' & [= <- <-] & Hrhop).
      apply lookup_lt_Some in Hrhop. simpl in Hex, Hey.
      destruct (Hmask rhop phip) as [z Hz].
      destruct (setitem2_inside ex _ _ i j
                  (RtoC (exp (- (rhop / radius) ^ 2)) * z)%C Hex)
        as (ex' & Hex' & ? & _); [lia..|].
      destruct (setitem2_inside ey _ _ i j
                  (RtoC (exp (- (rhop / radius) ^ 2)) * z)%C Hey)
        as (ey' & Hey' & ? & _); [lia..|].
      exists (ex', ey'). split_and!.
      * py_step. rewrite Hz. py_step. rewrite Hex'. py_step. rewrite Hey'.
        by py_step.
      * done.
      * rewrite mask_calls_bind. cbn [call fst snd]. rewrite Hz.
        rewrite mask_calls_bind. cbn [lift fst snd]. rewrite Hex'.
        rewrite mask_calls_bind. cbn [lift fst snd]. by rewrite Hey'.
    + symmetry. apply (concat_singletons_enumerate (args phip)).
  - cbv beta iota. simpl (mask_calls (mret _).1). rewrite app_nil_r.
    rewrite (fmap_enumerate_snd (λ phip, args phip <$> rhop_values)).
    f_equal. apply list_fmap_ext. intros _ phip _. unfold rhop_values.
    by rewrite <- list_fmap_compose.
Qed.

Lemma generate_incident_field_calls_witness :
  mask_calls
    (generate_incident_field (λ _, Ok (RtoC 1)) 1 1 2 2 1 45 90 1 1 1).1
  = concat
      ((λ phip,
          (λ theta, [AFloat (sin theta * 1)%R; AFloat phip; AFloat 1;
                     AFloat 1; AFloat (2 * PI / 1)%R])
          <$> linspace 0 1 2)
       <$> linspace 0 (2 * PI) 2).
Proof.
  apply (generate_incident_field_calls (λ _, Ok (RtoC 1)) 1 1 2 2 1 45 90 1 1 1);
    [lra|].
  intros _ _. by eexists.
Defined.

(** ** The mask function in [custom_mask_objective_field] *)

Lemma py_bind_emit {B : Type} (e : event) (f : unit → py B) :
  emit e ≫= f = (e :: (f ()).1, (f ()).2).
Proof. done. Qed.






(** ** Runs of the focal-region synthesizers *)

Lemma py_bind_assoc {A B D : Type} (m : py A) (f : A → py B) (g : B → py D) :
  (m ≫= f) ≫= g = m ≫= (λ a, f a ≫= g).
Proof.
  destruct m as [log [a|e]]; [|done].
  unfold mbind, py_bind. simpl.
  destruct (f a) as [log' [b|e]]; simpl; [|done].
  by rewrite app_assoc.
Qed.

Lemma py_bind_mret {A B : Type} (a : A) (f : A → py B) : mret a ≫= f = f a.
Proof. apply (py_bind_lift_Ok a f). Qed.

(** A progress bar around passes without events of their own logs one step
    per pass. *)
Lemma for_each_tqdm_lift {St : Type} (desc : string) (l : list nat)
    (g : St → nat → result St) (s s' : St) :
  for_each l g s = Ok s' →
  for_each_tqdm desc l (λ s i, lift (g s i)) s = (Progress desc <$> l, Ok s').
Proof.
  unfold for_each_tqdm. revert s.
  induction l as [|i l IH]; intros s Hrun; [by injection Hrun as <-|].
  simpl in Hrun. destruct (g s i) as [s1|e] eqn:Hg; [|done].
  cbn [for_each_py]. rewrite py_bind_assoc, py_bind_emit, Hg, py_bind_lift_Ok.
  by rewrite (IH s1 Hrun).
Qed.

(** Two nested loops over [enumerate] whose body keeps the invariant [P]. *)
Lemma nested_loops_inv {St : Type} (P : St → Prop) (outer inner : list R)
    (pt : nat → R → nat → R → St → result St) (s : St) :
  (∀ a x b y s, outer !! a = Some x → inner !! b = Some y → P s →
     ∃ s', pt a x b y s = Ok s' ∧ P s') →
  P s →
  ∃ s',
    for_each (enumerate outer) (λ s '(a, x),
      for_each (enumerate inner) (λ s '(b, y), pt a x b y s) s) s = Ok s'
    ∧ P s'.
Proof.
  intros Hpt Hs.
  apply (for_each_enumerate_inv (λ _ s, P s)); [done|].
  intros a x s0 Hx Hs0. cbv beta iota.
  apply (for_each_enumerate_inv (λ _ s, P s)); [done|].
  intros b y s1 Hy Hs1. cbv beta iota. by apply Hpt.
Qed.

(** The steps shared by the two synthesizers before their loops. *)
Ltac focus_prelude Hex Hey Htheta Hphi A HA :=
  rewrite rotate_180_rotate, py_bind_lift_Ok;
  rewrite rotate_270_rotate, py_bind_lift_Ok;
  unfold py_div; rewrite !decide_False by lia; rewrite !py_bind_lift_Ok;
  repeat match goal with
  | |- context [trapezoid_vector ?h ?n] =>
      let w := fresh "w" in
      let Hw := fresh "Hw" in
      destruct (trapezoid_vector_returns h n) as (w & -> & Hw); [lia|];
      rewrite py_bind_lift_Ok
  end;
  rewrite trapezoid_field_outer by (intros ->; simpl in *; lia);
  rewrite py_bind_lift_Ok;
  match goal with
  | |- context [coupling_arrays ?ex ?ey (outer_product ?wr ?wp) ?th ?ph] =>
      let Hweight := fresh "Hweight" in
      pose proof (has_shape_outer_product wr wp) as Hweight;
      destruct (coupling_arrays_returns ex ey (outer_product wr wp) th ph _ _
                  (has_shape_rotate _ _ _ _ Hex) (has_shape_rotate _ _ _ _ Hey))
        as (A & -> & HA); [congruence|exact Htheta|exact Hphi|];
      rewrite py_bind_lift_Ok
  end.

(** X7. For a nonzero wavelength, on incident fields of the shape of the
    angular grids, with at least one sample on each angular axis,
    [custom_mask_focus_field] returns three
    square arrays of side [resolution_focus].  With the countdown it prints
    its message, pauses, and reports one progress step per column of the
    output; without it it does nothing observable at all. *)
Theorem focus_field_run (ex_lens ey_lens : matrix C)
    (alpha h Lambda zp0 : R)
    (resolution_focus resolution_theta resolution_phi : nat) (FOV_focus : R)
    (countdown : bool) (x0 y0 : R) :
  Lambda ≠ 0%R →
  has_shape ex_lens resolution_phi resolution_theta →
  has_shape ey_lens resolution_phi resolution_theta →
  1 ≤ resolution_theta → 1 ≤ resolution_phi →
  ∃ ex ey ez,
    custom_mask_focus_field ex_lens ey_lens alpha h Lambda zp0
      resolution_focus resolution_theta resolution_phi FOV_focus countdown
      x0 y0
    = ((if countdown
        then [Print "Calculating field at the focal plane:"; Sleep 500]
               ++ (Progress "XY plane" <$> range resolution_focus)
        else []),
       Ok (ex, ey, ez))
    ∧ has_shape ex resolution_focus resolution_focus
    ∧ has_shape ey resolution_focus resolution_focus
    ∧ has_shape ez resolution_focus resolution_focus.
Proof.
  intros _ Hex Hey Hrt Hrp. unfold custom_mask_focus_field.
  cbv beta iota zeta delta [meshgrid].
  destruct (has_shape_meshgrid_linspace 0 alpha 0 (2 * PI)
              resolution_theta resolution_phi) as [Htheta Hphi].
  set (x_values := linspace (- (FOV_focus / 2) + x0) (FOV_focus / 2 + x0)
                     resolution_focus).
  set (y_values := linspace (FOV_focus / 2 + y0) (- (FOV_focus / 2) + y0)
                     resolution_focus).
  assert (length x_values = resolution_focus) as Hxs by apply length_linspace.
  assert (length y_values = resolution_focus) as Hys by apply length_linspace.
  assert (∀ A, coupling_shape A resolution_phi resolution_theta →
            ∃ st,
              for_each (enumerate x_values) (λ st '(i, x),
                for_each (enumerate y_values) (λ st '(j, y),
                  point_field A
                    ((λ _ : R, linspace 0 alpha resolution_theta)
                       <$> linspace 0 (2 * PI) resolution_phi)
                    ((λ y0 : R, (λ _ : R, y0)
                       <$> linspace 0 alpha resolution_theta)
                       <$> linspace 0 (2 * PI) resolution_phi)
                    (sqrt (x ^ 2 + y ^ 2) * 2 * PI / (Lambda * 10 ^ 6))
                    (arctan2 y x) (zp0 * 2 * PI / (Lambda * 10 ^ 6)) i j st) st)
                (zeros resolution_focus resolution_focus,
                 zeros resolution_focus resolution_focus,
                 zeros resolution_focus resolution_focus) = Ok st
              ∧ field_shape st resolution_focus resolution_focus) as Hloop.
  { intros A HA.
    apply (nested_loops_inv
             (λ st, field_shape st resolution_focus resolution_focus)
             x_values y_values
             (λ i x j y st, point_field A _ _ _ _ _ i j st)).
    - intros i x j y st Hx Hy Hst. apply lookup_lt_Some in Hx, Hy.
      eapply point_field_returns; [done..|lia|lia].
    - split_and!; apply has_shape_zeros. }
  destruct countdown.
  - rewrite py_bind_assoc, !py_bind_emit. cbn [fst snd].
    focus_prelude Hex Hey Htheta Hphi A HA.
    destruct (Hloop A HA) as ([[ex ey] ez] & Hrun & Hsx & Hsy & Hsz).
    rewrite <- (for_each_range_enumerate x_values (λ st i x,
      for_each (enumerate y_values) (λ st '(j, y),
        point_field A _ _ _ _ _ i j st) st)) in Hrun.
    rewrite Hxs in Hrun.
    rewrite (for_each_tqdm_lift "XY plane" _ _ _ _ Hrun).
    eexists _, _, _.
    split; [unfold mbind, py_bind, mret, py_ret; cbn [fst snd];
            by rewrite app_nil_r|].
    split_and!; by apply has_shape_mmap.
  - rewrite py_bind_mret.
    focus_prelude Hex Hey Htheta Hphi A HA.
    destruct (Hloop A HA) as ([[ex ey] ez] & -> & Hsx & Hsy & Hsz).
    rewrite py_bind_lift_Ok.
    eexists _, _, _. split; [done|split_and!; by apply has_shape_mmap].
Qed.

Lemma focus_field_run_witness :
  ∃ ex ey ez,
    custom_mask_focus_field [[RtoC 1]] [[RtoC 1]] 1 1 1 0 2 1 1 1 true 0 0
    = ((if true
        then [Print "Calculating field at the focal plane:"; Sleep 500]
               ++ (Progress "XY plane" <$> range 2)
        else []),
       Ok (ex, ey, ez))
    ∧ has_shape ex 2 2 ∧ has_shape ey 2 2 ∧ has_shape ez 2 2.
Proof.
  apply (focus_field_run [[RtoC 1]] [[RtoC 1]] 1 1 1 0 2 1 1 1 true 0 0).
  - lra.
  - split; [reflexivity|]. repeat constructor.
  - split; [reflexivity|]. repeat constructor.
  - lia.
  - lia.
Defined.

(** X8. For a nonzero wavelength, with the selector ['X'] or ['Y'], on
    incident fields of the shape of the angular grids, the XY+axial
    synthesizer returns.  Its last three
    arrays and the first part of its events are those of
    [custom_mask_focus_field] with the countdown; then it reports one
    progress step per axial sample, under the label of the chosen plane, and
    its first three arrays have one row per axial sample (the count forced
    to odd) and [resolution_focus] columns. *)
Theorem axial_plane_run (ex_lens ey_lens : matrix C)
    (alpha h Lambda z_FOV : R) (resolution_z : nat) (zp0 : R)
    (resolution_focus resolution_theta resolution_phi : nat) (FOV_focus : R)
    (x0 y0 : R) (plot_plane : string) :
  Lambda ≠ 0%R →
  plot_plane = "X" ∨ plot_plane = "Y" →
  has_shape ex_lens resolution_phi resolution_theta →
  has_shape ey_lens resolution_phi resolution_theta →
  1 ≤ resolution_theta → 1 ≤ resolution_phi →
  ∃ log Ex_XY Ey_XY Ez_XY Ex_XZ Ey_XZ Ez_XZ,
    custom_mask_focus_field ex_lens ey_lens alpha h Lambda zp0
      resolution_focus resolution_theta resolution_phi FOV_focus true x0 y0
    = (log, Ok (Ex_XY, Ey_XY, Ez_XY))
    ∧ custom_mask_focus_field_XZ_XY ex_lens ey_lens alpha h Lambda z_FOV
        resolution_z zp0 resolution_focus resolution_theta resolution_phi
        FOV_focus x0 y0 plot_plane
      = (log ++ (Progress (if decide (plot_plane = "X")
                           then "XZ plane" else "YZ plane")
                 <$> range (axial_count resolution_z)),
         Ok (Ex_XZ, Ey_XZ, Ez_XZ, Ex_XY, Ey_XY, Ez_XY))
    ∧ has_shape Ex_XZ (axial_count resolution_z) resolution_focus
    ∧ has_shape Ey_XZ (axial_count resolution_z) resolution_focus
    ∧ has_shape Ez_XZ (axial_count resolution_z) resolution_focus.
Proof.
  intros _ Hplane Hex Hey Hrt Hrp.
  destruct (custom_mask_focus_field_returns ex_lens ey_lens alpha h Lambda zp0
              resolution_focus resolution_theta resolution_phi FOV_focus x0 y0
              Hex Hey Hrt Hrp) as ([[Ex_XY Ey_XY] Ez_XY] & Hxy & _).
  unfold custom_mask_focus_field_XZ_XY.
  destruct (custom_mask_focus_field _ _ _ _ _ _ _ _ _ _ _ _ _) as [log r].
  simpl in Hxy. subst r. exists log, Ex_XY, Ey_XY, Ez_XY.
  cbv beta iota zeta delta [meshgrid].
  destruct (has_shape_meshgrid_linspace 0 alpha 0 (2 * PI)
              resolution_theta resolution_phi) as [Htheta Hphi].
  set (x_values := linspace (- (FOV_focus * sqrt 2 / 2) + x0)
                     (FOV_focus * sqrt 2 / 2 + x0) resolution_focus).
  assert (length x_values = resolution_focus) as Hxs by apply length_linspace.
  assert (length (axial_grid z_FOV resolution_z) = axial_count resolution_z)
    as Hzs by apply length_linspace.
  unfold mbind at 1. unfold py_bind at 1. cbn [fst snd].
  focus_prelude Hex Hey Htheta Hphi A HA.
  assert (∀ f : R → R → R * R * R,
            ∃ st,
              for_each (range (axial_count resolution_z)) (λ st j,
                zp0 ← getitem (axial_grid z_FOV resolution_z) (Z.of_nat j);
                for_each (enumerate x_values) (λ st '(i, x),
                  point_field A
                    ((λ _ : R, linspace 0 alpha resolution_theta)
                       <$> linspace 0 (2 * PI) resolution_phi)
                    ((λ y0 : R, (λ _ : R, y0)
                       <$> linspace 0 alpha resolution_theta)
                       <$> linspace 0 (2 * PI) resolution_phi)
                    (f zp0 x).1.1 (f zp0 x).1.2 (f zp0 x).2 i j st) st)
                (zeros (axial_count resolution_z) resolution_focus,
                 zeros (axial_count resolution_z) resolution_focus,
                 zeros (axial_count resolution_z) resolution_focus) = Ok st
              ∧ field_shape st (axial_count resolution_z) resolution_focus)
    as Hloop.
  { intros f.
    replace (range (axial_count resolution_z))
      with (range (length (axial_grid z_FOV resolution_z)))
      by (by rewrite Hzs).
    rewrite (for_each_range_enumerate (axial_grid z_FOV resolution_z)
               (λ st j zp0,
                  for_each (enumerate x_values) (λ st '(i, x),
                    point_field A _ _ (f zp0 x).1.1 (f zp0 x).1.2 (f zp0 x).2
                      i j st) st)).
    apply (nested_loops_inv
             (λ st, field_shape st (axial_count resolution_z) resolution_focus)
             (axial_grid z_FOV resolution_z) x_values
             (λ j zp0 i x st,
                point_field A _ _ (f zp0 x).1.1 (f zp0 x).1.2 (f zp0 x).2
                  i j st)).
    - intros j z i x st Hz Hx Hst. apply lookup_lt_Some in Hz, Hx.
      eapply point_field_returns; [done..|lia|lia].
    - split_and!; apply has_shape_zeros. }
  destruct Hplane as [-> | ->].
  - rewrite decide_True by done.
    destruct (Hloop (λ zp0 x, (Rabs x * 2 * PI / (Lambda * 10 ^ 6),
                               arctan2 0 x,
                               zp0 * 2 * PI / (Lambda * 10 ^ 6))%R))
      as ([[ex ey] ez] & Hrun & Hsx & Hsy & Hsz).
    cbn [fst snd] in Hrun.
    rewrite (for_each_tqdm_lift "XZ plane" _ _ _ _ Hrun).
    eexists _, _, _. split; [done|].
    split; [unfold mbind, py_bind, mret, py_ret; cbn [fst snd];
            by rewrite !app_nil_r|].
    split_and!; by apply has_shape_mmap.
  - rewrite decide_False, decide_True by done.
    destruct (Hloop (λ zp0 y, (Rabs y * 2 * PI / (Lambda * 10 ^ 6),
                               arctan2 y 0,
                               zp0 * 2 * PI / (Lambda * 10 ^ 6))%R))
      as ([[ex ey] ez] & Hrun & Hsx & Hsy & Hsz).
    cbn [fst snd] in Hrun.
    rewrite (for_each_tqdm_lift "YZ plane" _ _ _ _ Hrun).
    eexists _, _, _. split; [done|].
    split; [unfold mbind, py_bind, mret, py_ret; cbn [fst snd];
            by rewrite !app_nil_r|].
    split_and!; by apply has_shape_mmap.
Qed.

Lemma axial_plane_run_witness :
  ∃ log Ex_XY Ey_XY Ez_XY Ex_XZ Ey_XZ Ez_XZ,
    custom_mask_focus_field [[RtoC 1]] [[RtoC 1]] 1 1 1 0 1 1 1 1 true 0 0
    = (log, Ok (Ex_XY, Ey_XY, Ez_XY))
    ∧ custom_mask_focus_field_XZ_XY [[RtoC 1]] [[RtoC 1]] 1 1 1 1 2 0 1 1 1 1
        0 0 "Y"
      = (log ++ (Progress (if decide ("Y" = "X")
                           then "XZ plane" else "YZ plane")
                 <$> range (axial_count 2)),
         Ok (Ex_XZ, Ey_XZ, Ez_XZ, Ex_XY, Ey_XY, Ez_XY))
    ∧ has_shape Ex_XZ (axial_count 2) 1
    ∧ has_shape Ey_XZ (axial_count 2) 1
    ∧ has_shape Ez_XZ (axial_count 2) 1.
Proof.
  apply (axial_plane_run [[RtoC 1]] [[RtoC 1]] 1 1 1 1 2 0 1 1 1 1 0 0 "Y").
  - lra.
  - by right.
  - split; [reflexivity|]. repeat constructor.
  - split; [reflexivity|]. repeat constructor.
  - lia.
  - lia.
Defined.

Lemma py_bind_lift_Raise {A B : Type} (e : exn) (f : A → py B) :
  lift (Raise e) ≫= f = ([], Raise e).
Proof. done. Qed.

(** X9. Without any azimuthal sample the single-plane synthesizer stops
    with [ZeroDivisionError] when it computes the steps of the weights:
    after its message and pause if the countdown is on, before any output
    point. *)
Theorem focus_field_no_azimuthal_sample (ex_lens ey_lens : matrix C)
    (alpha h Lambda zp0 : R) (resolution_focus resolution_theta : nat)
    (FOV_focus : R) (countdown : bool) (x0 y0 : R) :
  custom_mask_focus_field ex_lens ey_lens alpha h Lambda zp0 resolution_focus
    resolution_theta 0 FOV_focus countdown x0 y0
  = ((if countdown
      then [Print "Calculating field at the focal plane:"; Sleep 500]
      else []),
     Raise ZeroDivisionError).
Proof.
  unfold custom_mask_focus_field. cbv beta iota zeta delta [meshgrid].
  destruct countdown.
  - rewrite py_bind_assoc, !py_bind_emit. cbn [fst snd].
    rewrite rotate_180_rotate, py_bind_lift_Ok.
    rewrite rotate_270_rotate, py_bind_lift_Ok.
    unfold py_div. destruct (decide (resolution_theta = 0)); [done|].
    by rewrite py_bind_lift_Ok.
  - rewrite py_bind_mret.
    rewrite rotate_180_rotate, py_bind_lift_Ok.
    rewrite rotate_270_rotate, py_bind_lift_Ok.
    unfold py_div. destruct (decide (resolution_theta = 0)); [done|].
    by rewrite py_bind_lift_Ok.
Qed.

Lemma bdim_mismatch (n m : nat) :
  n ≠ m → n ≠ 1 → m ≠ 1 → bdim n m = Raise ValueError.
Proof. intros. unfold bdim. by rewrite !decide_False. Qed.

Lemma couple_row_mismatch (prefactor : matrix R) (lens : matrix C)
    (weight : matrix R) (r c : nat) :
  has_shape prefactor r c → 1 ≤ r →
  length lens ≠ r → length lens ≠ 1 → r ≠ 1 →
  couple prefactor lens weight = Raise ValueError.
Proof.
  intros Hp Hr Hne Hne1 Hr1. unfold couple, ew2.
  rewrite (shape_has_shape prefactor r c) by (done || lia).
  unfold shape. cbn [fst snd].
  by rewrite (bdim_mismatch r (length lens)) by (done || lia).
Qed.

(** X10. For a nonzero wavelength, an X incident field whose number of rows is neither one nor the
    number of azimuthal samples (itself more than one) does not broadcast
    against the angular grids: the single-plane synthesizer raises
    [ValueError] when it builds the first coupling array. *)
Theorem focus_field_row_mismatch (ex_lens ey_lens : matrix C)
    (alpha h Lambda zp0 : R)
    (resolution_focus resolution_theta resolution_phi : nat) (FOV_focus : R)
    (countdown : bool) (x0 y0 : R) :
  Lambda ≠ 0%R →
  1 ≤ resolution_theta →
  length ex_lens ≠ resolution_phi → length ex_lens ≠ 1 →
  2 ≤ resolution_phi →
  (custom_mask_focus_field ex_lens ey_lens alpha h Lambda zp0 resolution_focus
     resolution_theta resolution_phi FOV_focus countdown x0 y0).2
  = Raise ValueError.
Proof.
  intros _ Hrt Hne Hne1 Hrp. unfold custom_mask_focus_field.
  cbv beta iota zeta delta [meshgrid].
  destruct (has_shape_meshgrid_linspace 0 alpha 0 (2 * PI)
              resolution_theta resolution_phi) as [Htheta Hphi].
  rewrite py_bind_result.
  assert ((if countdown
           then emit (Print "Calculating field at the focal plane:")
                ≫= λ _, emit (Sleep 500)
           else mret ()).2 = Ok ()) as -> by by destruct countdown.
  rewrite bind_Ok. py_step. rewrite rotate_180_rotate. py_step.
  rewrite rotate_270_rotate. py_step.
  unfold py_div. rewrite !decide_False by lia. do 2 py_step.
  destruct (trapezoid_vector_returns (alpha / INR resolution_theta)
              resolution_theta) as (wr & -> & Hwr); [lia|].
  py_step.
  destruct (trapezoid_vector_returns (2 * PI / INR resolution_phi)
              resolution_phi) as (wp & -> & Hwp); [lia|].
  py_step. rewrite trapezoid_field_outer by (intros ->; simpl in *; lia).
  py_step.
  assert (∀ w theta phi,
            has_shape theta resolution_phi resolution_theta →
            has_shape phi resolution_phi resolution_theta →
            coupling_arrays (rotate (length ex_lens / 2) ex_lens)
              (rotate (3 * length ey_lens / 4) ey_lens) w theta phi
            = Raise ValueError) as ->; [|done..].
  intros w theta phi Ht Hp. unfold coupling_arrays. cbv zeta.
  set (px := mzip3 (λ g c s2 : R, g * (c + (1 - c) * s2))%R _ _ _).
  assert (has_shape px resolution_phi resolution_theta) as Hpx.
  { apply has_shape_mzip3; [|by repeat apply has_shape_mmap..].
    apply has_shape_mzip; by repeat apply has_shape_mmap. }
  rewrite (couple_row_mismatch px _ w resolution_phi resolution_theta);
    [done|done|lia|rewrite length_rotate..|lia]; done.
Qed.

Lemma focus_field_row_mismatch_witness :
  (custom_mask_focus_field [[RtoC 1]; [RtoC 1]; [RtoC 1]] [[RtoC 1]] 1 1 1 0
     1 1 2 1 true 0 0).2
  = Raise ValueError.
Proof.
  apply (focus_field_row_mismatch [[RtoC 1]; [RtoC 1]; [RtoC 1]] [[RtoC 1]]
           1 1 1 0 1 1 2 1 true 0 0);
    [lra|simpl; lia..].
Defined.

(** ** The focal field, cell by cell *)

(** One pass of the loops writes the three sums of its point into the cell
    [(j, i)] of the three arrays and leaves every other cell as it was. *)
Lemma point_field_cells
    (A : matrix C * matrix C * matrix C * matrix C * matrix C * matrix C)
    (theta phi : matrix R) (kr phip kz : R) (i j r c rows cols : nat)
    (st : matrix C * matrix C * matrix C) :
  coupling_shape A r c → has_shape theta r c → has_shape phi r c →
  field_shape st rows cols → j < rows → i < cols →
  ∃ v st',
    point_sums A theta phi kr phip kz v
    ∧ point_field A theta phi kr phip kz i j st = Ok st'
    ∧ field_shape st' rows cols
    ∧ ∀ j' i',
        cell st'.1.1 j' i'
        = (if decide (j' = j ∧ i' = i) then Some v.1.1 else cell st.1.1 j' i')
        ∧ cell st'.1.2 j' i'
          = (if decide (j' = j ∧ i' = i) then Some v.1.2
             else cell st.1.2 j' i')
        ∧ cell st'.2 j' i'
          = (if decide (j' = j ∧ i' = i) then Some v.2 else cell st.2 j' i').
Proof.
  intros HA Ht Hp Hst Hj Hi.
  destruct A as [[[[[Axx Axy] Axz] Ayx] Ayy] Ayz], st as [[ex ey] ez].
  destruct HA as (? & ? & ? & ? & ? & ?), Hst as (Hex & Hey & Hez).
  unfold point_sums, point_field. cbv zeta.
  repeat match goal with
  | |- context [integrate ?a ?p] =>
      destruct (integrate_returns a p r c) as [? ->];
        [done|apply has_shape_mzip3; (done || by apply has_shape_mmap)|];
      rewrite ?bind_Ok
  end.
  destruct (setitem2_inside ex rows cols j i (x4 + x3)%C) as (ex' & Hx & ? & Hcx);
    [done..|].
  destruct (setitem2_inside ey rows cols j i (x2 + x1)%C) as (ey' & Hy & ? & Hcy);
    [done..|].
  destruct (setitem2_inside ez rows cols j i (x0 + x)%C) as (ez' & Hz & ? & Hcz);
    [done..|].
  exists ((x4 + x3)%C, (x2 + x1)%C, (x0 + x)%C), (ex', ey', ez').
  split; [done|]. split.
  { by rewrite Hx, bind_Ok, !bind_Ok, Hy, bind_Ok, !bind_Ok, Hz. }
  split; [done|]. intros j' i'. cbn [fst snd]. by rewrite Hcx, Hcy, Hcz.
Qed.

(** A double loop whose passes each write the cell of their own place fills
    the arrays with the values of the passes. *)
Lemma field_loops_cells (val : R → R → C * C * C → Prop)
    (place : nat → nat → nat * nat) (outer inner : list R) (rows cols : nat)
    (pt : nat → R → nat → R → matrix C * matrix C * matrix C
          → result (matrix C * matrix C * matrix C))
    (st : matrix C * matrix C * matrix C) :
  (∀ a b a' b', place a b = place a' b' → a = a' ∧ b = b') →
  (∀ a x b y st,
     outer !! a = Some x → inner !! b = Some y → field_shape st rows cols →
     ∃ v st',
       val x y v ∧ pt a x b y st = Ok st' ∧ field_shape st' rows cols
       ∧ ∀ j' i',
           cell st'.1.1 j' i'
           = (if decide (j' = (place a b).1 ∧ i' = (place a b).2)
              then Some v.1.1 else cell st.1.1 j' i')
           ∧ cell st'.1.2 j' i'
             = (if decide (j' = (place a b).1 ∧ i' = (place a b).2)
                then Some v.1.2 else cell st.1.2 j' i')
           ∧ cell st'.2 j' i'
             = (if decide (j' = (place a b).1 ∧ i' = (place a b).2)
                then Some v.2 else cell st.2 j' i')) →
  field_shape st rows cols →
  ∃ st',
    for_each (enumerate outer) (λ s '(a, x),
      for_each (enumerate inner) (λ s '(b, y), pt a x b y s) s) st = Ok st'
    ∧ field_inv val place outer inner rows cols (length outer) 0 st'.
Proof.
  intros Hinj Hpt Hst.
  apply (for_each_enumerate_inv
           (λ a s, field_inv val place outer inner rows cols a 0 s)).
  { split; [done|]. intros; lia. }
  intros a x s Hx Hs. cbv beta iota.
  destruct (for_each_enumerate_inv
              (λ b s, field_inv val place outer inner rows cols a b s) inner
              (λ s '(b, y), pt a x b y s) s Hs) as (s' & Hrun & Hinv).
  - intros b y s0 Hy [Hsh Hcells]. cbv beta iota.
    destruct (Hpt a x b y s0 Hx Hy Hsh) as (v & s1 & Hv & Hrun & Hsh1 & Hc).
    exists s1. split; [done|]. split; [done|].
    intros a' b' x' y' Hx' Hy' Hvis.
    destruct (Hc (place a' b').1 (place a' b').2) as (-> & -> & ->).
    destruct (decide (a' = a ∧ b' = b)) as [[-> ->]|Hne].
    + exists v. assert (x' = x) as -> by congruence.
      assert (y' = y) as -> by congruence.
      by rewrite !decide_True by done.
    + destruct (Hcells a' b' x' y' Hx' Hy') as (v' & Hv' & H1 & H2 & H3);
        [lia|].
      exists v'. split; [done|].
      rewrite !decide_False; [done|intros [E1 E2]; apply Hne, Hinj;
                              by apply injective_projections..].
  - exists s'. split; [done|]. destruct Hinv as [Hsh Hcells].
    split; [done|]. intros a' b' x' y' Hx' Hy' Hvis.
    apply (Hcells a' b' x' y'); [done..|].
    apply lookup_lt_Some in Hy'. lia.
Qed.

(** ** A dark pupil *)

Lemma rotate_zeros (n a b : nat) : rotate n (zeros a b) = zeros a b.
Proof. apply rotate_replicate. Qed.

Lemma mzip_zeros_r {A : Type} (f : A → C → C) (a : matrix A) (r c : nat) :
  has_shape a r c → (∀ x, f x C0 = C0) → mzip f a (zeros r c) = zeros r c.
Proof.
  intros [Hr Hc] Hf. unfold mzip, zeros.
  rewrite zip_with_replicate_r_eq by done.
  symmetry. apply replicate_as_Forall. split; [by rewrite length_fmap|].
  apply Forall_fmap. eapply Forall_impl; [exact Hc|].
  intros row Hrow. simpl. unfold flip.
  rewrite zip_with_replicate_r_eq by done.
  apply replicate_as_Forall. split; [by rewrite length_fmap|].
  apply Forall_fmap, Forall_true. intros x. simpl. by rewrite Hf.
Qed.

Lemma mzip_zeros_l {B : Type} (f : C → B → C) (b : matrix B) (r c : nat) :
  has_shape b r c → (∀ y, f C0 y = C0) → mzip f (zeros r c) b = zeros r c.
Proof.
  intros [Hr Hc] Hf. unfold mzip, zeros.
  rewrite zip_with_replicate_l by lia.
  symmetry. apply replicate_as_Forall. split; [by rewrite length_fmap|].
  apply Forall_fmap. eapply Forall_impl; [exact Hc|].
  intros row Hrow. simpl in *.
  rewrite zip_with_replicate_l by lia.
  apply replicate_as_Forall. split; [by rewrite length_fmap|].
  apply Forall_fmap, Forall_true. intros x. simpl. by rewrite Hf.
Qed.

Lemma Cmul_0_l (z : C) : (C0 * z)%C = C0.
Proof. unfold Cmul, C0. simpl. f_equal; ring. Qed.

Lemma Cmul_0_r (z : C) : (z * C0)%C = C0.
Proof. unfold Cmul, C0. simpl. f_equal; ring. Qed.

Lemma Cadd_0_0 : (C0 + C0)%C = C0.
Proof. unfold Cadd, C0. simpl. f_equal; ring. Qed.

Lemma Csum_zeros (r c : nat) : Csum (zeros r c) = C0.
Proof.
  unfold Csum, zeros. induction r as [|r IH]; [done|].
  simpl. rewrite foldr_app, IH. clear IH.
  induction c as [|c IH]; [done|]. simpl. by rewrite IH, Cadd_0_0.
Qed.

(** The coupling arrays of a dark pupil are zero. *)
Lemma couple_zeros (prefactor weight : matrix R) (r c : nat) :
  has_shape prefactor r c → has_shape weight r c →
  couple prefactor (zeros r c) weight = Ok (zeros r c).
Proof.
  intros Hp Hw. unfold couple.
  rewrite (ew2_same_shape _ _ _ r c), bind_Ok by (done || apply has_shape_zeros).
  rewrite mzip_zeros_r by (done || intros; apply Cmul_0_r).
  rewrite (ew2_same_shape _ _ _ r c) by (done || apply has_shape_zeros).
  by rewrite mzip_zeros_l by (done || intros; apply Cmul_0_l).
Qed.

Lemma coupling_arrays_zeros (weight theta phi : matrix R) (r c : nat) :
  has_shape weight r c → has_shape theta r c → has_shape phi r c →
  coupling_arrays (zeros r c) (zeros r c) weight theta phi
  = Ok (zeros r c, zeros r c, zeros r c, zeros r c, zeros r c, zeros r c).
Proof.
  intros Hw Ht Hp. unfold coupling_arrays. cbv zeta.
  rewrite !couple_zeros, !bind_Ok;
    repeat first [done | apply has_shape_mzip3 | apply has_shape_mzip
                 | apply has_shape_mmap].
Qed.

Lemma integrate_zeros (phase : matrix C) (r c : nat) :
  has_shape phase r c → integrate (zeros r c) phase = Ok C0.
Proof.
  intros Hp. unfold integrate.
  rewrite (ew2_same_shape _ _ _ r c), bind_Ok by (done || apply has_shape_zeros).
  rewrite mzip_zeros_l by (done || intros; apply Cmul_0_l).
  by rewrite Csum_zeros.
Qed.

Lemma setitem2_zeros (r c j i : nat) :
  j < r → i < c →
  setitem2 (zeros r c) (Z.of_nat j) (Z.of_nat i) C0 = Ok (zeros r c).
Proof.
  intros Hj Hi. unfold setitem2, zeros.
  rewrite (getitem_lookup _ j (replicate c C0))
    by (by apply lookup_replicate_2).
  rewrite bind_Ok, setitem_nat, bind_Ok by (rewrite length_replicate; lia).
  rewrite setitem_nat by (rewrite length_replicate; lia).
  by rewrite !insert_replicate.
Qed.

(** One pass of the loops over zero coupling arrays leaves arrays of zeros
    as they are. *)
Lemma point_field_zeros (theta phi : matrix R) (kr phip kz : R)
    (i j r c rows cols : nat) :
  has_shape theta r c → has_shape phi r c → j < rows → i < cols →
  point_field
    (zeros r c, zeros r c, zeros r c, zeros r c, zeros r c, zeros r c)
    theta phi kr phip kz i j
    (zeros rows cols, zeros rows cols, zeros rows cols)
  = Ok (zeros rows cols, zeros rows cols, zeros rows cols).
Proof.
  intros Ht Hp Hj Hi. unfold point_field. cbv zeta.
  rewrite !(integrate_zeros _ r c)
    by (apply has_shape_mzip3; (done || by apply has_shape_mmap)).
  rewrite !bind_Ok, Cadd_0_0.
  rewrite setitem2_zeros, !bind_Ok, Cadd_0_0 by done.
  rewrite setitem2_zeros, !bind_Ok, Cadd_0_0 by done.
  by rewrite setitem2_zeros by done.
Qed.

(** X13. A dark pupil gives a dark focus: for an aperture angle above zero
    and up to [π/2] and a nonzero wavelength, on incident fields of zeros,
    with at least one sample on each angular axis, every array returned by the
    two synthesizers is an array of zeros, whatever the other parameters
    and the plane selector. *)
Theorem dark_pupil_dark_focus (alpha h Lambda z_FOV : R) (resolution_z : nat)
    (zp0 : R) (resolution_focus resolution_theta resolution_phi : nat)
    (FOV_focus : R) (countdown : bool) (x0 y0 : R) (plot_plane : string) :
  (0 < alpha <= PI / 2)%R → Lambda ≠ 0%R →
  1 ≤ resolution_theta → 1 ≤ resolution_phi →
  (custom_mask_focus_field (zeros resolution_phi resolution_theta)
     (zeros resolution_phi resolution_theta) alpha h Lambda zp0
     resolution_focus resolution_theta resolution_phi FOV_focus countdown
     x0 y0).2
  = Ok (zeros resolution_focus resolution_focus,
        zeros resolution_focus resolution_focus,
        zeros resolution_focus resolution_focus)
  ∧ (custom_mask_focus_field_XZ_XY (zeros resolution_phi resolution_theta)
       (zeros resolution_phi resolution_theta) alpha h Lambda z_FOV
       resolution_z zp0 resolution_focus resolution_theta resolution_phi
       FOV_focus x0 y0 plot_plane).2
    = Ok (zeros (axial_count resolution_z) resolution_focus,
          zeros (axial_count resolution_z) resolution_focus,
          zeros (axial_count resolution_z) resolution_focus,
          zeros resolution_focus resolution_focus,
          zeros resolution_focus resolution_focus,
          zeros resolution_focus resolution_focus).
Proof.
  intros _ _ Hrt Hrp.
  destruct (has_shape_meshgrid_linspace 0 alpha 0 (2 * PI)
              resolution_theta resolution_phi) as [Htheta Hphi].
  destruct (trapezoid_vector_returns (alpha / INR resolution_theta)
              resolution_theta Hrt) as (wr & Hwr & Hlr).
  destruct (trapezoid_vector_returns (2 * PI / INR resolution_phi)
              resolution_phi Hrp) as (wp & Hwp & Hlp).
  pose proof (has_shape_outer_product wr wp) as Hweight.
  rewrite Hlr, Hlp in Hweight.
  pose (dark := (zeros resolution_phi resolution_theta,
                 zeros resolution_phi resolution_theta,
                 zeros resolution_phi resolution_theta,
                 zeros resolution_phi resolution_theta,
                 zeros resolution_phi resolution_theta,
                 zeros resolution_phi resolution_theta)).
  pose (theta := (λ _ : R, linspace 0 alpha resolution_theta)
                   <$> linspace 0 (2 * PI) resolution_phi).
  pose (phi := (λ y : R, (λ _ : R, y) <$> linspace 0 alpha resolution_theta)
                 <$> linspace 0 (2 * PI) resolution_phi).
  assert (∀ (outer inner : list R) (rows cols : nat)
            (place : nat → nat → nat * nat) (f : R → R → R * R * R),
            (∀ a b, a < length outer → b < length inner →
               (place a b).1 < rows ∧ (place a b).2 < cols) →
            for_each (enumerate outer) (λ st '(a, x),
              for_each (enumerate inner) (λ st '(b, y),
                point_field dark theta phi (f x y).1.1 (f x y).1.2 (f x y).2
                  (place a b).2 (place a b).1 st) st)
              (zeros rows cols, zeros rows cols, zeros rows cols)
            = Ok (zeros rows cols, zeros rows cols, zeros rows cols))
    as Hloop.
  { intros outer inner rows cols place f Hplace.
    edestruct (nested_loops_inv
                 (λ st, st = (zeros rows cols, zeros rows cols, zeros rows cols))
                 outer inner
                 (λ a x b y st,
                    point_field dark theta phi
                      (f x y).1.1 (f x y).1.2 (f x y).2
                      (place a b).2 (place a b).1 st))
      as (st & Hrun & ->); [|reflexivity|exact Hrun].
    intros a x b y st Hx Hy ->. apply lookup_lt_Some in Hx, Hy.
    destruct (Hplace a b Hx Hy). eexists. split; [|done].
    by apply (point_field_zeros _ _ _ _ _ _ _ resolution_phi resolution_theta). }
  subst dark theta phi.
  assert (∀ countdown,
            (custom_mask_focus_field (zeros resolution_phi resolution_theta)
               (zeros resolution_phi resolution_theta) alpha h Lambda zp0
               resolution_focus resolution_theta resolution_phi FOV_focus
               countdown x0 y0).2
            = Ok (zeros resolution_focus resolution_focus,
                  zeros resolution_focus resolution_focus,
                  zeros resolution_focus resolution_focus)) as Hxy.
  { clear countdown. intros countdown. unfold custom_mask_focus_field.
    cbv beta iota zeta delta [meshgrid].
    rewrite py_bind_result.
    assert ((if countdown
             then emit (Print "Calculating field at the focal plane:")
                  ≫= λ _, emit (Sleep 500)
             else mret ()).2 = Ok ()) as -> by by destruct countdown.
    rewrite bind_Ok. py_step. rewrite rotate_180_rotate. py_step.
    rewrite rotate_270_rotate. py_step.
    unfold py_div. rewrite !decide_False by lia. do 2 py_step.
    rewrite Hwr. py_step. rewrite Hwp. py_step.
    rewrite trapezoid_field_outer by (intros ->; simpl in *; lia).
    py_step. rewrite !rotate_zeros.
    rewrite coupling_arrays_zeros by done.
    py_step. rewrite py_bind_result.
    set (x_values := linspace (- (FOV_focus / 2) + x0) (FOV_focus / 2 + x0)
                       resolution_focus).
    set (y_values := linspace (FOV_focus / 2 + y0) (- (FOV_focus / 2) + y0)
                       resolution_focus).
    assert (length x_values = resolution_focus) as Hxs
      by apply length_linspace.
    assert (length y_values = resolution_focus) as Hys
      by apply length_linspace.
    pose proof (Hloop x_values y_values resolution_focus resolution_focus
                  (λ a b, (b, a))
                  (λ x y, (sqrt (x ^ 2 + y ^ 2) * 2 * PI / (Lambda * 10 ^ 6),
                           arctan2 y x,
                           zp0 * 2 * PI / (Lambda * 10 ^ 6))%R)) as Hrun.
    cbn [fst snd] in Hrun. rewrite Hxs, Hys in Hrun.
    specialize (Hrun (λ a b Ha Hb, conj Hb Ha)).
    destruct countdown.
    - rewrite for_each_tqdm_result. cbn [lift snd].
      replace (range resolution_focus) with (range (length x_values))
        by (by rewrite Hxs).
      rewrite (for_each_range_enumerate x_values (λ st i x,
        for_each (enumerate y_values) (λ st '(j, y),
          point_field _ _ _ _ _ _ i j st) st)).
      rewrite Hrun. py_step. by rewrite !mmap_scale_zeros.
    - cbn [lift snd]. rewrite Hrun. py_step. by rewrite !mmap_scale_zeros. }
  split; [exact (Hxy countdown)|].
  unfold custom_mask_focus_field_XZ_XY.
  cbv beta iota zeta delta [meshgrid].
  rewrite py_bind_result, (Hxy true), bind_Ok. cbv beta iota.
  py_step. rewrite rotate_180_rotate. py_step.
  rewrite rotate_270_rotate. py_step.
  unfold py_div. rewrite !decide_False by lia. do 2 py_step.
  rewrite Hwr. py_step. rewrite Hwp. py_step.
  rewrite trapezoid_field_outer by (intros ->; simpl in *; lia).
  py_step. rewrite !rotate_zeros.
  rewrite coupling_arrays_zeros by done.
  py_step. rewrite py_bind_result.
  set (x_values := linspace (- (FOV_focus * sqrt 2 / 2) + x0)
                     (FOV_focus * sqrt 2 / 2 + x0) resolution_focus).
  assert (length x_values = resolution_focus) as Hxs by apply length_linspace.
  assert (length (axial_grid z_FOV resolution_z) = axial_count resolution_z)
    as Hzs by apply length_linspace.
  replace (range (axial_count resolution_z))
    with (range (length (axial_grid z_FOV resolution_z)))
    by (by rewrite Hzs).
  destruct (decide (plot_plane = "X")) as [HX|HX];
    [|destruct (decide (plot_plane = "Y")) as [HY|HY]].
  - pose proof (Hloop (axial_grid z_FOV resolution_z) x_values
                  (axial_count resolution_z) resolution_focus
                  (λ a b, (a, b))
                  (λ z x, (Rabs x * 2 * PI / (Lambda * 10 ^ 6),
                           arctan2 0 x,
                           z * 2 * PI / (Lambda * 10 ^ 6))%R)) as Hrun.
    cbn [fst snd] in Hrun. rewrite Hxs, Hzs in Hrun.
    specialize (Hrun (λ a b Ha Hb, conj Ha Hb)).
    rewrite for_each_tqdm_result. cbn [lift snd].
    rewrite (for_each_range_enumerate (axial_grid z_FOV resolution_z)
               (λ st j zp0,
                  for_each (enumerate x_values) (λ st '(i, x),
                    point_field _ _ _ _ _ _ i j st) st)).
    rewrite Hrun. py_step. by rewrite !mmap_scale_zeros.
  - pose proof (Hloop (axial_grid z_FOV resolution_z) x_values
                  (axial_count resolution_z) resolution_focus
                  (λ a b, (a, b))
                  (λ z y, (Rabs y * 2 * PI / (Lambda * 10 ^ 6),
                           arctan2 y 0,
                           z * 2 * PI / (Lambda * 10 ^ 6))%R)) as Hrun.
    cbn [fst snd] in Hrun. rewrite Hxs, Hzs in Hrun.
    specialize (Hrun (λ a b Ha Hb, conj Ha Hb)).
    rewrite for_each_tqdm_result. cbn [lift snd].
    rewrite (for_each_range_enumerate (axial_grid z_FOV resolution_z)
               (λ st j zp0,
                  for_each (enumerate x_values) (λ st '(i, x),
                    point_field _ _ _ _ _ _ i j st) st)).
    rewrite Hrun. py_step. by rewrite !mmap_scale_zeros.
  - do 2 py_step. unfold mret, py_ret. cbn [snd]. rewrite bind_Ok.
    cbn [snd]. by rewrite !mmap_scale_zeros.
Qed.

Lemma dark_pupil_dark_focus_witness :
  (custom_mask_focus_field (zeros 2 3) (zeros 2 3) 1 1 1 0 2 3 2 1 true 0 0).2
  = Ok (zeros 2 2, zeros 2 2, zeros 2 2)
  ∧ (custom_mask_focus_field_XZ_XY (zeros 2 3) (zeros 2 3) 1 1 1 1 2 0 2 3 2
       1 0 0 "X").2
    = Ok (zeros (axial_count 2) 2, zeros (axial_count 2) 2,
          zeros (axial_count 2) 2, zeros 2 2, zeros 2 2, zeros 2 2).
Proof.
  apply (dark_pupil_dark_focus 1 1 1 1 2 0 2 3 2 1 true 0 0 "X");
    [pose proof PI2_1; lra|lra|lia|lia].
Defined.

(** ** The intensity drawn by [plot_in_cartesian] *)

Lemma cell_mzip {A B D : Type} (f : A → B → D) (a : matrix A) (b : matrix B)
    (j i : nat) (x : A) (y : B) :
  cell a j i = Some x → cell b j i = Some y →
  cell (mzip f a b) j i = Some (f x y).
Proof.
  unfold cell, mzip. intros Ha Hb.
  destruct (a !! j) as [ra|] eqn:Hra; [|done].
  destruct (b !! j) as [rb|] eqn:Hrb; [|done]. simpl in Ha, Hb.
  assert (zip_with (zip_with f) a b !! j = Some (zip_with f ra rb)) as ->
    by (apply lookup_zip_with_Some; eauto).
  simpl. apply lookup_zip_with_Some. eauto.
Qed.

Lemma Cabs_0 : Cabs C0 = 0%R.
Proof.
  unfold Cabs, C0. simpl.
  replace (0 * 0 + 0 * 0)%R with 0%R by ring. apply sqrt_0.
Qed.

(** The events and the value of [plot_in_cartesian] after a resampling that
    returned. *)
Lemma plot_in_cartesian_events (Ex Ey Exc Eyc : matrix C) (rp rt : nat)
    (xmax alpha focus : R) (figure_name : string) :
  has_shape Ex rp rt → 1 ≤ rp → 1 ≤ rt →
  resample Ex Ey xmax alpha focus = Ok (Exc, Eyc) →
  has_shape Exc (2 * rt) (2 * rt) → has_shape Eyc (2 * rt) (2 * rt) →
  plot_in_cartesian Ex Ey xmax alpha focus figure_name
  = ([Plot (figure_name +:+ ": Incident intensity");
      Plot (figure_name +:+ ": Incident amplitude")],
     Ok (mzip Rplus (mmap (λ z, Cabs z ^ 2)%R Exc)
           (mmap (λ z, Cabs z ^ 2)%R Eyc), Exc, Eyc)).
Proof.
  intros HEx Hrp Hrt Hres Hs1 Hs2.
  assert (shape Ex = (rp, rt)) as Hshape by (apply shape_has_shape; [done|lia]).
  set (I_cartesian := mzip Rplus (mmap (λ z, Cabs z ^ 2)%R Exc)
                        (mmap (λ z, Cabs z ^ 2)%R Eyc)).
  assert (has_shape I_cartesian (2 * rt) (2 * rt)) as HI
    by (apply has_shape_mzip; by apply has_shape_mmap).
  destruct (lookup_lt_is_Some_2 I_cartesian rt) as [row Hrow];
    [destruct HI; lia|].
  unfold plot_in_cartesian. rewrite Hshape, Hres, py_bind_lift_Ok.
  rewrite (ew2_same_shape _ _ _ (2 * rt) (2 * rt))
    by (by apply has_shape_mmap).
  rewrite py_bind_lift_Ok, py_bind_emit. cbn [snd].
  fold I_cartesian. rewrite (getitem_lookup _ _ _ Hrow), py_bind_lift_Ok.
  by rewrite py_bind_emit.
Qed.

(** X14. On polar fields with at least one sample on each axis,
    [plot_in_cartesian] opens its two figures, named after [figure_name],
    and returns.  The intensity it returns is, cell by cell,
    [|Ex_cartesian|^2+|Ey_cartesian|^2]; it is never negative, and it is zero
    at every Cartesian sample whose radius is not below [xmax]. *)
Theorem plot_in_cartesian_intensity (Ex Ey : matrix C) (rp rt : nat)
    (xmax alpha focus : R) (figure_name : string) :
  has_shape Ex rp rt → has_shape Ey rp rt → 1 ≤ rp → 1 ≤ rt →
  ∃ I_cartesian Ex_cartesian Ey_cartesian,
    plot_in_cartesian Ex Ey xmax alpha focus figure_name
    = ([Plot (figure_name +:+ ": Incident intensity");
        Plot (figure_name +:+ ": Incident amplitude")],
       Ok (I_cartesian, Ex_cartesian, Ey_cartesian))
    ∧ has_shape I_cartesian (2 * rt) (2 * rt)
    ∧ ∀ i j x y,
        linspace (- xmax) xmax (2 * rt) !! i = Some x →
        linspace xmax (- xmax) (2 * rt) !! j = Some y →
        ∃ vx vy,
          cell Ex_cartesian j i = Some vx ∧ cell Ey_cartesian j i = Some vy
          ∧ cell I_cartesian j i = Some (Cabs vx ^ 2 + Cabs vy ^ 2)%R
          ∧ (0 <= Cabs vx ^ 2 + Cabs vy ^ 2)%R
          ∧ ((xmax <= sqrt (x ^ 2 + y ^ 2))%R →
             cell I_cartesian j i = Some 0%R).
Proof.
  intros HEx HEy Hrp Hrt.
  destruct (resample_returns Ex Ey rp rt xmax alpha focus HEx HEy Hrp)
    as ([Exc Eyc] & Hres & Hs1 & Hs2 & Hcells).
  rewrite !length_linspace in *. simpl in Hs1, Hs2.
  set (I_cartesian := mzip Rplus (mmap (λ z, Cabs z ^ 2)%R Exc)
                        (mmap (λ z, Cabs z ^ 2)%R Eyc)).
  assert (has_shape I_cartesian (2 * rt) (2 * rt)) as HI
    by (apply has_shape_mzip; by apply has_shape_mmap).
  exists I_cartesian, Exc, Eyc. split_and!; [|done|].
  - by apply (plot_in_cartesian_events Ex Ey Exc Eyc rp rt).
  - intros i j x y Hx Hy. specialize (Hcells i j x y Hx Hy).
    pose proof (lookup_lt_Some _ _ _ Hx) as Hi.
    rewrite length_linspace in Hi. rewrite decide_True in Hcells by lia.
    destruct Hcells as (vx & vy & Hvx & Hvy & Hp).
    simpl in Hvx, Hvy. exists vx, vy.
    assert (cell I_cartesian j i = Some (Cabs vx ^ 2 + Cabs vy ^ 2)%R) as HIc.
    { apply cell_mzip; by rewrite cell_mmap, ?Hvx, ?Hvy. }
    split_and!; [done..| |].
    + pose proof (pow2_ge_0 (Cabs vx)). pose proof (pow2_ge_0 (Cabs vy)). lra.
    + intros Hout. unfold polar_sample in Hp. cbv zeta in Hp.
      rewrite decide_False in Hp by lra. destruct Hp as [-> ->].
      rewrite HIc, Cabs_0. f_equal. ring.
Qed.

Lemma plot_in_cartesian_intensity_witness :
  ∃ I_cartesian Ex_cartesian Ey_cartesian,
    plot_in_cartesian [[RtoC 1]] [[RtoC 2]] 1 1 1 "lens"
    = ([Plot ("lens" +:+ ": Incident intensity");
        Plot ("lens" +:+ ": Incident amplitude")],
       Ok (I_cartesian, Ex_cartesian, Ey_cartesian))
    ∧ has_shape I_cartesian (2 * 1) (2 * 1)
    ∧ ∀ i j x y,
        linspace (- 1) 1 (2 * 1) !! i = Some x →
        linspace 1 (- 1) (2 * 1) !! j = Some y →
        ∃ vx vy,
          cell Ex_cartesian j i = Some vx ∧ cell Ey_cartesian j i = Some vy
          ∧ cell I_cartesian j i = Some (Cabs vx ^ 2 + Cabs vy ^ 2)%R
          ∧ (0 <= Cabs vx ^ 2 + Cabs vy ^ 2)%R
          ∧ ((1 <= sqrt (x ^ 2 + y ^ 2))%R →
             cell I_cartesian j i = Some 0%R).
Proof.
  apply (plot_in_cartesian_intensity [[RtoC 1]] [[RtoC 2]] 1 1 1 1 1 "lens").
  - split; [reflexivity|]. repeat constructor.
  - split; [reflexivity|]. repeat constructor.
  - lia.
  - lia.
Defined.

(** ** The diffraction integral of the lens-plane synthesizers *)

(** The double loop of the two lens-plane synthesizers: the cell of row [j]
    and column [i] receives the sum of the prefactor times the phase of the
    sample [(rhop_values[i], phip_values[j])]. *)
Lemma integration_loops_cells (F : R → R → R → R → C) (prefactor : matrix C)
    (rho phi : matrix R) (n_phi n_rho : nat) (phip_values rhop_values : list R) :
  has_shape prefactor n_phi n_rho →
  has_shape rho n_phi n_rho → has_shape phi n_phi n_rho →
  ∃ Ex,
    for_each (enumerate phip_values) (λ Ex '(j, phip),
      for_each (enumerate rhop_values) (λ Ex '(i, rhop),
        integrand ← ew2 Cmul prefactor (mzip (F rhop phip) rho phi);
        setitem2 Ex (Z.of_nat j) (Z.of_nat i) (Csum integrand)) Ex)
      (zeros (length phip_values) (length rhop_values)) = Ok Ex
    ∧ has_shape Ex (length phip_values) (length rhop_values)
    ∧ ∀ j i phip rhop,
        phip_values !! j = Some phip → rhop_values !! i = Some rhop →
        cell Ex j i
        = Some (Csum (mzip Cmul prefactor (mzip (F rhop phip) rho phi))).
Proof.
  intros Hpre Hrho Hphi.
  pose (inv := λ (j i : nat) (Ex : matrix C),
          has_shape Ex (length phip_values) (length rhop_values)
          ∧ ∀ j' i' phip rhop,
              phip_values !! j' = Some phip → rhop_values !! i' = Some rhop →
              j' < j ∨ (j' = j ∧ i' < i) →
              cell Ex j' i'
              = Some (Csum (mzip Cmul prefactor (mzip (F rhop phip) rho phi)))).
  destruct (for_each_enumerate_inv (λ j Ex, inv j 0 Ex) phip_values
              (λ Ex '(j, phip),
                 for_each (enumerate rhop_values) (λ Ex '(i, rhop),
                   integrand ← ew2 Cmul prefactor (mzip (F rhop phip) rho phi);
                   setitem2 Ex (Z.of_nat j) (Z.of_nat i) (Csum integrand)) Ex)
              (zeros (length phip_values) (length rhop_values)))
    as (Ex & Hrun & HEx & Hcells).
  - split; [apply has_shape_zeros|]. intros; lia.
  - intros j phip Ex Hphip HEx. cbv beta iota.
    destruct (for_each_enumerate_inv (λ i Ex, inv j i Ex) rhop_values
                (λ Ex '(i, rhop),
                   integrand ← ew2 Cmul prefactor (mzip (F rhop phip) rho phi);
                   setitem2 Ex (Z.of_nat j) (Z.of_nat i) (Csum integrand))
                Ex HEx) as (Ex' & Hrun & HEx' & Hcells).
    + intros i rhop Ex0 Hrhop [Hsh Hcells]. cbv beta iota.
      pose proof (lookup_lt_Some _ _ _ Hphip) as Hj.
      pose proof (lookup_lt_Some _ _ _ Hrhop) as Hi.
      rewrite (ew2_same_shape _ _ _ n_phi n_rho)
        by (done || by apply has_shape_mzip).
      rewrite bind_Ok.
      destruct (setitem2_inside Ex0 _ _ j i
                  (Csum (mzip Cmul prefactor (mzip (F rhop phip) rho phi))) Hsh)
        as (Ex1 & -> & Hsh1 & Hc); [done..|].
      exists Ex1. split; [done|]. split; [done|].
      intros j' i' phip' rhop' Hp' Hr' Hvis. rewrite Hc.
      destruct (decide (j' = j ∧ i' = i)) as [[-> ->]|Hne].
      * by replace phip' with phip by congruence;
          replace rhop' with rhop by congruence.
      * apply Hcells; [done..|lia].
    + exists Ex'. split; [done|]. split; [done|].
      intros j' i' phip' rhop' Hp' Hr' Hvis. apply Hcells; [done..|].
      apply lookup_lt_Some in Hr'. lia.
  - exists Ex. split; [done|]. split; [done|].
    intros j i phip rhop Hp Hr. apply Hcells; [done..|].
    apply lookup_lt_Some in Hp. lia.
Qed.

Lemma py_bind_call {A B : Type} (f : list pyarg → result A)
    (args : list pyarg) (a : A) (g : A → py B) :
  f args = Ok a → call f args ≫= g = (Call args :: (g a).1, (g a).2).
Proof. intros Hf. unfold call, mbind, py_bind. cbn [fst snd]. by rewrite Hf. Qed.

Lemma py_bind_value {A B : Type} (log : list event) (a : A) (g : A → py B) :
  (log, Ok a) ≫= g = (log ++ (g a).1, (g a).2).
Proof. done. Qed.



(** X16. A complete run of the quick test, with nonzero [Lambda] and [L],
    at least one sample on each axis of the pupil grid and a mask function that answers its
    two-argument call with an array of the shape of the pupil grid: the
    function prints its message, pauses, calls the mask function, carries
    the whole integration through, with one progress step for each of the
    [resolution_phi/20] output angles, and only then raises [TypeError], at
    its call of [plot_in_cartesian] without a figure name. *)
Theorem quick_test_run (psi delta : R)
    (resolution_theta resolution_phi N_rho N_phi : nat) (alpha : R)
    (mask_function : list pyarg → result (matrix C))
    (h L I0 Lambda radius : R) (mask : matrix C) :
  Lambda ≠ 0%R → L ≠ 0%R →
  1 ≤ N_rho → 1 ≤ N_phi →
  mask_function
    [AArray (meshgrid (linspace 0 h N_rho) (linspace 0 (2 * PI) N_phi)).1;
     AArray (meshgrid (linspace 0 h N_rho) (linspace 0 (2 * PI) N_phi)).2]
  = Ok mask →
  has_shape mask N_phi N_rho →
  test_custom_mask_objective_field psi delta resolution_theta resolution_phi
    N_rho N_phi alpha mask_function h L I0 Lambda radius
  = ([Print "Calculating field at the objective:"; Sleep 200;
      Call [AArray (meshgrid (linspace 0 h N_rho)
                      (linspace 0 (2 * PI) N_phi)).1;
            AArray (meshgrid (linspace 0 h N_rho)
                      (linspace 0 (2 * PI) N_phi)).2]]
     ++ (Progress "" <$> range (resolution_phi / 20)),
     Raise TypeError).
Proof.
  intros _ _ Hnr Hnp Hmask Hm.
  destruct (has_shape_meshgrid (linspace 0 h N_rho) (linspace 0 (2 * PI) N_phi))
    as [Hrho Hphi].
  rewrite !length_linspace in Hrho, Hphi.
  unfold test_custom_mask_objective_field.
  cbv beta iota zeta delta [meshgrid] in Hmask, Hrho, Hphi |- *.
  cbn [fst snd] in Hmask, Hrho, Hphi |- *.
  set (rho := (λ _ : R, linspace 0 h N_rho) <$> linspace 0 (2 * PI) N_phi)
    in *.
  set (phi := (λ y : R, (λ _ : R, y) <$> linspace 0 h N_rho)
                <$> linspace 0 (2 * PI) N_phi) in *.
  destruct (trapezoid_vector_returns (h / INR N_rho) N_rho Hnr)
    as (wr & Hwr & Hlr).
  destruct (trapezoid_vector_returns (2 * PI / INR N_phi) N_phi Hnp)
    as (wp & Hwp & Hlp).
  pose proof (has_shape_outer_product wr wp) as Hweight.
  rewrite Hlr, Hlp in Hweight.
  set (amplitude := mmap _ rho).
  assert (has_shape amplitude N_phi N_rho) as Hamp by by apply has_shape_mmap.
  set (prefactor := mzip (λ (z : C) (w : R), z * w)%C
                      (mzip (λ (x : R) (z : C), x * z)%C amplitude mask)
                      (outer_product wr wp)).
  assert (has_shape prefactor N_phi N_rho) as Hpre
    by (apply has_shape_mzip; [by apply has_shape_mzip|done]).
  set (rhop_values := (λ t, sin t * (h / sin alpha))%R
                        <$> linspace 0 alpha resolution_theta).
  set (phip_values := linspace 0 (PI / 20) (resolution_phi / 20)).
  assert (length rhop_values = resolution_theta) as Hrhos
    by (unfold rhop_values; by rewrite length_fmap, length_linspace).
  assert (length phip_values = resolution_phi / 20) as Hphis
    by apply length_linspace.
  destruct (integration_loops_cells
              (λ rhop phip r p,
                 Cexp (Ci * (2 * PI / Lambda)%R
                       * RtoC (L + rhop ^ 2 / 2 / L))
                 * Cexp (Ci * RtoC (PI / Lambda / L
                                    * (r ^ 2
                                       - 2 * r * rhop * cos (p - phip)))))%C
              prefactor rho phi N_phi N_rho phip_values rhop_values
              Hpre Hrho Hphi) as (E & Hrun & _).
  rewrite Hrhos, Hphis in Hrun. cbv beta in Hrun.
  rewrite <- (for_each_range_enumerate phip_values (λ Ex j phip,
    for_each (enumerate rhop_values) (λ Ex '(i, rhop),
      integrand ← ew2 Cmul prefactor _; setitem2 Ex (Z.of_nat j) (Z.of_nat i)
                                          (Csum integrand)) Ex)) in Hrun.
  rewrite Hphis in Hrun.
  rewrite !py_bind_emit. cbn [fst snd].
  unfold py_div. rewrite !decide_False by lia. rewrite !py_bind_lift_Ok.
  rewrite Hwr, py_bind_lift_Ok, Hwp, py_bind_lift_Ok.
  rewrite trapezoid_field_outer by (intros ->; simpl in *; lia).
  rewrite py_bind_lift_Ok.
  rewrite (py_bind_call _ _ mask) by exact Hmask. cbn [fst snd].
  rewrite (ew2_same_shape _ _ _ N_phi N_rho) by done.
  rewrite py_bind_lift_Ok.
  rewrite (ew2_same_shape _ _ _ N_phi N_rho)
    by (done || by apply has_shape_mzip).
  rewrite py_bind_lift_Ok. fold prefactor.
  rewrite (for_each_tqdm_lift "" _ _ _ _ Hrun), py_bind_value.
  rewrite py_bind_lift_Raise. cbn [fst snd]. by rewrite app_nil_r.
Qed.

Lemma quick_test_run_witness :
  test_custom_mask_objective_field 45 90 1 40 1 1 1 (λ _, Ok [[RtoC 1]]) 1 1
    1 1 1
  = ([Print "Calculating field at the objective:"; Sleep 200;
      Call [AArray (meshgrid (linspace 0 1 1) (linspace 0 (2 * PI) 1)).1;
            AArray (meshgrid (linspace 0 1 1) (linspace 0 (2 * PI) 1)).2]]
     ++ (Progress "" <$> range (40 / 20)),
     Raise TypeError).
Proof.
  apply (quick_test_run 45 90 1 40 1 1 1 (λ _, Ok [[RtoC 1]]) 1 1 1 1 1
           [[RtoC 1]]).
  - lra.
  - lra.
  - lia.
  - lia.
  - reflexivity.
  - split; [reflexivity|]. repeat constructor.
Defined.

(** ** More on the axial grid *)

(** X17. With a request of at least two axial samples the axial grid runs
    downwards from [z_FOV/2], its first sample, to [-z_FOV/2], its last
    one: the first row of the axial arrays is the plane farthest on the
    positive side, the last row the plane farthest on the negative side. *)
Theorem axial_grid_endpoints (z_FOV : R) (resolution_z : nat) :
  2 ≤ resolution_z →
  axial_grid z_FOV resolution_z !! 0 = Some (z_FOV / 2)%R
  ∧ axial_grid z_FOV resolution_z !! (axial_count resolution_z - 1)
    = Some (- z_FOV / 2)%R.
Proof.
  intros Hres.
  assert (2 ≤ axial_count resolution_z) as Hn
    by (unfold axial_count; case_decide; lia).
  unfold axial_grid. set (n := axial_count resolution_z) in *.
  assert (INR (n - 1) ≠ 0%R) as Hne by (apply not_0_INR; lia).
  rewrite !linspace_lookup by lia. split; f_equal.
  - simpl. lra.
  - field. done.
Qed.

Lemma axial_grid_endpoints_witness :
  axial_grid 4 2 !! 0 = Some (4 / 2)%R
  ∧ axial_grid 4 2 !! (axial_count 2 - 1) = Some (- 4 / 2)%R.
Proof. apply (axial_grid_endpoints 4 2). lia. Defined.

(** ** The lens-plane synthesizers without azimuthal nodes *)

(** X18. Without any azimuthal node of integration ([N_phi = 0], with at
    least one radial node) both the lens-plane integration and its quick
    test stop with [ZeroDivisionError] at the step of the azimuthal weights,
    after the message and the pause: the mask function is never called and
    no figure is opened. *)
Theorem objective_field_no_azimuthal_node (psi delta : R)
    (resolution_theta resolution_phi N_rho : nat) (alpha : R)
    (mask_function : list pyarg → result (matrix C))
    (h L I0 Lambda radius : R) (fig_name : string) :
  1 ≤ N_rho →
  custom_mask_objective_field psi delta resolution_theta resolution_phi
    N_rho 0 alpha mask_function h L I0 Lambda radius fig_name
  = ([Print "Calculating field at the objective:"; Sleep 200],
     Raise ZeroDivisionError)
  ∧ test_custom_mask_objective_field psi delta resolution_theta
      resolution_phi N_rho 0 alpha mask_function h L I0 Lambda radius
    = ([Print "Calculating field at the objective:"; Sleep 200],
       Raise ZeroDivisionError).
Proof.
  intros Hnr.
  unfold custom_mask_objective_field, test_custom_mask_objective_field.
  cbv beta iota zeta delta [meshgrid].
  rewrite !py_bind_emit. cbn [fst snd].
  unfold py_div. rewrite (decide_False (P := N_rho = 0)) by lia.
  by rewrite !py_bind_lift_Ok.
Qed.

Lemma objective_field_no_azimuthal_node_witness :
  custom_mask_objective_field 45 90 2 2 3 0 1 four_argument_mask 1 1 1 1 1
    "lens"
  = ([Print "Calculating field at the objective:"; Sleep 200],
     Raise ZeroDivisionError)
  ∧ test_custom_mask_objective_field 45 90 2 2 3 0 1 four_argument_mask 1 1 1
      1 1
    = ([Print "Calculating field at the objective:"; Sleep 200],
       Raise ZeroDivisionError).
Proof.
  apply (objective_field_no_azimuthal_node 45 90 2 2 3 1 four_argument_mask
           1 1 1 1 1 "lens").
  lia.
Defined.

(** ** The focal sums, term by term *)

Lemma bind_Ok_inv {A B : Type} (m : result A) (f : A → result B) (b : B) :
  m ≫= f = Ok b → ∃ a, m = Ok a ∧ f a = Ok b.
Proof. destruct m as [a|e]; [by exists a|done]. Qed.

Lemma cell_tabulate {A : Type} (r c : nat) (f : nat → nat → A) (i j : nat) :
  i < r → j < c → cell (tabulate r c f) i j = Some (f i j).
Proof.
  intros Hi Hj. unfold cell, tabulate.
  rewrite list_lookup_fmap, lookup_seq_lt by done. simpl.
  by rewrite list_lookup_fmap, lookup_seq_lt by done.
Qed.

(** An array is the table of its cells. *)
Lemma tabulate_cells {A : Type} (m : matrix A) (r c : nat)
    (f : nat → nat → A) :
  has_shape m r c →
  (∀ i j, i < r → j < c → cell m i j = Some (f i j)) →
  m = tabulate r c f.
Proof.
  intros [Hr Hc] Hcells.
  apply list_eq_same_length with r;
    [by unfold tabulate; rewrite length_fmap, length_seq|done|].
  intros i row row' Hi Hrow Hrow'.
  unfold tabulate in Hrow'.
  rewrite list_lookup_fmap, lookup_seq_lt in Hrow' by done.
  injection Hrow' as <-.
  assert (length row = c) as Hlen
    by (eapply Forall_lookup_1 in Hc; [|done]; done).
  apply list_eq_same_length with c;
    [by rewrite length_fmap, length_seq|done|].
  intros j x y Hj Hx Hy.
  rewrite list_lookup_fmap, lookup_seq_lt in Hy by done. injection Hy as <-.
  specialize (Hcells i j Hi Hj). unfold cell in Hcells.
  rewrite Hrow in Hcells. simpl in Hcells. congruence.
Qed.

Lemma cell_mmap_Some {A B : Type} (f : A → B) (m : matrix A) (i j : nat)
    (x : A) :
  cell m i j = Some x → cell (mmap f m) i j = Some (f x).
Proof. intros H. by rewrite cell_mmap, H. Qed.

Lemma cell_mzip3 {A B D E : Type} (f : A → B → D → E)
    (a : matrix A) (b : matrix B) (d : matrix D) (i j : nat)
    (x : A) (y : B) (z : D) :
  cell a i j = Some x → cell b i j = Some y → cell d i j = Some z →
  cell (mzip3 f a b d) i j = Some (f x y z).
Proof.
  intros Ha Hb Hd. unfold mzip3.
  apply (cell_mzip (λ (xy : A * B) z, f xy.1 xy.2 z) _ _ _ _ (x, y) z);
    [by apply cell_mzip|done].
Qed.

Lemma sample_lookup (l : list R) (i : nat) :
  i < length l → l !! i = Some (sample l i).
Proof.
  intros Hi. unfold sample.
  by destruct (lookup_lt_is_Some_2 l i Hi) as [x ->].
Qed.

(** The two arrays of a mesh grid repeat the samples of their axis. *)
Lemma cell_meshgrid_fst (xs ys : list R) (r c : nat) :
  r < length ys → c < length xs →
  cell ((λ _ : R, xs) <$> ys) r c = Some (sample xs c).
Proof.
  intros Hr Hc. unfold cell.
  rewrite list_lookup_fmap, (sample_lookup ys r) by done. simpl.
  by apply sample_lookup.
Qed.

Lemma cell_meshgrid_snd (xs ys : list R) (r c : nat) :
  r < length ys → c < length xs →
  cell ((λ y : R, (λ _ : R, y) <$> xs) <$> ys) r c = Some (sample ys r).
Proof.
  intros Hr Hc. unfold cell.
  rewrite list_lookup_fmap, (sample_lookup ys r) by done. simpl.
  by rewrite list_lookup_fmap, (sample_lookup xs c) by done.
Qed.

Lemma cell_outer_product (u v : list R) (r c : nat) :
  r < length v → c < length u →
  cell (outer_product u v) r c = Some (sample u c * sample v r)%R.
Proof.
  intros Hr Hc. apply outer_product_lookup; by apply sample_lookup.
Qed.

(** A rotation by [off] rows moves the row [source_row rp off r] of the
    input to the row [r] of the output. *)
Lemma cell_rotate (m : matrix C) (rp rt off r c : nat) :
  has_shape m rp rt → off ≤ rp → r < rp → c < rt →
  cell (rotate off m) r c = Some (entry m (source_row rp off r) c).
Proof.
  intros Hm Hoff Hr Hc. pose proof Hm as [Hlen _].
  assert (source_row rp off r < rp) as Hs
    by (unfold source_row; case_decide; lia).
  destruct (cell_is_Some m rp rt (source_row rp off r) c Hm Hs Hc)
    as [v Hv].
  unfold entry. rewrite Hv. simpl. rewrite <- Hv. unfold cell.
  by rewrite lookup_rotate_r, source_row_rotate_nat_add, Hlen by lia.
Qed.

(** The cells of the three angular prefactors. *)
Lemma prefactor_cells (thetas phis : list R) (r c : nat) :
  r < length phis → c < length thetas →
  let theta := (λ _ : R, thetas) <$> phis in
  let phi := (λ y : R, (λ _ : R, y) <$> thetas) <$> phis in
  let general := mzip Rmult (mmap sqrt (mmap cos theta)) (mmap sin theta) in
  cell (mzip3 (λ g c s2, g * (c + (1 - c) * s2))%R general (mmap cos theta)
          (mmap (λ s, s ^ 2)%R (mmap sin phi))) r c
  = Some (kernel_x (sample thetas c) (sample phis r))
  ∧ cell (mzip (λ gc s, gc * s)%R
            (mzip3 (λ g c cp, g * (1 - c) * cp)%R general (mmap cos theta)
               (mmap cos phi))
            (mmap sin phi)) r c
    = Some (kernel_y (sample thetas c) (sample phis r))
  ∧ cell (mzip3 (λ g s c, g * s * c)%R general (mmap sin theta)
            (mmap cos phi)) r c
    = Some (kernel_z (sample thetas c) (sample phis r)).
Proof.
  intros Hr Hc theta phi general.
  pose proof (cell_meshgrid_fst thetas phis r c Hr Hc) as Ht.
  pose proof (cell_meshgrid_snd thetas phis r c Hr Hc) as Hp.
  fold theta in Ht. fold phi in Hp.
  assert (cell general r c
          = Some (sqrt (cos (sample thetas c)) * sin (sample thetas c))%R)
    as Hg by (apply cell_mzip; [by do 2 apply cell_mmap_Some
                               |by apply cell_mmap_Some]).
  unfold kernel_x, kernel_y, kernel_z. split_and!.
  - apply (cell_mzip3 (λ g c s2, g * (c + (1 - c) * s2))%R);
      [done|by apply cell_mmap_Some|].
    apply (cell_mmap_Some (λ s, s ^ 2)%R). by apply cell_mmap_Some.
  - apply (cell_mzip (λ gc s, gc * s)%R); [|by apply cell_mmap_Some].
    apply (cell_mzip3 (λ g c cp, g * (1 - c) * cp)%R); [done|..];
      by apply cell_mmap_Some.
  - apply (cell_mzip3 (λ g s c, g * s * c)%R); [done|..];
      by apply cell_mmap_Some.
Qed.

(** The cells of the two phase arrays of an output point. *)
Lemma phase_cells (thetas phis : list R) (kr phip kz : R) (r c : nat) :
  r < length phis → c < length thetas →
  let theta := (λ _ : R, thetas) <$> phis in
  let phi := (λ y : R, (λ _ : R, y) <$> thetas) <$> phis in
  cell (mzip3 (λ s p c : R, Cexp (Ci * RtoC (s * cos (p - phip) + c)))%C
          (mmap (λ t, sin t * kr)%R theta) phi
          (mmap (λ t, cos t * kz)%R theta)) r c
  = Some (phase_x kr phip kz (sample thetas c) (sample phis r))
  ∧ cell (mzip3 (λ s p c : R, Cexp (Ci * RtoC (- s * sin (p - phip) + c)))%C
            (mmap (λ t, sin t * kr)%R theta) phi
            (mmap (λ t, cos t * kz)%R theta)) r c
    = Some (phase_y kr phip kz (sample thetas c) (sample phis r)).
Proof.
  intros Hr Hc theta phi.
  pose proof (cell_meshgrid_fst thetas phis r c Hr Hc) as Ht.
  pose proof (cell_meshgrid_snd thetas phis r c Hr Hc) as Hp.
  fold theta in Ht. fold phi in Hp.
  unfold phase_x, phase_y. split.
  - apply (cell_mzip3
             (λ s p c : R, Cexp (Ci * RtoC (s * cos (p - phip) + c)))%C);
      [by apply (cell_mmap_Some (λ t, sin t * kr)%R)|done
      |by apply (cell_mmap_Some (λ t, cos t * kz)%R)].
  - apply (cell_mzip3
             (λ s p c : R, Cexp (Ci * RtoC (- s * sin (p - phip) + c)))%C);
      [by apply (cell_mmap_Some (λ t, sin t * kr)%R)|done
      |by apply (cell_mmap_Some (λ t, cos t * kz)%R)].
Qed.

(** [prefactor*lens*weight_trapezoid], cell by cell. *)
Lemma couple_cells (prefactor : matrix R) (lens : matrix C)
    (weight : matrix R) (r c : nat)
    (fp : nat → nat → R) (fl : nat → nat → C) (fw : nat → nat → R) :
  has_shape prefactor r c → has_shape lens r c → has_shape weight r c →
  (∀ i j, i < r → j < c → cell prefactor i j = Some (fp i j)) →
  (∀ i j, i < r → j < c → cell lens i j = Some (fl i j)) →
  (∀ i j, i < r → j < c → cell weight i j = Some (fw i j)) →
  ∃ a, couple prefactor lens weight = Ok a ∧ has_shape a r c
    ∧ ∀ i j, i < r → j < c →
        cell a i j = Some (RtoC (fp i j) * fl i j * RtoC (fw i j))%C.
Proof.
  intros Hp Hl Hw Hcp Hcl Hcw. unfold couple.
  rewrite (ew2_same_shape _ _ _ r c), bind_Ok by done.
  pose proof (has_shape_mzip (λ (x : R) (z : C), x * z)%C _ _ _ _ Hp Hl).
  rewrite (ew2_same_shape _ _ _ r c) by done.
  eexists. split; [done|]. split; [by apply has_shape_mzip|].
  intros i j Hi Hj.
  apply (cell_mzip (λ (z : C) (w : R), z * w)%C); [|by apply Hcw].
  apply (cell_mzip (λ (x : R) (z : C), x * z)%C); [by apply Hcp|by apply Hcl].
Qed.

(** [np.sum(A*phase)], term by term. *)
Lemma integrate_cells (A phase : matrix C) (r c : nat)
    (fa fph : nat → nat → C) :
  has_shape A r c → has_shape phase r c →
  (∀ i j, i < r → j < c → cell A i j = Some (fa i j)) →
  (∀ i j, i < r → j < c → cell phase i j = Some (fph i j)) →
  integrate A phase = Ok (Csum (tabulate r c (λ i j, fa i j * fph i j)%C)).
Proof.
  intros HA Hph Hca Hcp. unfold integrate.
  rewrite (ew2_same_shape _ _ _ r c), bind_Ok by done.
  do 2 f_equal. apply tabulate_cells; [by apply has_shape_mzip|].
  intros i j Hi Hj. apply cell_mzip; [by apply Hca|by apply Hcp].
Qed.

Lemma setitem2_single (v : C) :
  setitem2 (zeros 1 1) (Z.of_nat 0) (Z.of_nat 0) v = Ok [[v]].
Proof. reflexivity. Qed.

Ltac couple_head HA rp rt fp fl fw a Hs Hc tac :=
  match type of HA with
  | mbind _ (couple ?p ?l ?w) = _ =>
      let Ha := fresh "Ha" in
      destruct (couple_cells p l w rp rt fp fl fw) as (a & Ha & Hs & Hc);
      [tac..|rewrite Ha, bind_Ok in HA; clear Ha]
  end.

Ltac integrate_head Hv rp rt fa fph tac :=
  match type of Hv with
  | mbind _ (integrate ?a ?p) = _ =>
      rewrite (integrate_cells a p rp rt fa fph), bind_Ok in Hv by tac
  end.

Ltac array_shape :=
  repeat first
    [done|apply has_shape_mzip3|apply has_shape_mzip|apply has_shape_mmap].

(** The three sums of an output point, term by term: every term multiplies
    the prefactor at the two angles, the cell of the rotated incident field,
    the two trapezoid weights and the phase at the two angles. *)
Lemma point_sums_terms (ex_lens ey_lens : matrix C) (rp rt : nat)
    (thetas phis w_theta w_phi : list R)
    (A : matrix C * matrix C * matrix C * matrix C * matrix C * matrix C)
    (kr phip kz : R) (v : C * C * C) :
  has_shape ex_lens rp rt → has_shape ey_lens rp rt →
  length thetas = rt → length phis = rp →
  length w_theta = rt → length w_phi = rp →
  coupling_arrays (rotate (rp / 2) ex_lens) (rotate (3 * rp / 4) ey_lens)
    (outer_product w_theta w_phi)
    ((λ _ : R, thetas) <$> phis)
    ((λ y : R, (λ _ : R, y) <$> thetas) <$> phis) = Ok A →
  point_sums A ((λ _ : R, thetas) <$> phis)
    ((λ y : R, (λ _ : R, y) <$> thetas) <$> phis) kr phip kz v →
  v = (focal_sum_x thetas phis w_theta w_phi
         (λ r c, entry ex_lens (source_row rp (rp / 2) r) c)
         (λ r c, entry ey_lens (source_row rp (3 * rp / 4) r) c) kr phip kz,
       focal_sum_y thetas phis w_theta w_phi
         (λ r c, entry ex_lens (source_row rp (rp / 2) r) c)
         (λ r c, entry ey_lens (source_row rp (3 * rp / 4) r) c) kr phip kz,
       focal_sum_z thetas phis w_theta w_phi
         (λ r c, entry ex_lens (source_row rp (rp / 2) r) c)
         (λ r c, entry ey_lens (source_row rp (3 * rp / 4) r) c) kr phip kz).
Proof.
  intros Hex Hey Hlt Hlp Hwt Hwp HA Hv.
  pose proof (has_shape_meshgrid thetas phis) as Hgrid.
  unfold meshgrid in Hgrid. cbn [fst snd] in Hgrid.
  rewrite Hlt, Hlp in Hgrid. destruct Hgrid as [Hth Hph].
  pose proof (has_shape_rotate _ _ _ (rp / 2) Hex) as Hexr.
  pose proof (has_shape_rotate _ _ _ (3 * rp / 4) Hey) as Heyr.
  pose proof (has_shape_outer_product w_theta w_phi) as Hw.
  rewrite Hwt, Hwp in Hw.
  assert (rp / 2 ≤ rp) as Hhalf
    by (apply Nat.Div0.div_le_upper_bound; lia).
  assert (3 * rp / 4 ≤ rp) as Hquarter
    by (apply Nat.Div0.div_le_upper_bound; lia).
  pose (fex := λ r c : nat, entry ex_lens (source_row rp (rp / 2) r) c).
  pose (fey := λ r c : nat, entry ey_lens (source_row rp (3 * rp / 4) r) c).
  pose (fw := λ r c : nat, (sample w_theta c * sample w_phi r)%R).
  assert (∀ i j, i < rp → j < rt →
            cell (rotate (rp / 2) ex_lens) i j = Some (fex i j)) as Hcex
    by (intros; by apply (cell_rotate _ rp rt)).
  assert (∀ i j, i < rp → j < rt →
            cell (rotate (3 * rp / 4) ey_lens) i j = Some (fey i j)) as Hcey
    by (intros; by apply (cell_rotate _ rp rt)).
  assert (∀ i j, i < rp → j < rt →
            cell (outer_product w_theta w_phi) i j = Some (fw i j)) as Hcw
    by (intros; apply cell_outer_product; lia).
  pose (kx := λ r c : nat, kernel_x (sample thetas c) (sample phis r)).
  pose (ky := λ r c : nat, kernel_y (sample thetas c) (sample phis r)).
  pose (kz' := λ r c : nat, kernel_z (sample thetas c) (sample phis r)).
  pose (kx' := λ r c : nat, (- kernel_x (sample thetas c) (sample phis r))%R).
  pose (px := λ r c : nat,
          phase_x kr phip kz (sample thetas c) (sample phis r)).
  pose (py := λ r c : nat,
          phase_y kr phip kz (sample thetas c) (sample phis r)).
  assert (∀ i j, i < rp → j < rt →
            cell (mzip3 (λ s p c : R,
                    Cexp (Ci * RtoC (s * cos (p - phip) + c)))%C
                    (mmap (λ t, sin t * kr)%R ((λ _ : R, thetas) <$> phis))
                    ((λ y : R, (λ _ : R, y) <$> thetas) <$> phis)
                    (mmap (λ t, cos t * kz)%R ((λ _ : R, thetas) <$> phis)))
              i j = Some (px i j)
            ∧ cell (mzip3 (λ s p c : R,
                      Cexp (Ci * RtoC (- s * sin (p - phip) + c)))%C
                      (mmap (λ t, sin t * kr)%R ((λ _ : R, thetas) <$> phis))
                      ((λ y : R, (λ _ : R, y) <$> thetas) <$> phis)
                      (mmap (λ t, cos t * kz)%R ((λ _ : R, thetas) <$> phis)))
                i j = Some (py i j)) as Hcph
    by (intros; apply phase_cells; lia).
  unfold coupling_arrays in HA. cbv zeta in HA.
  couple_head HA rp rt kx fex fw Axx Hsxx Hcxx
    ltac:(first [array_shape; fail | done
                |intros i j Hi Hj;
                 destruct (prefactor_cells thetas phis i j)
                   as (H1 & H2 & H3); [lia..|]; exact H1]).
  couple_head HA rp rt ky fex fw Axy Hsxy Hcxy
    ltac:(first [array_shape; fail | done
                |intros i j Hi Hj;
                 destruct (prefactor_cells thetas phis i j)
                   as (H1 & H2 & H3); [lia..|]; exact H2]).
  couple_head HA rp rt kz' fex fw Axz Hsxz Hcxz
    ltac:(first [array_shape; fail | done
                |intros i j Hi Hj;
                 destruct (prefactor_cells thetas phis i j)
                   as (H1 & H2 & H3); [lia..|]; exact H3]).
  couple_head HA rp rt ky fey fw Ayx Hsyx Hcyx
    ltac:(first [array_shape; fail | done
                |intros i j Hi Hj;
                 destruct (prefactor_cells thetas phis i j)
                   as (H1 & H2 & H3); [lia..|]; exact H2]).
  couple_head HA rp rt kx' fey fw Ayy Hsyy Hcyy
    ltac:(first [array_shape; fail | done
                |intros i j Hi Hj;
                 destruct (prefactor_cells thetas phis i j)
                   as (H1 & H2 & H3); [lia..|];
                 apply (cell_mmap_Some Ropp); exact H1]).
  couple_head HA rp rt kz' fey fw Ayz Hsyz Hcyz
    ltac:(first [array_shape; fail | done
                |intros i j Hi Hj;
                 destruct (prefactor_cells thetas phis i j)
                   as (H1 & H2 & H3); [lia..|]; exact H3]).
  injection HA as <-.
  unfold point_sums, point_field in Hv. cbv beta iota zeta in Hv.
  integrate_head Hv rp rt
    (λ i j, RtoC (kx i j) * fex i j * RtoC (fw i j))%C px
    ltac:(first [array_shape; fail|intros; by apply Hcxx
                |intros; by apply Hcph]).
  integrate_head Hv rp rt
    (λ i j, RtoC (ky i j) * fey i j * RtoC (fw i j))%C py
    ltac:(first [array_shape; fail|intros; by apply Hcyx
                |intros; by apply Hcph]).
  rewrite setitem2_single, bind_Ok in Hv.
  integrate_head Hv rp rt
    (λ i j, RtoC (ky i j) * fex i j * RtoC (fw i j))%C px
    ltac:(first [array_shape; fail|intros; by apply Hcxy
                |intros; by apply Hcph]).
  integrate_head Hv rp rt
    (λ i j, RtoC (kx' i j) * fey i j * RtoC (fw i j))%C py
    ltac:(first [array_shape; fail|intros; by apply Hcyy
                |intros; by apply Hcph]).
  rewrite setitem2_single, bind_Ok in Hv.
  integrate_head Hv rp rt
    (λ i j, RtoC (kz' i j) * fex i j * RtoC (fw i j))%C px
    ltac:(first [array_shape; fail|intros; by apply Hcxz
                |intros; by apply Hcph]).
  integrate_head Hv rp rt
    (λ i j, RtoC (kz' i j) * fey i j * RtoC (fw i j))%C py
    ltac:(first [array_shape; fail|intros; by apply Hcyz
                |intros; by apply Hcph]).
  rewrite setitem2_single, bind_Ok in Hv.
  destruct v as [[v1 v2] v3]. cbn [fst snd] in Hv.
  unfold focal_sum_x, focal_sum_y, focal_sum_z, debye_sum.
  rewrite Hlt, Hlp. injection Hv as <- <- <-. reflexivity.
Qed.

(** ** The focal field, sum by sum *)

(** X11. For a nonzero wavelength and a semi-aperture in [(0, pi/2]], on
    incident fields of the shape of the angular grids, with at least one
    sample on each angular axis, [custom_mask_focus_field] returns three
    arrays whose cell of row [j] and column [i] belongs to the point
    [(x_values[i], y_values[j])].  With [kr = sqrt(x^2+y^2)*2*pi/Lambda],
    [phip = arctan2(y, x)] and [kz = zp0*2*pi/Lambda], the cell of the X
    component holds
    [(sum(prefactor_x*ex_rot*w*phase_x) + sum(prefactor_y*ey_rot*w*phase_y))
     * (-i*focus/Lambda)],
    each sum running over every azimuthal sample [r] and polar sample [c] of
    the angular grids, with the weight [w[r, c] = w_theta[c]*w_phi[r]] of the
    two trapezoid vectors, [ex_rot] the X incident field rotated by half its
    rows and [ey_rot] the Y incident field rotated by three quarters of its
    rows; the Y component takes [prefactor_y] and [-prefactor_x], the Z
    component [prefactor_z] twice, both times [i*focus/Lambda]; with and
    without the countdown. *)
Theorem focus_field_cells (ex_lens ey_lens : matrix C)
    (alpha h Lambda zp0 : R)
    (resolution_focus resolution_theta resolution_phi : nat) (FOV_focus : R)
    (countdown : bool) (x0 y0 : R) :
  Lambda ≠ 0%R → (0 < alpha <= PI / 2)%R →
  has_shape ex_lens resolution_phi resolution_theta →
  has_shape ey_lens resolution_phi resolution_theta →
  1 ≤ resolution_theta → 1 ≤ resolution_phi →
  ∃ w_theta w_phi ex ey ez,
    quadrature_weights alpha resolution_theta = Ok w_theta
    ∧ quadrature_weights (2 * PI) resolution_phi = Ok w_phi
    ∧ (custom_mask_focus_field ex_lens ey_lens alpha h Lambda zp0
         resolution_focus resolution_theta resolution_phi FOV_focus countdown
         x0 y0).2 = Ok (ex, ey, ez)
    ∧ ∀ i j x y,
        linspace (- (FOV_focus / 2) + x0) (FOV_focus / 2 + x0)
          resolution_focus !! i = Some x →
        linspace (FOV_focus / 2 + y0) (- (FOV_focus / 2) + y0)
          resolution_focus !! j = Some y →
        let thetas := linspace 0 alpha resolution_theta in
        let phis := linspace 0 (2 * PI) resolution_phi in
        let ex_rot := λ r c,
          entry ex_lens (source_row resolution_phi (resolution_phi / 2) r) c in
        let ey_rot := λ r c,
          entry ey_lens
            (source_row resolution_phi (3 * resolution_phi / 4) r) c in
        let kr := (sqrt (x ^ 2 + y ^ 2) * 2 * PI / (Lambda * 10 ^ 6))%R in
        let phip := arctan2 y x in
        let kz := (zp0 * 2 * PI / (Lambda * 10 ^ 6))%R in
        cell ex j i
        = Some (focal_sum_x thetas phis w_theta w_phi ex_rot ey_rot kr phip kz
                * (- Ci * RtoC (h / sin alpha * 10 ^ 6)
                   / (Lambda * 10 ^ 6)%R))%C
        ∧ cell ey j i
          = Some (focal_sum_y thetas phis w_theta w_phi ex_rot ey_rot kr phip
                    kz
                  * (Ci * RtoC (h / sin alpha * 10 ^ 6)
                     / (Lambda * 10 ^ 6)%R))%C
        ∧ cell ez j i
          = Some (focal_sum_z thetas phis w_theta w_phi ex_rot ey_rot kr phip
                    kz
                  * (Ci * RtoC (h / sin alpha * 10 ^ 6)
                     / (Lambda * 10 ^ 6)%R))%C.
Proof.
  intros _ _ Hex Hey Hrt Hrp.
  pose proof (proj1 Hex) as Hlx. pose proof (proj1 Hey) as Hly.
  destruct (has_shape_meshgrid_linspace 0 alpha 0 (2 * PI)
              resolution_theta resolution_phi) as [Htheta Hphi].
  destruct (trapezoid_vector_returns (alpha / INR resolution_theta)
              resolution_theta Hrt) as (wr & Hwr & Hlr).
  destruct (trapezoid_vector_returns (2 * PI / INR resolution_phi)
              resolution_phi Hrp) as (wp & Hwp & Hlp).
  pose proof (has_shape_outer_product wr wp) as Hweight.
  rewrite Hlr, Hlp in Hweight.
  destruct (coupling_arrays_returns
              (rotate (resolution_phi / 2) ex_lens)
              (rotate (3 * resolution_phi / 4) ey_lens)
              (outer_product wr wp) _ _ _ _
              (has_shape_rotate _ _ _ _ Hex) (has_shape_rotate _ _ _ _ Hey)
              Hweight Htheta Hphi) as (A & HA & HAs).
  set (x_values := linspace (- (FOV_focus / 2) + x0) (FOV_focus / 2 + x0)
                     resolution_focus).
  set (y_values := linspace (FOV_focus / 2 + y0) (- (FOV_focus / 2) + y0)
                     resolution_focus).
  assert (length x_values = resolution_focus) as Hxs by apply length_linspace.
  assert (length y_values = resolution_focus) as Hys by apply length_linspace.
  pose (theta := (λ _ : R, linspace 0 alpha resolution_theta)
                   <$> linspace 0 (2 * PI) resolution_phi).
  pose (phi := (λ y : R, (λ _ : R, y) <$> linspace 0 alpha resolution_theta)
                 <$> linspace 0 (2 * PI) resolution_phi).
  destruct (field_loops_cells
              (λ x y v,
                 point_sums A theta phi (sqrt (x ^ 2 + y ^ 2) * 2 * PI
                                   / (Lambda * 10 ^ 6)) (arctan2 y x)
                   (zp0 * 2 * PI / (Lambda * 10 ^ 6)) v)
              (λ a b, (b, a)) x_values y_values
              resolution_focus resolution_focus
              (λ i x j y st,
                 point_field A theta phi (sqrt (x ^ 2 + y ^ 2) * 2 * PI
                                    / (Lambda * 10 ^ 6)) (arctan2 y x)
                   (zp0 * 2 * PI / (Lambda * 10 ^ 6)) i j st)
              (zeros resolution_focus resolution_focus,
               zeros resolution_focus resolution_focus,
               zeros resolution_focus resolution_focus))
    as ([[ex ey] ez] & Hrun & Hsh & Hcells).
  { by intros a b a' b' [= -> ->]. }
  { intros a x b y st Hx Hy Hst. apply lookup_lt_Some in Hx, Hy.
    cbv beta. cbn [fst snd].
    eapply point_field_cells; [done..|lia|lia]. }
  { split_and!; apply has_shape_zeros. }
  cbv beta in Hrun. subst theta phi.
  eexists _, _, _, _, _. split_and!.
  - unfold quadrature_weights, py_div. rewrite decide_False by lia.
    rewrite bind_Ok. exact Hwr.
  - unfold quadrature_weights, py_div. rewrite decide_False by lia.
    rewrite bind_Ok. exact Hwp.
  - unfold custom_mask_focus_field.
    cbv beta iota zeta delta [meshgrid].
    rewrite py_bind_result.
    assert ((if countdown
             then emit (Print "Calculating field at the focal plane:")
                  ≫= λ _, emit (Sleep 500)
             else mret ()).2 = Ok ()) as -> by by destruct countdown.
    rewrite bind_Ok. py_step. rewrite rotate_180_rotate, Hlx. py_step.
    rewrite rotate_270_rotate, Hly. py_step.
    unfold py_div. rewrite !decide_False by lia. do 2 py_step.
    rewrite Hwr. py_step. rewrite Hwp. py_step.
    rewrite trapezoid_field_outer by (intros ->; simpl in *; lia).
    py_step. rewrite HA. py_step. rewrite py_bind_result.
    fold x_values y_values.
    destruct countdown.
    + rewrite for_each_tqdm_result. cbn [lift snd].
      replace (range resolution_focus) with (range (length x_values))
        by (by rewrite Hxs).
      rewrite (for_each_range_enumerate x_values (λ st i x,
        for_each (enumerate y_values) (λ st '(j, y),
          point_field A _ _ _ _ _ i j st) st)).
      rewrite Hrun. by py_step.
    + cbn [lift snd]. rewrite Hrun. by py_step.
  - intros i j x y Hx Hy. cbv zeta.
    destruct (Hcells i j x y Hx Hy) as (v & Hv & H1 & H2 & H3).
    { left. apply lookup_lt_Some in Hx. lia. }
    cbn [fst snd] in H1, H2, H3.
    rewrite (point_sums_terms ex_lens ey_lens resolution_phi
               resolution_theta _ _ wr wp A _ _ _ v Hex Hey
               (length_linspace _ _ _) (length_linspace _ _ _) Hlr Hlp HA Hv)
      in H1, H2, H3.
    cbn [fst snd] in H1, H2, H3.
    by rewrite !cell_mmap, H1, H2, H3.
Qed.

Lemma focus_field_cells_witness :
  ∃ w_theta w_phi ex ey ez,
    quadrature_weights 1 3 = Ok w_theta
    ∧ quadrature_weights (2 * PI) 4 = Ok w_phi
    ∧ (custom_mask_focus_field
         [[RtoC 1; RtoC 2; RtoC 3]; [RtoC 4; RtoC 5; RtoC 6];
          [RtoC 7; RtoC 8; RtoC 9]; [RtoC 10; RtoC 11; RtoC 12]]
         [[RtoC 2; RtoC 3; RtoC 5]; [RtoC 7; RtoC 11; RtoC 13];
          [RtoC 17; RtoC 19; RtoC 23]; [RtoC 29; RtoC 31; RtoC 37]]
         1 1 1 1 2 3 4 1 false 0 0).2 = Ok (ex, ey, ez)
    ∧ ∀ i j x y,
        linspace (- (1 / 2) + 0) (1 / 2 + 0) 2 !! i = Some x →
        linspace (1 / 2 + 0) (- (1 / 2) + 0) 2 !! j = Some y →
        let thetas := linspace 0 1 3 in
        let phis := linspace 0 (2 * PI) 4 in
        let ex_rot := λ r c,
          entry [[RtoC 1; RtoC 2; RtoC 3]; [RtoC 4; RtoC 5; RtoC 6];
                 [RtoC 7; RtoC 8; RtoC 9]; [RtoC 10; RtoC 11; RtoC 12]]
            (source_row 4 (4 / 2) r) c in
        let ey_rot := λ r c,
          entry [[RtoC 2; RtoC 3; RtoC 5]; [RtoC 7; RtoC 11; RtoC 13];
                 [RtoC 17; RtoC 19; RtoC 23]; [RtoC 29; RtoC 31; RtoC 37]]
            (source_row 4 (3 * 4 / 4) r) c in
        let kr := (sqrt (x ^ 2 + y ^ 2) * 2 * PI / (1 * 10 ^ 6))%R in
        let phip := arctan2 y x in
        let kz := (1 * 2 * PI / (1 * 10 ^ 6))%R in
        cell ex j i
        = Some (focal_sum_x thetas phis w_theta w_phi ex_rot ey_rot kr phip kz
                * (- Ci * RtoC (1 / sin 1 * 10 ^ 6) / (1 * 10 ^ 6)%R))%C
        ∧ cell ey j i
          = Some (focal_sum_y thetas phis w_theta w_phi ex_rot ey_rot kr phip
                    kz
                  * (Ci * RtoC (1 / sin 1 * 10 ^ 6) / (1 * 10 ^ 6)%R))%C
        ∧ cell ez j i
          = Some (focal_sum_z thetas phis w_theta w_phi ex_rot ey_rot kr phip
                    kz
                  * (Ci * RtoC (1 / sin 1 * 10 ^ 6) / (1 * 10 ^ 6)%R))%C.
Proof.
  apply (focus_field_cells
           [[RtoC 1; RtoC 2; RtoC 3]; [RtoC 4; RtoC 5; RtoC 6];
            [RtoC 7; RtoC 8; RtoC 9]; [RtoC 10; RtoC 11; RtoC 12]]
           [[RtoC 2; RtoC 3; RtoC 5]; [RtoC 7; RtoC 11; RtoC 13];
            [RtoC 17; RtoC 19; RtoC 23]; [RtoC 29; RtoC 31; RtoC 37]]
           1 1 1 1 2 3 4 1 false 0 0).
  - lra.
  - pose proof PI2_1. lra.
  - split; [reflexivity|]. repeat constructor.
  - split; [reflexivity|]. repeat constructor.
  - lia.
  - lia.
Defined.

(** X12. For a nonzero wavelength and a semi-aperture in [(0, pi/2]], with
    the selector ['X'] or ['Y'], on incident fields of the shape of the
    angular grids, the axial arrays of [custom_mask_focus_field_XZ_XY] have
    one row per axial sample and one column per transverse sample.  With
    [kr = |x|*2*pi/Lambda] for the transverse coordinate [x = x_values[i]],
    [phip = arctan2(0, x)] along X and [arctan2(x, 0)] along Y, and
    [kz = z*2*pi/Lambda] for the axial coordinate [z = z_values[j]], the cell
    of row [j] and column [i] of the X component holds
    [(sum(prefactor_x*ex_rot*w*phase_x) + sum(prefactor_y*ey_rot*w*phase_y))
     * (-i*focus/Lambda)],
    each sum running over every azimuthal sample [r] and polar sample [c] of
    the angular grids, with the weight [w[r, c] = w_theta[c]*w_phi[r]],
    [ex_rot] the X incident field rotated by half its rows and [ey_rot] the
    Y incident field rotated by three quarters of its rows; the Y component
    takes [prefactor_y] and [-prefactor_x], the Z component [prefactor_z]
    twice, both times [i*focus/Lambda].  The transverse samples span
    [FOV_focus*sqrt(2)] around [x0] for both selectors, and the axial
    coordinate does not depend on [zp0]. *)
Theorem axial_plane_cells (ex_lens ey_lens : matrix C)
    (alpha h Lambda z_FOV : R) (resolution_z : nat) (zp0 : R)
    (resolution_focus resolution_theta resolution_phi : nat) (FOV_focus : R)
    (x0 y0 : R) (plot_plane : string) :
  Lambda ≠ 0%R → (0 < alpha <= PI / 2)%R →
  plot_plane = "X" ∨ plot_plane = "Y" →
  has_shape ex_lens resolution_phi resolution_theta →
  has_shape ey_lens resolution_phi resolution_theta →
  1 ≤ resolution_theta → 1 ≤ resolution_phi →
  ∃ w_theta w_phi Ex_XZ Ey_XZ Ez_XZ Ex_XY Ey_XY Ez_XY,
    quadrature_weights alpha resolution_theta = Ok w_theta
    ∧ quadrature_weights (2 * PI) resolution_phi = Ok w_phi
    ∧ (custom_mask_focus_field_XZ_XY ex_lens ey_lens alpha h Lambda z_FOV
         resolution_z zp0 resolution_focus resolution_theta resolution_phi
         FOV_focus x0 y0 plot_plane).2
      = Ok (Ex_XZ, Ey_XZ, Ez_XZ, Ex_XY, Ey_XY, Ez_XY)
    ∧ ∀ i j x z,
        linspace (- (FOV_focus * sqrt 2 / 2) + x0)
          (FOV_focus * sqrt 2 / 2 + x0) resolution_focus !! i = Some x →
        axial_grid z_FOV resolution_z !! j = Some z →
        let thetas := linspace 0 alpha resolution_theta in
        let phis := linspace 0 (2 * PI) resolution_phi in
        let ex_rot := λ r c,
          entry ex_lens (source_row resolution_phi (resolution_phi / 2) r) c in
        let ey_rot := λ r c,
          entry ey_lens
            (source_row resolution_phi (3 * resolution_phi / 4) r) c in
        let kr := (Rabs x * 2 * PI / (Lambda * 10 ^ 6))%R in
        let phip :=
          if decide (plot_plane = "X") then arctan2 0 x else arctan2 x 0 in
        let kz := (z * 2 * PI / (Lambda * 10 ^ 6))%R in
        cell Ex_XZ j i
        = Some (focal_sum_x thetas phis w_theta w_phi ex_rot ey_rot kr phip kz
                * (- Ci * RtoC (h / sin alpha * 10 ^ 6)
                   / (Lambda * 10 ^ 6)%R))%C
        ∧ cell Ey_XZ j i
          = Some (focal_sum_y thetas phis w_theta w_phi ex_rot ey_rot kr phip
                    kz
                  * (Ci * RtoC (h / sin alpha * 10 ^ 6)
                     / (Lambda * 10 ^ 6)%R))%C
        ∧ cell Ez_XZ j i
          = Some (focal_sum_z thetas phis w_theta w_phi ex_rot ey_rot kr phip
                    kz
                  * (Ci * RtoC (h / sin alpha * 10 ^ 6)
                     / (Lambda * 10 ^ 6)%R))%C.
Proof.
  intros _ _ Hplane Hex Hey Hrt Hrp.
  pose proof (proj1 Hex) as Hlx. pose proof (proj1 Hey) as Hly.
  destruct (custom_mask_focus_field_returns ex_lens ey_lens alpha h Lambda zp0
              resolution_focus resolution_theta resolution_phi FOV_focus x0 y0
              Hex Hey Hrt Hrp) as ([[Ex_XY Ey_XY] Ez_XY] & Hxy & _).
  destruct (has_shape_meshgrid_linspace 0 alpha 0 (2 * PI)
              resolution_theta resolution_phi) as [Htheta Hphi].
  destruct (trapezoid_vector_returns (alpha / INR resolution_theta)
              resolution_theta Hrt) as (wr & Hwr & Hlr).
  destruct (trapezoid_vector_returns (2 * PI / INR resolution_phi)
              resolution_phi Hrp) as (wp & Hwp & Hlp).
  pose proof (has_shape_outer_product wr wp) as Hweight.
  rewrite Hlr, Hlp in Hweight.
  destruct (coupling_arrays_returns
              (rotate (resolution_phi / 2) ex_lens)
              (rotate (3 * resolution_phi / 4) ey_lens)
              (outer_product wr wp) _ _ _ _
              (has_shape_rotate _ _ _ _ Hex) (has_shape_rotate _ _ _ _ Hey)
              Hweight Htheta Hphi) as (A & HA & HAs).
  set (x_values := linspace (- (FOV_focus * sqrt 2 / 2) + x0)
                     (FOV_focus * sqrt 2 / 2 + x0) resolution_focus).
  assert (length x_values = resolution_focus) as Hxs by apply length_linspace.
  assert (length (axial_grid z_FOV resolution_z) = axial_count resolution_z)
    as Hzs by apply length_linspace.
  pose (theta := (λ _ : R, linspace 0 alpha resolution_theta)
                   <$> linspace 0 (2 * PI) resolution_phi).
  pose (phi := (λ y : R, (λ _ : R, y) <$> linspace 0 alpha resolution_theta)
                 <$> linspace 0 (2 * PI) resolution_phi).
  destruct (field_loops_cells
              (λ z x v,
                 point_sums A theta phi (Rabs x * 2 * PI / (Lambda * 10 ^ 6))
                   (if decide (plot_plane = "X")
                    then arctan2 0 x else arctan2 x 0)
                   (z * 2 * PI / (Lambda * 10 ^ 6)) v)
              (λ a b, (a, b)) (axial_grid z_FOV resolution_z) x_values
              (axial_count resolution_z) resolution_focus
              (λ j z i x st,
                 point_field A theta phi (Rabs x * 2 * PI / (Lambda * 10 ^ 6))
                   (if decide (plot_plane = "X")
                    then arctan2 0 x else arctan2 x 0)
                   (z * 2 * PI / (Lambda * 10 ^ 6)) i j st)
              (zeros (axial_count resolution_z) resolution_focus,
               zeros (axial_count resolution_z) resolution_focus,
               zeros (axial_count resolution_z) resolution_focus))
    as ([[ex ey] ez] & Hrun & Hsh & Hcells).
  { by intros a b a' b' [= -> ->]. }
  { intros a z b x st Hz Hx Hst. apply lookup_lt_Some in Hz, Hx.
    cbv beta. cbn [fst snd].
    eapply point_field_cells; [done..|lia|lia]. }
  { split_and!; apply has_shape_zeros. }
  cbv beta in Hrun. subst theta phi.
  eexists _, _, _, _, _, Ex_XY, Ey_XY, Ez_XY. split_and!.
  - unfold quadrature_weights, py_div. rewrite decide_False by lia.
    rewrite bind_Ok. exact Hwr.
  - unfold quadrature_weights, py_div. rewrite decide_False by lia.
    rewrite bind_Ok. exact Hwp.
  - unfold custom_mask_focus_field_XZ_XY.
    cbv beta iota zeta delta [meshgrid].
    rewrite py_bind_result, Hxy, bind_Ok. cbv beta iota.
    py_step. rewrite rotate_180_rotate, Hlx. py_step.
    rewrite rotate_270_rotate, Hly. py_step.
    unfold py_div. rewrite !decide_False by lia. do 2 py_step.
    rewrite Hwr. py_step. rewrite Hwp. py_step.
    rewrite trapezoid_field_outer by (intros ->; simpl in *; lia).
    py_step. rewrite HA. py_step. rewrite py_bind_result.
    fold x_values.
    replace (range (axial_count resolution_z))
      with (range (length (axial_grid z_FOV resolution_z)))
      by (by rewrite Hzs).
    revert Hrun. destruct (decide (plot_plane = "X")) as [HX|HX]; intros Hrun.
    + rewrite for_each_tqdm_result. cbn [lift snd].
      rewrite (for_each_range_enumerate (axial_grid z_FOV resolution_z)
                 (λ st j zp0,
                    for_each (enumerate x_values) (λ st '(i, x),
                      point_field A _ _ _ _ _ i j st) st)).
      rewrite Hrun. by py_step.
    + destruct Hplane as [?|HY]; [done|]. rewrite decide_True by done.
      rewrite for_each_tqdm_result. cbn [lift snd].
      rewrite (for_each_range_enumerate (axial_grid z_FOV resolution_z)
                 (λ st j zp0,
                    for_each (enumerate x_values) (λ st '(i, x),
                      point_field A _ _ _ _ _ i j st) st)).
      rewrite Hrun. by py_step.
  - intros i j x z Hx Hz. cbv zeta.
    destruct (Hcells j i z x Hz Hx) as (v & Hv & H1 & H2 & H3).
    { left. apply lookup_lt_Some in Hz. lia. }
    cbn [fst snd] in H1, H2, H3.
    rewrite (point_sums_terms ex_lens ey_lens resolution_phi
               resolution_theta _ _ wr wp A _ _ _ v Hex Hey
               (length_linspace _ _ _) (length_linspace _ _ _) Hlr Hlp HA Hv)
      in H1, H2, H3.
    cbn [fst snd] in H1, H2, H3.
    by rewrite !cell_mmap, H1, H2, H3.
Qed.

Lemma axial_plane_cells_witness :
  ∃ w_theta w_phi Ex_XZ Ey_XZ Ez_XZ Ex_XY Ey_XY Ez_XY,
    quadrature_weights 1 3 = Ok w_theta
    ∧ quadrature_weights (2 * PI) 4 = Ok w_phi
    ∧ (custom_mask_focus_field_XZ_XY
         [[RtoC 1; RtoC 2; RtoC 3]; [RtoC 4; RtoC 5; RtoC 6];
          [RtoC 7; RtoC 8; RtoC 9]; [RtoC 10; RtoC 11; RtoC 12]]
         [[RtoC 2; RtoC 3; RtoC 5]; [RtoC 7; RtoC 11; RtoC 13];
          [RtoC 17; RtoC 19; RtoC 23]; [RtoC 29; RtoC 31; RtoC 37]]
         1 1 1 4 2 0 2 3 4 1 0 0 "Y").2
      = Ok (Ex_XZ, Ey_XZ, Ez_XZ, Ex_XY, Ey_XY, Ez_XY)
    ∧ ∀ i j x z,
        linspace (- (1 * sqrt 2 / 2) + 0) (1 * sqrt 2 / 2 + 0) 2 !! i
        = Some x →
        axial_grid 4 2 !! j = Some z →
        let thetas := linspace 0 1 3 in
        let phis := linspace 0 (2 * PI) 4 in
        let ex_rot := λ r c,
          entry [[RtoC 1; RtoC 2; RtoC 3]; [RtoC 4; RtoC 5; RtoC 6];
                 [RtoC 7; RtoC 8; RtoC 9]; [RtoC 10; RtoC 11; RtoC 12]]
            (source_row 4 (4 / 2) r) c in
        let ey_rot := λ r c,
          entry [[RtoC 2; RtoC 3; RtoC 5]; [RtoC 7; RtoC 11; RtoC 13];
                 [RtoC 17; RtoC 19; RtoC 23]; [RtoC 29; RtoC 31; RtoC 37]]
            (source_row 4 (3 * 4 / 4) r) c in
        let kr := (Rabs x * 2 * PI / (1 * 10 ^ 6))%R in
        let phip :=
          if decide ("Y" = "X") then arctan2 0 x else arctan2 x 0 in
        let kz := (z * 2 * PI / (1 * 10 ^ 6))%R in
        cell Ex_XZ j i
        = Some (focal_sum_x thetas phis w_theta w_phi ex_rot ey_rot kr phip kz
                * (- Ci * RtoC (1 / sin 1 * 10 ^ 6) / (1 * 10 ^ 6)%R))%C
        ∧ cell Ey_XZ j i
          = Some (focal_sum_y thetas phis w_theta w_phi ex_rot ey_rot kr phip
                    kz
                  * (Ci * RtoC (1 / sin 1 * 10 ^ 6) / (1 * 10 ^ 6)%R))%C
        ∧ cell Ez_XZ j i
          = Some (focal_sum_z thetas phis w_theta w_phi ex_rot ey_rot kr phip
                    kz
                  * (Ci * RtoC (1 / sin 1 * 10 ^ 6) / (1 * 10 ^ 6)%R))%C.
Proof.
  apply (axial_plane_cells
           [[RtoC 1; RtoC 2; RtoC 3]; [RtoC 4; RtoC 5; RtoC 6];
            [RtoC 7; RtoC 8; RtoC 9]; [RtoC 10; RtoC 11; RtoC 12]]
           [[RtoC 2; RtoC 3; RtoC 5]; [RtoC 7; RtoC 11; RtoC 13];
            [RtoC 17; RtoC 19; RtoC 23]; [RtoC 29; RtoC 31; RtoC 37]]
           1 1 1 4 2 0 2 3 4 1 0 0 "Y").
  - lra.
  - pose proof PI2_1. lra.
  - by right.
  - split; [reflexivity|]. repeat constructor.
  - split; [reflexivity|]. repeat constructor.
  - lia.
  - lia.
Defined.
